(** * Multi-track synthesizer backend: signal generation, spectral analysis,
      pitch extraction and frequency verification.

    A shallow embedding of [backend/synthesizer_backend.py],
    [backend/audio_processor.py] and, for the synthesis route and the note
    names, [backend/app.py].

    Numbers are modelled as the code has them:
    - Python [float] and NumPy [float64] values are IEEE binary64 numbers,
      [spec_float] with the operations of [SpecFloat] at precision 53;
    - NumPy [float32] arithmetic uses the same operations at precision 24;
    - Python [int] and NumPy [int16] values are [Z] (the latter with the
      wrap-around of the cast written out);
    - a raised exception is a value of [result].

    Library functions whose values are not fixed by IEEE 754 ([np.sin], the
    FFT, the Hann-windowed autocorrelation, the onset detector) are
    parameters of the sections that use them. *)

From Stdlib Require Import String ZArith List Bool Lia QArith Qround.
From Stdlib Require Import SpecFloat Permutation Sorted.
From Stdlib Require Import DecimalString DecimalZ.
Import ListNotations.

Local Open Scope Z_scope.

(** ** Python exceptions and results *)

(** The exceptions the modelled statements can raise, each with the text of
    its message, together with the two error kinds the specification names.
    No statement of the source raises [EmptyInput] or [InvalidParameter]. *)
Inductive py_exception : Type :=
| ValueError (msg : string)
| OverflowError (msg : string)
| ZeroDivisionError (msg : string)
| IndexError (msg : string)
| EmptyInput
| InvalidParameter.

Inductive result (A : Type) : Type :=
| Ok (a : A)
| Raise (e : py_exception).

Arguments Ok {A} a.
Arguments Raise {A} e.

Definition bind {A B : Type} (r : result A) (k : A -> result B) : result B :=
  match r with
  | Ok a => k a
  | Raise e => Raise e
  end.

Notation "x <- r ;; k" := (bind r (fun x => k))
  (at level 61, r at next level, right associativity).

(** A result that is a value or one of Python's own exceptions: not one of
    the two error kinds of the specification. *)
Definition python_outcome {A : Type} (r : result A) : Prop :=
  match r with
  | Raise EmptyInput | Raise InvalidParameter => False
  | _ => True
  end.

(** ** IEEE 754 numbers *)

Definition float := spec_float.

Module F64.
Definition prec : Z := 53.
Definition emax : Z := 1024.
Definition add : float -> float -> float := SFadd prec emax.
Definition sub : float -> float -> float := SFsub prec emax.
Definition mul : float -> float -> float := SFmul prec emax.
Definition div : float -> float -> float := SFdiv prec emax.
(** The binary64 number nearest to an integer (ties to even). *)
Definition of_Z (z : Z) : float := binary_normalize prec emax z 0 false.
(** The value of the decimal literal [m * 10^-k], as Python reads it. *)
Definition dec (m : Z) (k : Z) : float := div (of_Z m) (of_Z (10 ^ k)).
Definition zero : float := S754_zero false.
End F64.

Module F32.
Definition prec : Z := 24.
Definition emax : Z := 128.
Definition add : float -> float -> float := SFadd prec emax.
Definition mul : float -> float -> float := SFmul prec emax.
Definition div : float -> float -> float := SFdiv prec emax.
Definition of_Z (z : Z) : float := binary_normalize prec emax z 0 false.
End F32.

(** Truncation toward zero of a finite number; 0 for the others. *)
Definition trunc (x : float) : Z :=
  match x with
  | S754_finite s m e =>
      let a := match e with
               | Z0 => Zpos m
               | Zpos p => Zpos m * 2 ^ Zpos p
               | Zneg p => Zpos m / 2 ^ Zpos p
               end in
      if s then - a else a
  | _ => 0
  end.

(** The exact value of a finite number, as a rational. *)
Definition Q_of_float (x : float) : Q :=
  match x with
  | S754_finite s m e =>
      let a := match e with
               | Zneg p => Zpos m # (2 ^ p)
               | _ => inject_Z (Zpos m * 2 ^ e)
               end in
      if s then Qopp a else a
  | _ => 0%Q
  end.

(** ** Python built-ins *)

(** [str(i)] for an int, as [%s] and an f-string format it. *)
Definition str_of_int (z : Z) : string :=
  DecimalString.NilZero.string_of_int (Z.to_int z).

(** [int(x)] for a float [x]. *)
Definition py_int (x : float) : result Z :=
  match x with
  | S754_nan => Raise (ValueError "cannot convert float NaN to integer")
  | S754_infinity _ =>
      Raise (OverflowError "cannot convert float infinity to integer")
  | _ => Ok (trunc x)
  end.

(** [float(i)] for an int [i], as done by the mixed operators below. *)
Definition py_float (i : Z) : result float :=
  match F64.of_Z i with
  | S754_infinity _ => Raise (OverflowError "int too large to convert to float")
  | f => Ok f
  end.

(** [i * x] and [x * i] for an int [i] and a float [x]. *)
Definition int_mul_float (i : Z) (x : float) : result float :=
  f <- py_float i ;; Ok (F64.mul f x).

Definition float_mul_int (x : float) (i : Z) : result float :=
  f <- py_float i ;; Ok (F64.mul x f).

(** [i / x] for an int [i] and a float [x]. *)
Definition int_div_float (i : Z) (x : float) : result float :=
  match x with
  | S754_zero _ => Raise (ZeroDivisionError "float division by zero")
  | _ => f <- py_float i ;; Ok (F64.div f x)
  end.

(** An integer as an exact, not yet rounded, binary number. *)
Definition exact_Z (z : Z) : float :=
  match z with
  | Z0 => S754_zero false
  | Zpos p => S754_finite false p 0
  | Zneg p => S754_finite true p 0
  end.

(** [i / j] for two ints (true division): the quotient, correctly rounded. *)
Definition int_div_int (i j : Z) : result float :=
  if j =? 0 then Raise (ZeroDivisionError "division by zero")
  else
    match F64.div (exact_Z i) (exact_Z j) with
    | S754_infinity _ =>
        Raise (OverflowError "integer division result too large for a float")
    | f => Ok f
    end.

(** [max] over a sequence of floats: the first item, replaced by each later
    item that compares greater. *)
Definition py_max (xs : list float) : result float :=
  match xs with
  | [] => Raise (ValueError "max() arg is an empty sequence")
  | x :: rest =>
      Ok (fold_left (fun best y => if SFltb best y then y else best) rest x)
  end.

(** ** NumPy *)

Definition INT16_MIN : Z := -32768.
Definition INT16_MAX : Z := 32767.

(** Reduction of an integer to the 16-bit two's complement range. *)
Definition wrap16 (z : Z) : Z := (z + 32768) mod 65536 - 32768.

(** [a.astype(np.int16)] on one element.  The fraction is discarded; a value
    outside the range wraps as the conversion through a 32-bit integer does
    on x86-64 (NumPy leaves this case to the platform). *)
Definition astype_int16 (x : float) : Z :=
  let t := trunc x in
  if (- 2 ^ 31 <=? t) && (t <? 2 ^ 31) then wrap16 t else 0.

(** [np.linspace(0, stop, num, False)], for a count [num] that is the
    integer part of a float, as [int(...)] returns it.  A negative count is
    refused.  The points are [arange(0, num)] times the step [stop / num];
    [arange] computes its length from [float(num)], which is [num] itself
    here: a length above 2^63 is refused, the length 2^63 turns into an
    empty array by its conversion to a 64-bit integer (on x86-64), and an
    array of 2^60 or more [float64] elements is larger than the largest
    array.  Below that the arrays are taken to be allocated: the memory of
    the machine is not modelled. *)
Definition linspace0 (stop : float) (num : Z) : result (list float) :=
  if num <? 0 then
    Raise (ValueError ("Number of samples, " ++ str_of_int num
                       ++ ", must be non-negative."))
  else if 2 ^ 63 <? num then
    Raise (ValueError "Maximum allowed size exceeded")
  else if num =? 2 ^ 63 then Ok []
  else if 2 ^ 60 <=? num then
    Raise (ValueError "array is too big; `arr.size * arr.dtype.itemsize` is larger than the maximum possible size.")
  else
    let n := F64.of_Z num in
    let step := F64.div stop n in
    let point (i : nat) : float :=
      let y := F64.of_Z (Z.of_nat i) in
      let y := if SFeqb step F64.zero
               then F64.mul (F64.div y n) stop
               else F64.mul y step in
      F64.add y F64.zero in
    Ok (map point (seq 0 (Z.to_nat num))).

(** [np.zeros(n, dtype=np.float32)].  Until the normalisation the elements
    of the mix are sums of [int16] samples: integers, and they are kept as
    integers, rounded to binary32 by each addition. *)
Definition np_zeros (n : Z) : result (list Z) :=
  if n <? 0 then Raise (ValueError "negative dimensions are not allowed")
  else Ok (repeat 0 (Z.to_nat n)).

(** Rounding of an integer to binary32 (24 significant bits, ties to even):
    the result of a [float32] addition whose exact sum is that integer. *)
Definition f32_round (z : Z) : Z :=
  let a := Z.abs z in
  let d := Z.log2 a + 1 - 24 in
  if d <=? 0 then z
  else
    let q := a / 2 ^ d in
    let r := a mod 2 ^ d in
    let half := 2 ^ (d - 1) in
    let q' := if r <? half then q
              else if half <? r then q + 1
              else if Z.even q then q else q + 1 in
    Z.sgn z * (q' * 2 ^ d).

(** Bounds of the Python slice [a[start:stop]] of an array of length [len]. *)
Definition slice_index (len i : Z) : Z :=
  if i <? 0 then Z.max (i + len) 0 else Z.min i len.

Definition slice_bounds (len start stop : Z) : Z * Z :=
  let lo := slice_index len start in
  let hi := slice_index len stop in
  (lo, Z.max lo hi).

(** Addition of [ys] into [xs] from position [lo] on, element by element. *)
Fixpoint add_from (xs : list Z) (lo : nat) (ys : list Z) : list Z :=
  match xs with
  | [] => []
  | x :: xs' =>
      match lo with
      | S lo' => x :: add_from xs' lo' ys
      | O =>
          match ys with
          | [] => x :: xs'
          | y :: ys' => f32_round (x + y) :: add_from xs' O ys'
          end
      end
  end.

(** [mixed[start:stop] += samples] for a [float32] array [mixed] and an
    [int16] array [samples]: the shapes must agree, or [samples] must have
    one element, which is then added to every element of the slice.
    Otherwise NumPy raises [ValueError], with the text "operands could not
    be broadcast together with shapes ..." or "non-broadcastable output
    operand ...", which ends with the shapes; the message is shortened here
    to the first text without the shapes. *)
Definition slice_iadd (mixed : list Z) (start stop : Z) (samples : list Z)
  : result (list Z) :=
  let '(lo, hi) := slice_bounds (Z.of_nat (length mixed)) start stop in
  let width := Z.to_nat (hi - lo) in
  if Nat.eqb (length samples) width then
    Ok (add_from mixed (Z.to_nat lo) samples)
  else if Nat.eqb (length samples) 1 then
    Ok (add_from mixed (Z.to_nat lo) (repeat (hd 0 samples) width))
  else
    Raise (ValueError "operands could not be broadcast together").

(** [np.max] of an array of integers. *)
Definition np_max_Z (xs : list Z) : result Z :=
  match xs with
  | [] => Raise (ValueError "zero-size array to reduction operation maximum which has no identity")
  | x :: rest => Ok (fold_left Z.max rest x)
  end.

(** ** Data model *)

Record Track : Type := {
  frequency : float;
  duration : float;
  velocity : Z;
  start_time : float
}.

(** ** Signal generator ([SynthesizerBackend]) *)

Definition np_pi : float := S754_finite false 7074237752028440 (-51).

Section SignalGenerator.

(** [np.sin] on one element. *)
Variable np_sin : float -> float.

(** [self.sample_rate] *)
Variable sample_rate : Z.

Definition generate_sine_wave (frequency duration amplitude : float)
  : result (list Z) :=
  x <- int_mul_float sample_rate duration ;;
  n <- py_int x ;;
  t <- linspace0 duration n ;;
  two_pi <- int_mul_float 2 np_pi ;;
  let w := F64.mul two_pi frequency in
  Ok (map (fun ti => astype_int16 (F64.mul amplitude (np_sin (F64.mul w ti)))) t).

(** The first sample a track writes to: [int(start_time * sample_rate)]. *)
Definition start_sample_of (track : Track) : result Z :=
  x <- float_mul_int (start_time track) sample_rate ;; py_int x.

(** The tone of a track, at amplitude [32767 * (velocity / 127.0)]. *)
Definition track_samples (track : Track) : result (list Z) :=
  velocity <- int_div_float (velocity track) (F64.of_Z 127) ;;
  amplitude <- int_mul_float 32767 velocity ;;
  generate_sine_wave (frequency track) (duration track) amplitude.

(** One turn of the mixing loop. *)
Definition mix_track (mixed : list Z) (track : Track) : result (list Z) :=
  x <- float_mul_int (start_time track) sample_rate ;;
  start_sample <- py_int x ;;
  velocity <- int_div_float (velocity track) (F64.of_Z 127) ;;
  amplitude <- int_mul_float 32767 velocity ;;
  samples <- generate_sine_wave (frequency track) (duration track) amplitude ;;
  let end_sample := start_sample + Z.of_nat (length samples) in
  slice_iadd mixed start_sample end_sample samples.

Fixpoint mix_loop (mixed : list Z) (tracks : list Track) : result (list Z) :=
  match tracks with
  | [] => Ok mixed
  | track :: rest => mixed' <- mix_track mixed track ;; mix_loop mixed' rest
  end.

(** The normalisation and the final [astype(np.int16)]. *)
Definition normalize (mixed : list Z) : result (list Z) :=
  max_val <- np_max_Z (map Z.abs mixed) ;;
  let mixed : list float :=
    if 32767 <? max_val then
      map (fun x => F32.mul (F32.div (F32.of_Z x) (F32.of_Z max_val))
                            (F32.of_Z 32767)) mixed
    else map F32.of_Z mixed in
  Ok (map astype_int16 mixed).

(** [int(self.sample_rate * total_duration)] *)
Definition total_samples_of (tracks : list Track) : result Z :=
  total_duration <-
    py_max (map (fun t => F64.add (start_time t) (duration t)) tracks) ;;
  x <- int_mul_float sample_rate total_duration ;;
  py_int x.

Definition generate_multi_track (tracks : list Track) : result (list Z) :=
  total_duration <-
    py_max (map (fun t => F64.add (start_time t) (duration t)) tracks) ;;
  x <- int_mul_float sample_rate total_duration ;;
  total_samples <- py_int x ;;
  mixed <- np_zeros total_samples ;;
  mixed <- mix_loop mixed tracks ;;
  normalize mixed.

(** The code of [generate_multi_track] before the normalisation: the
    [float32] sum of the tones. *)
Definition mix_before_normalisation (tracks : list Track)
  : result (list Z) :=
  total_samples <- total_samples_of tracks ;;
  mixed <- np_zeros total_samples ;;
  mix_loop mixed tracks.

(** A track whose first sample has a non-negative index. *)
Definition starts_at_or_after_zero (track : Track) : bool :=
  match start_sample_of track with
  | Ok start => 0 <=? start
  | Raise _ => false
  end.

(** What one track adds to the sample of index [i] of the mix, if it
    covers that index: the sample [i - start_sample] of its tone. *)
Definition contribution (track : Track) (i : nat) : option Z :=
  match start_sample_of track, track_samples track with
  | Ok start, Ok samples =>
      if (start <=? Z.of_nat i)
         && (Z.of_nat i <? start + Z.of_nat (length samples))
      then Some (nth (Z.to_nat (Z.of_nat i - start)) samples 0)
      else None
  | _, _ => None
  end.

(** The [float32] accumulation of one contribution. *)
Definition accumulate (acc : Z) (c : option Z) : Z :=
  match c with
  | Some v => f32_round (acc + v)
  | None => acc
  end.

(** The sample of index [i] before normalisation, track after track. *)
Definition mixed_sample (tracks : list Track) (i : nat) : Z :=
  fold_left (fun acc t => accumulate acc (contribution t i)) tracks 0.

(** The scaling of one sample by [32767 / peak], as the code computes it. *)
Definition scaled_sample (peak x : Z) : Z :=
  astype_int16
    (F32.mul (F32.div (F32.of_Z x) (F32.of_Z peak)) (F32.of_Z 32767)).

End SignalGenerator.

(** ** More of NumPy: reductions and sorting on [float64] arrays *)

Definition is_nan (x : float) : bool :=
  match x with
  | S754_nan => true
  | _ => false
  end.

(** [np.max]: a NaN, once met, is the result. *)
Definition np_max (xs : list float) : result float :=
  match xs with
  | [] => Raise (ValueError "zero-size array to reduction operation maximum which has no identity")
  | x :: rest =>
      Ok (fold_left (fun best y => if is_nan best then best
                                   else if is_nan y then y
                                   else if SFltb best y then y else best)
                    rest x)
  end.

(** [np.argmax]: the first NaN if there is one, else the first maximum. *)
Fixpoint argmax_from (best : float) (best_i i : nat) (xs : list float) : nat :=
  match xs with
  | [] => best_i
  | x :: xs' =>
      if SFleb x best then argmax_from best best_i (S i) xs'
      else if is_nan x then i
      else argmax_from x i (S i) xs'
  end.

Definition np_argmax (xs : list float) : result nat :=
  match xs with
  | [] => Raise (ValueError "attempt to get argmax of an empty sequence")
  | x :: rest => Ok (if is_nan x then O else argmax_from x O 1%nat rest)
  end.

(** [np.argmin]: the first NaN if there is one, else the first minimum. *)
Fixpoint argmin_from (best : float) (best_i i : nat) (xs : list float) : nat :=
  match xs with
  | [] => best_i
  | x :: xs' =>
      if SFleb best x then argmin_from best best_i (S i) xs'
      else if is_nan x then i
      else argmin_from x i (S i) xs'
  end.

Definition np_argmin (xs : list float) : result nat :=
  match xs with
  | [] => Raise (ValueError "attempt to get argmin of an empty sequence")
  | x :: rest => Ok (if is_nan x then O else argmin_from x O 1%nat rest)
  end.

(** The order NumPy sorts floats by: [<], with every NaN last. *)
Definition np_lt (a b : float) : bool :=
  SFltb a b || (is_nan b && negb (is_nan a)).

(** [np.argsort]: the indices in ascending order of the values.  Equal
    values keep their order here, which NumPy's default sort does not
    promise; the proofs below use only that the result is sorted and has
    every index once. *)
Fixpoint insert_by_value (p : float * nat) (l : list (float * nat))
  : list (float * nat) :=
  match l with
  | [] => [p]
  | q :: l' =>
      if np_lt (fst q) (fst p) then q :: insert_by_value p l'
      else p :: q :: l'
  end.

Definition sort_by_value (l : list (float * nat)) : list (float * nat) :=
  fold_right insert_by_value [] l.

Definition np_argsort (xs : list float) : list nat :=
  map snd (sort_by_value (combine xs (seq 0 (length xs)))).

(** [a[idx]] for an index array. *)
Definition take {A : Type} (d : A) (a : list A) (idx : list nat) : list A :=
  map (fun i => nth i a d) idx.

(** ** SciPy: [scipy.signal.find_peaks(x, height=h, distance=d)] *)

Module Scipy.

(** The inner loop of [_local_maxima_1d]: the end of a plateau. *)
Fixpoint plateau_end (fuel : nat) (x : list float) (xi : float)
    (i_max i_ahead : nat) : nat :=
  match fuel with
  | O => i_ahead
  | S fuel' =>
      if Nat.ltb i_ahead i_max && SFeqb (nth i_ahead x S754_nan) xi
      then plateau_end fuel' x xi i_max (S i_ahead)
      else i_ahead
  end.

(** The outer loop of [_local_maxima_1d], from index [i] on. *)
Fixpoint local_maxima_from (fuel : nat) (x : list float) (i_max i : nat)
  : list nat :=
  match fuel with
  | O => []
  | S fuel' =>
      if Nat.ltb i i_max then
        let xi := nth i x S754_nan in
        if SFltb (nth (i - 1) x S754_nan) xi then
          let i_ahead := plateau_end (i_max - S i) x xi i_max (S i) in
          if SFltb (nth i_ahead x S754_nan) xi then
            Nat.div (i + (i_ahead - 1)) 2
              :: local_maxima_from fuel' x i_max (S i_ahead)
          else local_maxima_from fuel' x i_max (S i)
        else local_maxima_from fuel' x i_max (S i)
      else []
  end.

(** [_local_maxima_1d]: the midpoints of the strict local maxima and of
    the plateaus that are higher than both their neighbours. *)
Definition local_maxima (x : list float) : list nat :=
  local_maxima_from (length x) x (length x - 1) 1.

(** [_select_by_property] with a lower bound only. *)
Definition select_by_height (x : list float) (hmin : float)
    (peaks : list nat) : list nat :=
  filter (fun p => SFleb hmin (nth p x S754_nan)) peaks.

Fixpoint clear (k : nat) (keep : list bool) : list bool :=
  match keep with
  | [] => []
  | b :: keep' =>
      match k with
      | O => false :: keep'
      | S k' => b :: clear k' keep'
      end
  end.

(** The two inner loops of [_select_by_peak_distance] for the peak at
    position [pj]: [k1] is one more than the index looked at. *)
Fixpoint flag_earlier (peaks : list nat) (pj : nat) (distance : Z)
    (k1 : nat) (keep : list bool) : list bool :=
  match k1 with
  | O => keep
  | S k =>
      if Z.of_nat pj - Z.of_nat (nth k peaks O) <? distance
      then flag_earlier peaks pj distance k (clear k keep)
      else keep
  end.

Fixpoint flag_later (fuel : nat) (peaks : list nat) (pj : nat)
    (distance : Z) (k : nat) (keep : list bool) : list bool :=
  match fuel with
  | O => keep
  | S fuel' =>
      if Nat.ltb k (length peaks)
         && (Z.of_nat (nth k peaks O) - Z.of_nat pj <? distance)
      then flag_later fuel' peaks pj distance (S k) (clear k keep)
      else keep
  end.

(** One turn of the outer loop, for the peak of index [j]. *)
Definition visit (peaks : list nat) (distance : Z) (keep : list bool)
    (j : nat) : list bool :=
  if nth j keep false then
    let pj := nth j peaks O in
    let keep := flag_earlier peaks pj distance j keep in
    flag_later (length peaks - S j) peaks pj distance (S j) keep
  else keep.

(** [_select_by_peak_distance]: the peaks are visited from the highest
    priority down; a visited peak that is still kept removes every
    neighbour closer than [distance]. *)
Definition select_by_peak_distance (peaks : list nat)
    (priority : list float) (distance : Z) : list bool :=
  fold_left (visit peaks distance)
            (rev (np_argsort priority))
            (repeat true (length peaks)).

Fixpoint mask {A : Type} (a : list A) (keep : list bool) : list A :=
  match a, keep with
  | x :: a', b :: keep' => if b then x :: mask a' keep' else mask a' keep'
  | _, _ => []
  end.

Definition find_peaks (x : list float) (height : float) (distance : Z)
  : list nat :=
  let peaks := select_by_height x height (local_maxima x) in
  let keep :=
    select_by_peak_distance peaks (take S754_nan x peaks) distance in
  mask peaks keep.

End Scipy.

(** ** Spectral analyser ([SynthesizerBackend.compute_fft]) *)

Record fft_data : Type := {
  frequencies : list float;
  magnitude : list float;
  peak_frequencies : list float;
  peak_magnitudes : list float
}.

Record verification : Type := {
  expected_frequency : float;
  detected_frequency : float;
  error_percent : float;
  is_accurate : bool;
  tolerance_percent : float
}.

Definition complex : Type := float * float.

(** The indices of the peaks of a magnitude sequence, highest first, ten at
    most: lines 163 to 170 of [compute_fft], on indices. *)
Definition top_peaks (magnitude : list float) : list nat :=
  let peaks := Scipy.find_peaks magnitude (F64.dec 1 1) 50 in
  let peak_mags := take S754_nan magnitude peaks in
  let sorted_idx := rev (np_argsort peak_mags) in
  firstn 10 (take O peaks sorted_idx).

(** [scipy.fft.fftfreq(n, d)], first half. *)
Definition fftfreq_half (n : nat) (d : float) : result (list float) :=
  nd <- int_mul_float (Z.of_nat n) d ;;
  match nd with
  | S754_zero _ => Raise (ZeroDivisionError "float division by zero")
  | _ =>
      let val := F64.div (F64.of_Z 1) nd in
      Ok (map (fun k => F64.mul (F64.of_Z (Z.of_nat k)) val)
              (seq 0 (Nat.div n 2)))
  end.

(** Lines 159 to 179 of [compute_fft]: from the one-sided magnitudes to the
    result. *)
Definition spectrum_result (frequencies magnitude : list float)
  : result fft_data :=
  m <- np_max magnitude ;;
  let magnitude := map (fun x => F64.div x m) magnitude in
  let idx := top_peaks magnitude in
  Ok {| frequencies := frequencies;
        magnitude := magnitude;
        peak_frequencies := take S754_nan frequencies idx;
        peak_magnitudes := take S754_nan magnitude idx |}.

(** Lines 266 to 281 of [verify_frequency_accuracy]: from the detected peak
    frequencies to the verdict. *)
Definition verify_peaks (peak_freqs : list float)
    (expected_freq tolerance : float) : result verification :=
  closest_idx <-
    np_argmin (map (fun f => SFabs (F64.sub f expected_freq)) peak_freqs) ;;
  let detected_freq := nth closest_idx peak_freqs S754_nan in
  let error := F64.div (SFabs (F64.sub detected_freq expected_freq))
                       expected_freq in
  Ok {| expected_frequency := expected_freq;
        detected_frequency := detected_freq;
        error_percent := F64.mul error (F64.of_Z 100);
        is_accurate := SFleb error tolerance;
        tolerance_percent := F64.mul tolerance (F64.of_Z 100) |}.

Section SpectralAnalyzer.

(** [scipy.fft.fft] on a non-empty array, and [np.abs] on one complex
    number. *)
Variable fft : list Z -> list complex.
Variable np_abs : complex -> float.

Variable sample_rate : Z.

Definition compute_fft (samples : list Z) : result fft_data :=
  match samples with
  | [] => Raise (ValueError "invalid number of data points (0) specified")
  | _ =>
      let fft_result := fft samples in
      d <- int_div_int 1 sample_rate ;;
      frequencies <- fftfreq_half (length samples) d ;;
      let magnitude :=
        map np_abs (firstn (Nat.div (length fft_result) 2) fft_result) in
      spectrum_result frequencies magnitude
  end.

Definition verify_frequency_accuracy (samples : list Z)
    (expected_freq tolerance : float) : result verification :=
  fft_data <- compute_fft samples ;;
  verify_peaks (peak_frequencies fft_data) expected_freq tolerance.

End SpectralAnalyzer.

(** ** Pitch extractor ([AudioProcessor]) *)

(** [a[start:stop]] on a list. *)
Definition slice {A : Type} (a : list A) (start stop : Z) : list A :=
  let '(lo, hi) := slice_bounds (Z.of_nat (length a)) start stop in
  firstn (Z.to_nat (hi - lo)) (skipn (Z.to_nat lo) a).

(** Lines 95 to 113 of [_get_dominant_frequency]: from the one-sided
    autocorrelation to the frequency. *)
Definition fundamental_of (autocorr : list float) (sr : Z) : result float :=
  match autocorr with
  | [] => Raise (IndexError "index 0 is out of bounds for axis 0 with size 0")
  | a0 :: _ =>
      let autocorr := map (fun a => F64.div a a0) autocorr in
      let min_period := sr / 2000 in
      let max_period := sr / 50 in
      let max_period :=
        if Z.of_nat (length autocorr) <? max_period
        then Z.of_nat (length autocorr) - 1 else max_period in
      if max_period <=? min_period then Ok F64.zero
      else
        i <- np_argmax (slice autocorr min_period max_period) ;;
        let peak_idx := min_period + Z.of_nat i in
        if 0 <? peak_idx then Ok (F64.div (F64.of_Z sr) (F64.of_Z peak_idx))
        else Ok F64.zero
  end.

Section PitchExtractor.

(** [scipy.signal.windows.hann(n)] and [np.correlate(a, b, mode='full')]. *)
Variable hann : nat -> list float.
Variable correlate_full : list float -> list float -> list float.

Definition get_dominant_frequency (audio_segment : list float) (sr : Z)
  : result float :=
  if Nat.ltb (length audio_segment) 2 then Ok F64.zero
  else
    let windowed :=
      map (fun p => F64.mul (fst p) (snd p))
          (combine audio_segment (hann (length audio_segment))) in
    let autocorr := correlate_full windowed windowed in
    let autocorr := skipn (Nat.div (length autocorr) 2) autocorr in
    fundamental_of autocorr sr.

(** The loop of [_extract_tracks], over the onsets that are left; the
    track is given the fields of the data model ([startTime] in the source
    is [start_time] here). *)
Fixpoint extract_from (y : list float) (sr : Z) (onsets : list float)
  : result (list Track) :=
  match onsets with
  | [] => Ok []
  | onset_time :: later =>
      end_time <- match later with
                  | next :: _ => Ok next
                  | [] => int_div_int (Z.of_nat (length y)) sr
                  end ;;
      let duration := F64.sub end_time onset_time in
      start_sample <- py_int (F64.mul onset_time (F64.of_Z sr)) ;;
      end_sample <- py_int (F64.mul end_time (F64.of_Z sr)) ;;
      let segment := slice y start_sample end_sample in
      frequency <- get_dominant_frequency segment sr ;;
      rest <- extract_from y sr later ;;
      if SFltb F64.zero frequency then
        Ok ({| frequency := frequency; duration := duration;
               velocity := 100; start_time := onset_time |} :: rest)
      else Ok rest
  end.

(** [_extract_tracks], given what the onset detector returned. *)
Definition extract_tracks (y : list float) (sr : Z) (onset_times : list float)
  : result (list Track) :=
  extract_from y sr onset_times.

End PitchExtractor.

(** ** The order of the numbers, for the proofs about sorting *)

(** A key whose lexicographic order is the order NumPy sorts floats by:
    negative infinity, the negative numbers, the zeros, the positive
    numbers, positive infinity, then NaN. *)
Definition sort_key (x : float) : Z * Z * Z :=
  match x with
  | S754_nan => (3, 0, 0)
  | S754_infinity true => (-2, 0, 0)
  | S754_infinity false => (2, 0, 0)
  | S754_zero _ => (0, 0, 0)
  | S754_finite true m e => (-1, - e, - Zpos m)
  | S754_finite false m e => (1, e, Zpos m)
  end.

Definition key_lt (a b : Z * Z * Z) : Prop :=
  let '(a1, a2, a3) := a in
  let '(b1, b2, b3) := b in
  a1 < b1 \/ (a1 = b1 /\ (a2 < b2 \/ (a2 = b2 /\ a3 < b3))).

(** ** Ranges of integers *)

(** The [n] integers from [lo] on. *)
Fixpoint Z_range (lo : Z) (n : nat) : list Z :=
  match n with
  | O => []
  | S n' => lo :: Z_range (lo + 1) n'
  end.

(** ** The sign of a number *)

(** [x] has the sign bit [s], or is NaN. *)
Definition has_sign (s : bool) (x : float) : Prop :=
  match x with
  | S754_zero s' | S754_infinity s' | S754_finite s' _ _ => s' = s
  | S754_nan => True
  end.

(** ** What a peak is *)

(** [p] is the middle of a plateau [l..r] of [x] (a single sample when
    [l = r]) that is strictly higher than the sample before it and the
    sample after it. *)
Definition is_local_maximum (x : list float) (p : nat) : Prop :=
  exists l r : nat,
    (1 <= l)%nat /\ (l <= r)%nat /\ (r + 1 < length x)%nat
    /\ p = Nat.div (l + r) 2
    /\ SFltb (nth (l - 1) x S754_nan) (nth l x S754_nan) = true
    /\ (forall k, (l < k <= r)%nat ->
                  SFeqb (nth k x S754_nan) (nth l x S754_nan) = true)
    /\ SFltb (nth (r + 1) x S754_nan) (nth l x S754_nan) = true.

(** The distance in bins between two indices. *)
Definition bins_apart (p q : nat) : Z := Z.abs (Z.of_nat p - Z.of_nat q).

(** ** The invariant of the selection by distance *)

(** In a list sorted by [np_argsort], [p] comes before [q]: the value of [q]
    is not less than the value of [p]. *)
Definition not_above (p q : float * nat) : Prop :=
  np_lt (fst q) (fst p) = false.

(** The peaks of indices [i] and [j] are distinct and closer than
    [distance]. *)
Definition close_peaks (peaks : list nat) (distance : Z) (i j : nat) : Prop :=
  i <> j /\ bins_apart (nth i peaks O) (nth j peaks O) < distance.

(** After the visits of the peaks of [done]: a visited peak that is kept
    has no close peak kept; and every peak removed is close to a visited
    peak that is kept and not below it ([ge j i]). *)
Definition selection_invariant (peaks : list nat) (distance : Z)
    (ge : nat -> nat -> Prop) (keep : list bool) (done : list nat) : Prop :=
  length keep = length peaks
  /\ (forall j, In j done -> nth j keep false = true ->
        forall i, (i < length peaks)%nat -> close_peaks peaks distance i j ->
                  nth i keep false = false)
  /\ (forall i, (i < length peaks)%nat -> nth i keep false = false ->
        exists j, In j done /\ nth j keep false = true
                  /\ close_peaks peaks distance i j /\ ge j i).

(** ** Inputs of the examples *)

(** The first-order approximation of the sine.  It stands for [np.sin] where
    an example has to be run; every property below is proved for all
    [np_sin]. *)
Definition small_angle_sin (x : float) : float := x.

(** 440 Hz for 0.06 s from 0.01 s on. *)
Definition short_note : Track :=
  {| frequency := F64.of_Z 440; duration := F64.dec 6 2;
     velocity := 100; start_time := F64.dec 1 2 |}.

(** 440 Hz for 0.125 s from 0.1875 s on; the two times and their products
    with 44100 are exact in binary64. *)
Definition dyadic_note : Track :=
  {| frequency := F64.of_Z 440; duration := F64.dec 125 3;
     velocity := 127; start_time := F64.dec 1875 4 |}.

(** 440 Hz for 0.00003 s from 0 on: one sample at 44100 Hz. *)
Definition click : Track :=
  {| frequency := F64.of_Z 440; duration := F64.dec 3 5;
     velocity := 127; start_time := F64.zero |}.

(** 0.1 Hz for half a second from 0 on. *)
Definition slow_note : Track :=
  {| frequency := F64.dec 1 1; duration := F64.dec 5 1;
     velocity := 127; start_time := F64.zero |}.

(** The transform of a silent buffer, all zero, and the modulus of a complex
    number without imaginary part.  They stand for [scipy.fft.fft] and
    [np.abs] where an example on a silent buffer has to be run. *)
Definition fft_of_silence (samples : list Z) : list complex :=
  map (fun _ => (F64.zero, F64.zero)) samples.

Definition abs_of_real (c : complex) : float := SFabs (fst c).

(** A window of ones and the correlation of constant sequences.  They stand
    for [scipy.signal.windows.hann] and [np.correlate] where an example has
    to be run whose outcome depends on the lengths only. *)
Definition window_of_ones (n : nat) : list float := repeat (F64.of_Z 1) n.

Definition correlation_of_lengths (a b : list float) : list float :=
  repeat (F64.of_Z 1) (length a + length b - 1).

(** A spectrum with a peak of 0.5 at bin 1 and a peak of 1.0 at bin 3. *)
Definition two_close_peaks : list float :=
  [F64.zero; F64.dec 5 1; F64.zero; F64.of_Z 1; F64.zero].

(** ** The formulas of the specification, for comparison with the code *)

Module Spec.

(** [ceil(sampleRate * max(start_time + duration))], computed exactly. *)
Definition total_samples (sample_rate : Z) (tracks : list Track) : Z :=
  let ends :=
    map (fun t => Qplus (Q_of_float (start_time t)) (Q_of_float (duration t)))
        tracks in
  let longest :=
    fold_left (fun a b => if Qle_bool a b then b else a) ends (hd 0%Q ends) in
  Qceiling (Qmult (inject_Z sample_rate) longest).

(** [round(start_time * sampleRate)], computed exactly (to nearest). *)
Definition start_offset (sample_rate : Z) (track : Track) : Z :=
  Qfloor (Qplus (Qmult (Q_of_float (start_time track)) (inject_Z sample_rate))
                (1 # 2)).

(** The greedy left-to-right scan: a candidate is accepted when it is at
    least [distance] bins after the last accepted one. *)
Fixpoint scan_left_to_right (distance : Z) (last : option nat)
    (candidates : list nat) : list nat :=
  match candidates with
  | [] => []
  | p :: rest =>
      match last with
      | None => p :: scan_left_to_right distance (Some p) rest
      | Some q =>
          if distance <=? Z.of_nat p - Z.of_nat q
          then p :: scan_left_to_right distance (Some p) rest
          else scan_left_to_right distance last rest
      end
  end.

(** [findPeaks] as the specification words it, on indices. *)
Definition find_peaks (magnitude : list float) : list nat :=
  let candidates :=
    Scipy.select_by_height magnitude (F64.dec 1 1)
      (Scipy.local_maxima magnitude) in
  let accepted := scan_left_to_right 50 None candidates in
  let sorted_idx := rev (np_argsort (take S754_nan magnitude accepted)) in
  firstn 10 (take O accepted sorted_idx).

End Spec.

(** ** Predicates on floats, for the statements *)

(** A number: neither an infinity nor NaN. *)
Definition is_finite (x : float) : bool :=
  match x with
  | S754_zero _ | S754_finite _ _ _ => true
  | _ => false
  end.

Definition is_zero (x : float) : bool :=
  match x with
  | S754_zero _ => true
  | _ => false
  end.

(** ** The mix in exact arithmetic *)

Section MixArithmetic.

Variable np_sin : float -> float.
Variable sample_rate : Z.

(** The sum of what the tracks add to the sample of index [i], without
    the rounding of the [float32] buffer. *)
Definition summed_sample (tracks : list Track) (i : nat) : Z :=
  fold_left (fun acc t =>
               acc + match contribution np_sin sample_rate t i with
                     | Some v => v
                     | None => 0
                     end)
            tracks 0.

End MixArithmetic.

(** 440 Hz for 0.001 s from 0 on, at velocity 0. *)
Definition muted_note : Track :=
  {| frequency := F64.of_Z 440; duration := F64.dec 1 3;
     velocity := 0; start_time := F64.zero |}.

(** A note without duration, at time 0. *)
Definition empty_note : Track :=
  {| frequency := F64.of_Z 440; duration := F64.zero;
     velocity := 127; start_time := F64.zero |}.

(** 440 Hz for 0.0005 s from 0.001 s before time 0 on. *)
Definition early_note : Track :=
  {| frequency := F64.of_Z 440; duration := F64.dec 5 4;
     velocity := 127; start_time := F64.dec (-1) 3 |}.

(** A one-sided autocorrelation of ten lags, highest at lag 5 after lag 0. *)
Definition example_autocorrelation : list float :=
  [F64.of_Z 1; F64.dec 5 1; F64.dec 2 1; F64.dec 1 1; F64.dec 3 1;
   F64.dec 8 1; F64.dec 4 1; F64.dec 2 1; F64.dec 1 1; F64.zero].

(** A transform whose values are the samples themselves.  It stands for
    [scipy.fft.fft] where an example needs a spectrum with peaks. *)
Definition transform_of_reals (samples : list Z) : list complex :=
  map (fun s => (F64.of_Z s, F64.zero)) samples.

(** ** Python lists and strings *)

(** [a[::step]]: the elements of index 0, [step], [2 * step], ... *)
Fixpoint every_nth_from {A : Type} (step wait : nat) (a : list A) : list A :=
  match a with
  | [] => []
  | x :: a' =>
      match wait with
      | O => x :: every_nth_from step (step - 1) a'
      | S wait' => every_nth_from step wait' a'
      end
  end.

Definition stride {A : Type} (a : list A) (step : nat) : list A :=
  every_nth_from step 0 a.

(** [str(e)] for an exception: its message. *)
Definition str_of_exception (e : py_exception) : string :=
  match e with
  | ValueError msg | OverflowError msg | ZeroDivisionError msg
  | IndexError msg => msg
  | EmptyInput | InvalidParameter => EmptyString
  end.

(** What a call of a library function with effects comes to: the value
    returned, or the message of the exception raised. *)
Inductive attempt (A : Type) : Type :=
| Returned (a : A)
| Raised (message : string).

Arguments Returned {A} a.
Arguments Raised {A} message.

(** ** Graph data ([SynthesizerBackend.generate_frequency_graph_data]) *)

Module Graph.

Record data : Type := {
  frequencies : list float;
  magnitudes : list float;
  peak_frequencies : list float;
  peak_magnitudes : list float
}.

End Graph.

(** The dictionary [process_track_input] returns: with ['success': True] and
    the results, or with ['success': False] and the error. *)
Module Output.

Record data : Type := {
  wav_file : string;
  wav_path : string;
  duration : float;
  sample_count : nat;
  graph_data : Graph.data;
  fft_data : fft_data
}.

End Output.

Inductive process_result : Type :=
| Success (output : Output.data)
| Failure (error : string).

(** ** Requests and responses of the API ([app.py]) *)

(** What [request.get_json()] comes to: an exception, or the body: [None]
    for no object, else the object's ['tracks'], if it has that key.  The
    tracks are those of a well-formed request. *)
Inductive request_json : Type :=
| GetJsonRaises (message : string)
| Json (data : option (option (list Track))).

Inductive response_body : Type :=
| ErrorBody (error : string)
| ResultBody (result : process_result).

Section Backend.

Variable np_sin : float -> float.
Variable fft : list Z -> list complex.
Variable np_abs : complex -> float.
Variable sample_rate : Z.

(** The output directory and the file system around it; [os.listdir] on the
    output directory; [wavfile.write], with the state it leaves; and the path
    of a file of the output directory, as a string. *)
Variable directory : Type.
Variable os_listdir : directory -> attempt (list string).
Variable wavfile_write :
  string -> Z -> list Z -> directory -> attempt unit * directory.
Variable output_path_of : string -> string.

Definition generate_frequency_graph_data (samples : list Z)
  : result Graph.data :=
  fft_data <- compute_fft fft np_abs sample_rate samples ;;
  let freq_vis := stride (frequencies fft_data) 100 in
  let mag_vis := stride (magnitude fft_data) 100 in
  Ok {| Graph.frequencies := freq_vis;
        Graph.magnitudes := mag_vis;
        Graph.peak_frequencies := peak_frequencies fft_data;
        Graph.peak_magnitudes := peak_magnitudes fft_data |}.

Definition save_wav (samples : list Z) (filename : string) (dir : directory)
  : attempt string * directory :=
  let output_path := output_path_of filename in
  match wavfile_write output_path sample_rate samples dir with
  | (Returned _, dir') => (Returned output_path, dir')
  | (Raised message, dir') => (Raised message, dir')
  end.

(** [process_track_input]: [track_data] is the value of the key ['tracks'] of
    the dictionary, if it is there.  Nothing is raised: every exception of
    the body is caught and its message returned. *)
Definition process_track_input (track_data : option (list Track))
    (dir : directory) : process_result * directory :=
  let tracks := match track_data with
                | Some tracks => tracks
                | None => []
                end in
  match generate_multi_track np_sin sample_rate tracks with
  | Raise e => (Failure (str_of_exception e), dir)
  | Ok samples =>
  match os_listdir dir with
  | Raised message => (Failure message, dir)
  | Returned names =>
  let filename :=
    ("output_" ++ str_of_int (Z.of_nat (length names)) ++ ".wav")%string in
  match save_wav samples filename dir with
  | (Raised message, dir') => (Failure message, dir')
  | (Returned wav_path, dir') =>
  match generate_frequency_graph_data samples with
  | Raise e => (Failure (str_of_exception e), dir')
  | Ok graph_data =>
  match compute_fft fft np_abs sample_rate samples with
  | Raise e => (Failure (str_of_exception e), dir')
  | Ok fft_data =>
  match int_div_int (Z.of_nat (length samples)) sample_rate with
  | Raise e => (Failure (str_of_exception e), dir')
  | Ok duration =>
      (Success {| Output.wav_file := filename;
                  Output.wav_path := wav_path;
                  Output.duration := duration;
                  Output.sample_count := length samples;
                  Output.graph_data := graph_data;
                  Output.fft_data := fft_data |}, dir')
  end end end end end end.

(** The route [/api/synthesize]: the body and the status of the response,
    and the state of the directory afterwards. *)
Definition synthesize (request : request_json) (dir : directory)
  : (response_body * Z) * directory :=
  match request with
  | GetJsonRaises message => ((ErrorBody message, 500), dir)
  | Json None | Json (Some None) =>
      ((ErrorBody "Missing tracks in request", 400), dir)
  | Json (Some (Some tracks)) =>
      let '(result, dir') := process_track_input (Some tracks) dir in
      match result with
      | Success _ => ((ResultBody result, 200), dir')
      | Failure _ => ((ResultBody result, 400), dir')
      end
  end.

End Backend.

(** ** Note names ([get_note_name] of [app.py]) *)

Definition notes : list string :=
  ["C"; "C#"; "D"; "D#"; "E"; "F"; "F#"; "G"; "G#"; "A"; "A#"; "B"]%string.

Definition get_note_name (midi_note : Z) : string :=
  let octave := midi_note / 12 - 1 in
  let note_name := nth (Z.to_nat (midi_note mod 12)) notes EmptyString in
  (note_name ++ str_of_int octave)%string.

(** ** A directory for the examples *)

(** A directory as the list of its files, newest first, and a
    [wavfile.write] that adds the file. *)
Definition listed_directory : Type := list (string * list Z).

Definition list_names (dir : listed_directory) : attempt (list string) :=
  Returned (map fst dir).

Definition add_file (path : string) (rate : Z) (samples : list Z)
    (dir : listed_directory) : attempt unit * listed_directory :=
  (Returned tt, (path, samples) :: dir).

Definition in_output (filename : string) : string :=
  ("output/" ++ filename)%string.

(** 0.1 Hz for half a second from 0 on, at half the velocity. *)
Definition soft_note : Track :=
  {| frequency := F64.dec 1 1; duration := F64.dec 5 1;
     velocity := 64; start_time := F64.zero |}.

(** 0.4 Hz for half a second from 0 on, at full velocity. *)
Definition loud_note : Track :=
  {| frequency := F64.dec 4 1; duration := F64.dec 5 1;
     velocity := 127; start_time := F64.zero |}.

(** ** The segments of [_extract_tracks] *)

Section Segments.

Variable hann : nat -> list float.
Variable correlate_full : list float -> list float -> list float.

(** The segment that [_extract_tracks] cuts for the onset of index [i]
    (lines 57 to 70): it ends at the next onset, or at the end of the
    recording for the last onset, and its frequency is that of the samples
    from [int(onset * sr)] up to [int(end * sr)]. *)
Definition segment_of (y : list float) (sr : Z) (onsets : list float)
    (i : nat) (end_time frequency : float) : Prop :=
  (if (S i <? length onsets)%nat
   then end_time = nth (S i) onsets S754_nan
   else int_div_int (Z.of_nat (length y)) sr = Ok end_time)
  /\ exists start_sample end_sample,
       py_int (F64.mul (nth i onsets S754_nan) (F64.of_Z sr))
       = Ok start_sample
       /\ py_int (F64.mul end_time (F64.of_Z sr)) = Ok end_sample
       /\ get_dominant_frequency hann correlate_full
            (slice y start_sample end_sample) sr
          = Ok frequency.

End Segments.

(** ** The round trip of a frequency *)


Section RoundTrip.

Variable np_sin : float -> float.
Variable fft : list Z -> list complex.
Variable np_abs : complex -> float.
Variable sample_rate : Z.



End RoundTrip.



(** ** Rounding, for the proofs about the normalisation *)

(** [y] is [x] shifted right by [n] bits: the mantissa is divided by [2^n],
    and nothing is recorded as lost when nothing was lost. *)
Definition shifted (n : Z) (x y : shr_record) : Prop :=
  0 <= shr_m x ->
  0 <= shr_m y
  /\ shr_m y = shr_m x / 2 ^ n
  /\ (shr_r x = false -> shr_s x = false -> (2 ^ n | shr_m x) ->
      shr_r y = false /\ shr_s y = false).

(** The size of a result of rounding is at most that of the number with
    mantissa [mb] and exponent [eb]. *)
Definition at_most (mb eb : Z) (x : float) : Prop :=
  match x with
  | S754_zero _ => True
  | S754_finite _ m e => e <= eb /\ Zpos m <= mb * 2 ^ (eb - e)
  | _ => False
  end.

(** An integer that a [float32] holds exactly: it has at most 24
    significant bits. *)
Definition binary32_integer (z : Z) : Prop :=
  (2 ^ Z.max 0 (Z.log2 (Z.abs z) + 1 - 24) | z).

(** * Properties *)

(** ** Results *)

Lemma bind_ok {A B : Type} (r : result A) (k : A -> result B) (b : B) :
  bind r k = Ok b -> exists a, r = Ok a /\ k a = Ok b.
Proof.
  destruct r as [a | e]; simpl; intros H; [ | discriminate ].
  exists a; split; [ reflexivity | exact H ].
Qed.

Ltac inv_bind H :=
  let a := fresh "v" in
  let Ha := fresh "Hv" in
  apply bind_ok in H; destruct H as (a & Ha & H).

Lemma two_pi_ok : exists w, int_mul_float 2 np_pi = Ok w.
Proof. eexists; vm_compute; reflexivity. Qed.

Lemma py_int_not_invalid (x : float) (e : py_exception) :
  py_int x = Raise e -> e <> InvalidParameter.
Proof. destruct x; simpl; intros H; inversion H; discriminate. Qed.

Lemma py_float_not_invalid (i : Z) (e : py_exception) :
  py_float i = Raise e -> e <> InvalidParameter.
Proof.
  unfold py_float; destruct (F64.of_Z i); intros H; inversion H; discriminate.
Qed.

Lemma int_mul_float_not_invalid (i : Z) (x : float) (e : py_exception) :
  int_mul_float i x = Raise e -> e <> InvalidParameter.
Proof.
  unfold int_mul_float. pose proof (py_float_not_invalid i) as H.
  destruct (py_float i) as [f | e']; cbn [bind]; intros E; inversion E; subst.
  apply H; reflexivity.
Qed.

(** ** The tone generator *)

Lemma generate_sine_wave_length np_sin sr f d a x n :
  int_mul_float sr d = Ok x -> py_int x = Ok n -> 0 <= n < 2 ^ 60 ->
  exists buf, generate_sine_wave np_sin sr f d a = Ok buf
              /\ Z.of_nat (length buf) = n.
Proof.
  intros Hx Hn Hpos. unfold generate_sine_wave.
  rewrite Hx; cbn [bind]. rewrite Hn; cbn [bind].
  unfold linspace0. destruct (Z.ltb_spec n 0) as [Hlt | _]; [ lia | ].
  destruct (Z.ltb_spec (2 ^ 63) n) as [Hlt | _]; [ lia | ].
  destruct (Z.eqb_spec n (2 ^ 63)) as [Heq | _]; [ lia | ].
  destruct (Z.leb_spec (2 ^ 60) n) as [Hle | _]; [ lia | ].
  cbn [bind]. destruct two_pi_ok as [w Hw]. rewrite Hw; cbn [bind].
  eexists; split; [ reflexivity | ].
  rewrite !length_map, length_seq. lia.
Qed.

Lemma generate_sine_wave_negative np_sin sr f d a x n :
  int_mul_float sr d = Ok x -> py_int x = Ok n -> n < 0 ->
  generate_sine_wave np_sin sr f d a
  = Raise (ValueError ("Number of samples, " ++ str_of_int n
                       ++ ", must be non-negative.")).
Proof.
  intros Hx Hn Hneg. unfold generate_sine_wave.
  rewrite Hx; cbn [bind]. rewrite Hn; cbn [bind].
  unfold linspace0. destruct (Z.ltb_spec n 0) as [_ | Hge]; [ | lia ].
  reflexivity.
Qed.

Lemma generate_sine_wave_too_long np_sin sr f d a x n :
  int_mul_float sr d = Ok x -> py_int x = Ok n -> 2 ^ 60 <= n ->
  if n =? 2 ^ 63 then generate_sine_wave np_sin sr f d a = Ok []
  else exists msg, generate_sine_wave np_sin sr f d a = Raise (ValueError msg).
Proof.
  intros Hx Hn Hbig. unfold generate_sine_wave.
  rewrite Hx; cbn [bind]. rewrite Hn; cbn [bind].
  unfold linspace0. destruct (Z.ltb_spec n 0) as [Hlt | _]; [ lia | ].
  destruct (Z.ltb_spec (2 ^ 63) n) as [Hlt | Hle].
  - destruct (Z.eqb_spec n (2 ^ 63)) as [Heq | _]; [ lia | ].
    eexists. reflexivity.
  - destruct (Z.eqb_spec n (2 ^ 63)) as [Heq | Hne].
    + cbn [bind]. destruct two_pi_ok as [w Hw]. rewrite Hw. reflexivity.
    + destruct (Z.leb_spec (2 ^ 60) n) as [_ | Hlt]; [ | lia ].
      eexists. reflexivity.
Qed.

(** C8, as the code has it: [generate_sine_wave] checks none of its
    parameters and never raises [InvalidParameter].  Whatever the frequency
    and the amplitude, with [n = int(sample_rate * duration)]: it raises the
    [ValueError] of [np.linspace], "Number of samples, n, must be
    non-negative.", when [n] is negative; it returns [n] samples when [n] is
    from 0 to below 2^60 (NumPy's arrays being taken to be allocated); from
    2^60 on it returns no buffer of [n] samples: the empty buffer for
    [n = 2^63], a [ValueError] of NumPy otherwise; and when the product is
    infinite or not a number it raises what the conversion [int(...)]
    raises. *)
Theorem generate_sine_wave_no_validation
    (np_sin : float -> float) (sr : Z) (f d a : float) :
  generate_sine_wave np_sin sr f d a <> Raise InvalidParameter
  /\ match (x <- int_mul_float sr d ;; py_int x) with
     | Ok n =>
         if n <? 0 then
           generate_sine_wave np_sin sr f d a
           = Raise (ValueError ("Number of samples, " ++ str_of_int n
                                ++ ", must be non-negative."))
         else if n <? 2 ^ 60 then
           exists buf, generate_sine_wave np_sin sr f d a = Ok buf
                       /\ Z.of_nat (length buf) = n
         else if n =? 2 ^ 63 then
           generate_sine_wave np_sin sr f d a = Ok []
         else
           exists msg,
             generate_sine_wave np_sin sr f d a = Raise (ValueError msg)
     | Raise e => generate_sine_wave np_sin sr f d a = Raise e
     end.
Proof.
  assert (Hsecond :
    match (x <- int_mul_float sr d ;; py_int x) with
     | Ok n =>
         if n <? 0 then
           generate_sine_wave np_sin sr f d a
           = Raise (ValueError ("Number of samples, " ++ str_of_int n
                                ++ ", must be non-negative."))
         else if n <? 2 ^ 60 then
           exists buf, generate_sine_wave np_sin sr f d a = Ok buf
                       /\ Z.of_nat (length buf) = n
         else if n =? 2 ^ 63 then
           generate_sine_wave np_sin sr f d a = Ok []
         else
           exists msg,
             generate_sine_wave np_sin sr f d a = Raise (ValueError msg)
     | Raise e => generate_sine_wave np_sin sr f d a = Raise e
     end).
  { destruct (int_mul_float sr d) as [x | e] eqn:Hx; cbn [bind].
    - destruct (py_int x) as [n | e] eqn:Hn.
      + destruct (Z.ltb_spec n 0) as [Hneg | Hpos].
        * eapply generate_sine_wave_negative; eassumption.
        * destruct (Z.ltb_spec n (2 ^ 60)) as [Hsmall | Hbig].
          -- eapply generate_sine_wave_length;
               [ eassumption | eassumption | lia ].
          -- eapply generate_sine_wave_too_long; eassumption.
      + unfold generate_sine_wave. rewrite Hx; cbn [bind]. rewrite Hn.
        reflexivity.
    - unfold generate_sine_wave. rewrite Hx. reflexivity. }
  split; [ | exact Hsecond ].
  destruct (int_mul_float sr d) as [x | e] eqn:Hx; cbn [bind] in Hsecond.
  - destruct (py_int x) as [n | e] eqn:Hn.
    + destruct (n <? 0); [ rewrite Hsecond; discriminate | ].
      destruct (n <? 2 ^ 60);
        [ destruct Hsecond as (buf & -> & _); discriminate | ].
      destruct (n =? 2 ^ 63); [ rewrite Hsecond; discriminate | ].
      destruct Hsecond as (msg & ->). discriminate.
    + rewrite Hsecond. intros E; inversion E; subst.
      exact (py_int_not_invalid _ _ Hn eq_refl).
  - rewrite Hsecond. intros E; inversion E; subst.
    exact (int_mul_float_not_invalid _ _ _ Hx eq_refl).
Qed.

(** C8, refuted as stated: a call with a negative frequency returns a
    buffer (of 44 samples for one millisecond at 44100 Hz), and so does a
    call with duration 0 (the empty buffer). *)
Lemma generate_sine_wave_accepts_bad_parameters :
  (forall np_sin : float -> float,
      exists buf,
        generate_sine_wave np_sin 44100 (F64.of_Z (-440)) (F64.dec 1 3)
                           (F64.of_Z 32767) = Ok buf
        /\ Z.of_nat (length buf) = 44)
  /\ (forall np_sin : float -> float,
        generate_sine_wave np_sin 44100 (F64.of_Z 440) F64.zero
                           (F64.of_Z 32767) = Ok []).
Proof.
  split; intros np_sin.
  - destruct (generate_sine_wave_length np_sin 44100 (F64.of_Z (-440))
                (F64.dec 1 3) (F64.of_Z 32767)
                (F64.mul (F64.of_Z 44100) (F64.dec 1 3)) 44)
      as (buf & Hbuf & Hlen); [ reflexivity | reflexivity | lia | ].
    exists buf; split; [ exact Hbuf | lia ].
  - reflexivity.
Qed.

(** ** Rounding to binary32 *)

(** An integer below [2^24] in absolute value is a binary32 number: the
    sum of fewer than 512 samples is exact. *)
Lemma f32_round_small (z : Z) : Z.abs z < 2 ^ 24 -> f32_round z = z.
Proof.
  intros H. unfold f32_round.
  destruct (Z.leb_spec (Z.log2 (Z.abs z) + 1 - 24) 0) as [ _ | Hd ];
    [ reflexivity | exfalso ].
  destruct (Z.eq_dec (Z.abs z) 0) as [ E | E ].
  - rewrite E in Hd. cbn in Hd. lia.
  - assert (Z.log2 (Z.abs z) < 24) by (apply Z.log2_lt_pow2; lia). lia.
Qed.

(** [f32_round] against the addition of [SpecFloat] at precision 24, on
    sums below and above [2^24], ties included. *)
Lemma f32_round_agrees_with_binary32 :
  forallb (fun p => trunc (F32.add (F32.of_Z (fst p)) (F32.of_Z (snd p)))
                    =? f32_round (fst p + snd p))
          [ (0, 0); (1, -1); (32767, 32767); (-32768, -32768);
            (16777215, 1); (16777216, 1); (16777216, 3); (16777218, 1);
            (16777218, 3); (-16777216, -1); (-16777218, -1);
            (33554432, 2); (33554432, 6); (33554432, 32767);
            (-33554436, -32767); (1073741824, 32); (1073741824, 96);
            (1073741824, 33); (1073741824, -1) ]
  = true.
Proof. vm_compute. reflexivity. Qed.

(** ** Casts to [int16] *)

Lemma wrap16_range (z : Z) : INT16_MIN <= wrap16 z <= INT16_MAX.
Proof.
  unfold wrap16, INT16_MIN, INT16_MAX.
  pose proof (Z.mod_pos_bound (z + 32768) 65536 ltac:(lia)). lia.
Qed.

Lemma astype_int16_range (x : float) :
  INT16_MIN <= astype_int16 x <= INT16_MAX.
Proof.
  unfold astype_int16.
  destruct ((- 2 ^ 31 <=? trunc x) && (trunc x <? 2 ^ 31)).
  - apply wrap16_range.
  - unfold INT16_MIN, INT16_MAX; lia.
Qed.

(** ** In-place addition into a slice *)

Lemma length_add_from (xs : list Z) : forall lo ys,
  length (add_from xs lo ys) = length xs.
Proof.
  induction xs as [ | x xs IH ]; intros lo ys; simpl; [ reflexivity | ].
  destruct lo as [ | lo ]; [ destruct ys as [ | y ys ] | ]; simpl;
    try rewrite IH; reflexivity.
Qed.

Lemma nth_add_from (xs : list Z) : forall lo ys i,
  (i < length xs)%nat ->
  nth i (add_from xs lo ys) 0
  = if (Nat.leb lo i && Nat.ltb i (lo + length ys))%bool
    then f32_round (nth i xs 0 + nth (i - lo) ys 0)
    else nth i xs 0.
Proof.
  induction xs as [ | x xs IH ]; intros lo ys i Hi; simpl in Hi; [ lia | ].
  destruct lo as [ | lo ].
  - destruct ys as [ | y ys ].
    + cbn [add_from length Nat.add Nat.leb andb].
      destruct (Nat.ltb_spec i 0); [ lia | ]. reflexivity.
    + destruct i as [ | i ]; [ reflexivity | ].
      cbn [add_from nth]. rewrite IH by lia.
      cbn [Nat.leb length Nat.sub Nat.add andb].
      replace (i - 0)%nat with i by lia.
      destruct (Nat.ltb_spec i (length ys)), (Nat.ltb_spec (S i) (S (length ys)));
        try lia; reflexivity.
  - destruct i as [ | i ]; [ reflexivity | ].
    cbn [add_from nth]. rewrite IH by lia.
    cbn [Nat.leb Nat.sub Nat.add].
    destruct (Nat.leb lo i); cbn [andb]; [ | reflexivity ].
    destruct (Nat.ltb_spec i (lo + length ys)),
             (Nat.ltb_spec (S i) (S (lo + length ys))); try lia; reflexivity.
Qed.

Lemma length_slice_iadd mixed start stop samples mixed' :
  slice_iadd mixed start stop samples = Ok mixed' ->
  length mixed' = length mixed.
Proof.
  unfold slice_iadd.
  destruct (slice_bounds (Z.of_nat (length mixed)) start stop) as [lo hi].
  destruct (Nat.eqb (length samples) (Z.to_nat (hi - lo))).
  - intros H; inversion H; apply length_add_from.
  - destruct (Nat.eqb (length samples) 1); intros H; inversion H.
    apply length_add_from.
Qed.

(** A slice that starts at a non-negative index: the samples land on the
    indices from [start] on, and nowhere else. *)
Lemma nth_slice_iadd mixed start samples mixed' i :
  slice_iadd mixed start (start + Z.of_nat (length samples)) samples
  = Ok mixed' ->
  0 <= start ->
  (i < length mixed)%nat ->
  nth i mixed' 0
  = if (start <=? Z.of_nat i)
       && (Z.of_nat i <? start + Z.of_nat (length samples))
    then f32_round (nth i mixed 0
                    + nth (Z.to_nat (Z.of_nat i - start)) samples 0)
    else nth i mixed 0.
Proof.
  unfold slice_iadd, slice_bounds, slice_index.
  intros H Hstart Hi.
  destruct (Z.ltb_spec start 0) as [ ? | _ ]; [ lia | ].
  destruct (Z.ltb_spec (start + Z.of_nat (length samples)) 0) as [ ? | _ ];
    [ lia | ].
  set (len := Z.of_nat (length mixed)) in *.
  set (n := length samples) in *.
  destruct (Nat.eqb_spec n
              (Z.to_nat (Z.max (Z.min start len) (Z.min (start + Z.of_nat n) len)
                         - Z.min start len))) as [Hw | Hw].
  - inversion H; subst mixed'; clear H.
    rewrite nth_add_from by exact Hi. fold n.
    destruct (Z.leb_spec start (Z.of_nat i)), (Z.ltb_spec (Z.of_nat i) (start + Z.of_nat n)),
             (Nat.leb_spec (Z.to_nat (Z.min start len)) i),
             (Nat.ltb_spec i (Z.to_nat (Z.min start len) + n));
      cbn [andb]; try reflexivity; try lia.
    replace (i - Z.to_nat (Z.min start len))%nat
      with (Z.to_nat (Z.of_nat i - start)) by lia.
    reflexivity.
  - destruct (Nat.eqb_spec n 1) as [H1 | H1]; [ | discriminate ].
    inversion H; subst mixed'; clear H.
    rewrite nth_add_from by exact Hi. rewrite repeat_length.
    destruct (Z.leb_spec start (Z.of_nat i)), (Z.ltb_spec (Z.of_nat i) (start + Z.of_nat n)),
             (Nat.leb_spec (Z.to_nat (Z.min start len)) i),
             (Nat.ltb_spec i (Z.to_nat (Z.min start len)
                + Z.to_nat (Z.max (Z.min start len) (Z.min (start + Z.of_nat n) len)
                            - Z.min start len)));
      cbn [andb]; try reflexivity; lia.
Qed.

(** ** The mixing loop *)

Section MixingLoop.

Variable np_sin : float -> float.
Variable sr : Z.

Lemma mix_track_ok mixed track mixed' :
  mix_track np_sin sr mixed track = Ok mixed' ->
  exists start samples,
    start_sample_of sr track = Ok start
    /\ track_samples np_sin sr track = Ok samples
    /\ slice_iadd mixed start (start + Z.of_nat (length samples)) samples
       = Ok mixed'.
Proof.
  unfold mix_track, start_sample_of, track_samples. intros H.
  inv_bind H. inv_bind H. inv_bind H. inv_bind H. inv_bind H.
  rewrite Hv; cbn [bind]. rewrite Hv0.
  rewrite Hv1; cbn [bind]. rewrite Hv2; cbn [bind]. rewrite Hv3.
  eauto.
Qed.

Lemma mix_loop_length tracks : forall mixed mixed',
  mix_loop np_sin sr mixed tracks = Ok mixed' ->
  length mixed' = length mixed.
Proof.
  induction tracks as [ | t tracks IH ]; intros mixed mixed' H; simpl in H.
  - inversion H; reflexivity.
  - inv_bind H. apply IH in H. rewrite H.
    apply mix_track_ok in Hv. destruct Hv as (s & smp & _ & _ & Hv).
    apply length_slice_iadd in Hv. exact Hv.
Qed.

Lemma mix_loop_tracks_ok tracks : forall mixed mixed',
  mix_loop np_sin sr mixed tracks = Ok mixed' ->
  Forall (fun t => exists start samples,
              start_sample_of sr t = Ok start
              /\ track_samples np_sin sr t = Ok samples) tracks.
Proof.
  induction tracks as [ | t tracks IH ]; intros mixed mixed' H; simpl in H.
  - constructor.
  - inv_bind H. constructor; [ | eapply IH; exact H ].
    apply mix_track_ok in Hv. destruct Hv as (s & smp & Hs & Hsmp & _).
    eauto.
Qed.

Lemma mix_loop_nth tracks : forall mixed mixed' i,
  mix_loop np_sin sr mixed tracks = Ok mixed' ->
  forallb (starts_at_or_after_zero sr) tracks = true ->
  (i < length mixed)%nat ->
  nth i mixed' 0
  = fold_left (fun acc t => accumulate acc (contribution np_sin sr t i))
              tracks (nth i mixed 0).
Proof.
  induction tracks as [ | t tracks IH ]; intros mixed mixed' i H Hpos Hi;
    simpl in H.
  - inversion H; reflexivity.
  - inv_bind H. cbn [forallb] in Hpos.
    apply andb_true_iff in Hpos. destruct Hpos as [Ht Hpos].
    pose proof Hv as Hstep.
    apply mix_track_ok in Hstep.
    destruct Hstep as (s & smp & Hs & Hsmp & Hadd).
    assert (Hlen : length v = length mixed)
      by (eapply length_slice_iadd; exact Hadd).
    rewrite (IH v mixed' i H Hpos) by lia.
    cbn [fold_left]. f_equal.
    unfold starts_at_or_after_zero in Ht. rewrite Hs in Ht.
    apply Z.leb_le in Ht.
    rewrite (nth_slice_iadd _ _ _ _ i Hadd Ht Hi).
    unfold contribution. rewrite Hs, Hsmp.
    destruct ((s <=? Z.of_nat i)
              && (Z.of_nat i <? s + Z.of_nat (length smp))); reflexivity.
Qed.

End MixingLoop.

(** ** Normalisation *)

Lemma fold_left_max_ge (l : list Z) : forall a,
  a <= fold_left Z.max l a /\ Forall (fun y => y <= fold_left Z.max l a) l.
Proof.
  induction l as [ | y l IH ]; intros a; simpl.
  - split; [ lia | constructor ].
  - destruct (IH (Z.max a y)) as [H1 H2]. split; [ lia | ].
    constructor; [ lia | exact H2 ].
Qed.

Lemma np_max_Z_bound (l : list Z) (m : Z) :
  np_max_Z l = Ok m -> Forall (fun y => y <= m) l.
Proof.
  destruct l as [ | x l ]; simpl; intros H; inversion H; subst.
  destruct (fold_left_max_ge l x) as [H1 H2].
  constructor; assumption.
Qed.

Lemma normalize_cases (mixed out : list Z) :
  normalize mixed = Ok out ->
  exists peak,
    np_max_Z (map Z.abs mixed) = Ok peak
    /\ out = if 32767 <? peak then map (scaled_sample peak) mixed
             else map (fun x => astype_int16 (F32.of_Z x)) mixed.
Proof.
  unfold normalize. intros H. inv_bind H. exists v. split; [ exact Hv | ].
  destruct (32767 <? v); inversion H; apply map_map.
Qed.

Lemma in_Z_range (n : nat) : forall lo x,
  lo <= x < lo + Z.of_nat n -> In x (Z_range lo n).
Proof.
  induction n as [ | n IH ]; intros lo x H; [ lia | ].
  cbn [Z_range]. destruct (Z.eq_dec lo x) as [ E | E ]; [ left; exact E | ].
  right. apply IH. lia.
Qed.

Lemma astype_int16_all_small :
  forallb (fun x => astype_int16 (F32.of_Z x) =? x)
          (Z_range (-32768) (Z.to_nat 65536))
  = true.
Proof. vm_compute. reflexivity. Qed.

(** The cast of an integer of the [int16] range, held in binary32, is that
    integer. *)
Lemma astype_int16_exact (x : Z) :
  -32768 <= x <= 32767 -> astype_int16 (F32.of_Z x) = x.
Proof.
  intros H. pose proof astype_int16_all_small as Hall.
  rewrite forallb_forall in Hall.
  apply Z.eqb_eq. apply Hall. apply in_Z_range. lia.
Qed.

Lemma map_astype_small (mixed : list Z) (peak : Z) :
  Forall (fun y => y <= peak) (map Z.abs mixed) -> peak <= 32767 ->
  map (fun x => astype_int16 (F32.of_Z x)) mixed = mixed.
Proof.
  intros Hb Hp. induction mixed as [ | x mixed IH ]; [ reflexivity | ].
  simpl in *. inversion Hb; subst.
  rewrite astype_int16_exact by lia. rewrite IH by assumption. reflexivity.
Qed.

Lemma generate_multi_track_split np_sin sr tracks :
  generate_multi_track np_sin sr tracks
  = (mixed <- mix_before_normalisation np_sin sr tracks ;; normalize mixed).
Proof.
  unfold generate_multi_track, mix_before_normalisation, total_samples_of.
  destruct (py_max _) as [ total | e ]; cbn [bind]; [ | reflexivity ].
  destruct (int_mul_float sr total) as [ x | e ]; cbn [bind]; [ | reflexivity ].
  destruct (py_int x) as [ n | e ]; cbn [bind]; [ | reflexivity ].
  destruct (np_zeros n) as [ z | e ]; cbn [bind]; reflexivity.
Qed.


(** ** Tracks that do not start before time 0 *)

Lemma binary_round_aux_sign (s : bool) (m e : Z) (l : location) :
  has_sign s (binary_round_aux F64.prec F64.emax s m e l).
Proof.
  unfold binary_round_aux.
  destruct (shr_fexp F64.prec F64.emax m e l) as [ mrs e' ].
  destruct (shr_fexp F64.prec F64.emax _ e' loc_Exact) as [ mrs' e'' ].
  destruct (shr_m mrs'); [ | destruct (_ <=? _) | ]; cbn [has_sign]; auto.
Qed.

Lemma of_Z_sign (z : Z) : 0 <= z -> has_sign false (F64.of_Z z).
Proof.
  intros Hz. unfold F64.of_Z, binary_normalize.
  destruct z as [ | p | p ]; [ reflexivity | | lia ].
  unfold binary_round.
  destruct (shl_align p 0 _) as [ mz ez ]. apply binary_round_aux_sign.
Qed.

Lemma mul_sign (x y : float) :
  has_sign false x -> has_sign false y -> has_sign false (F64.mul x y).
Proof.
  unfold F64.mul, SFmul.
  destruct x as [ sx | sx | | sx mx ex ]; destruct y as [ sy | sy | | sy my ey ];
    cbn [has_sign]; intros Hx Hy; subst; try reflexivity; try exact I.
  apply binary_round_aux_sign.
Qed.

Lemma trunc_nonneg (x : float) : has_sign false x -> 0 <= trunc x.
Proof.
  destruct x as [ s | s | | s m e ]; cbn [has_sign trunc]; intros H;
    try lia.
  subst s. destruct e as [ | p | p ]; try lia.
  apply Z.div_pos; lia.
Qed.

Lemma py_int_nonneg (x : float) (n : Z) :
  has_sign false x -> py_int x = Ok n -> 0 <= n.
Proof.
  intros Hx H. pose proof (trunc_nonneg x Hx) as Ht.
  destruct x; cbn [py_int] in H; inversion H; subst n; exact Ht.
Qed.

Lemma SFleb_zero_sign (x : float) :
  SFleb F64.zero x = true -> has_sign false x \/ x = S754_zero true.
Proof.
  destruct x as [ [ | ] | [ | ] | | [ | ] m e ]; cbn; intros H;
    try discriminate; auto.
Qed.

(** At a non-negative sample rate, a track whose start time is at least 0
    starts at a sample of non-negative index. *)
Lemma start_sample_nonneg (sr : Z) (track : Track) (start : Z) :
  0 <= sr ->
  SFleb F64.zero (start_time track) = true ->
  start_sample_of sr track = Ok start ->
  0 <= start.
Proof.
  intros Hsr Hpos. unfold start_sample_of, float_mul_int, py_float.
  pose proof (of_Z_sign sr Hsr) as Hs.
  destruct (F64.of_Z sr) as [ s | s | | s m e ] eqn:Hf; cbn [bind];
    try discriminate; intros H.
  - (* the rate is 0 *)
    assert (E : py_int (F64.mul (start_time track) (S754_zero s)) = Ok start)
      by exact H.
    destruct (start_time track) as [ s' | s' | | s' m' e' ]; cbn in E;
      inversion E; lia.
  - exfalso. destruct (start_time track); discriminate H.
  - assert (E : py_int (F64.mul (start_time track) (S754_finite s m e))
               = Ok start) by exact H.
    destruct (SFleb_zero_sign _ Hpos) as [ Hsign | Hzero ].
    + pose proof (mul_sign _ _ Hsign Hs) as Hm.
      eapply py_int_nonneg; eassumption.
    + rewrite Hzero in E. cbn in E. inversion E. lia.
Qed.

Lemma starts_at_or_after_zero_of_times
    (np_sin : float -> float) (sr : Z) (tracks : list Track) :
  0 <= sr ->
  Forall (fun t => SFleb F64.zero (start_time t) = true) tracks ->
  Forall (fun t => exists start samples,
              start_sample_of sr t = Ok start
              /\ track_samples np_sin sr t = Ok samples) tracks ->
  forallb (starts_at_or_after_zero sr) tracks = true.
Proof.
  intros Hsr Hpos Hok. apply forallb_forall. intros t Ht.
  rewrite Forall_forall in Hpos, Hok.
  destruct (Hok t Ht) as (start & samples & Hs & _).
  unfold starts_at_or_after_zero. rewrite Hs. apply Z.leb_le.
  eapply start_sample_nonneg; [ exact Hsr | apply Hpos; exact Ht | exact Hs ].
Qed.

(** ** The errors of the mixer are Python's *)

Lemma python_outcome_bind {A B : Type} (r : result A) (k : A -> result B) :
  python_outcome r -> (forall a, python_outcome (k a)) ->
  python_outcome (bind r k).
Proof.
  destruct r as [ a | e ]; cbn [bind]; intros Hr Hk; [ apply Hk | exact Hr ].
Qed.

Lemma python_outcome_py_float (i : Z) : python_outcome (py_float i).
Proof. unfold py_float. destruct (F64.of_Z i); exact I. Qed.

Lemma python_outcome_py_int (x : float) : python_outcome (py_int x).
Proof. destruct x; exact I. Qed.

Lemma python_outcome_int_mul_float (i : Z) (x : float) :
  python_outcome (int_mul_float i x).
Proof.
  unfold int_mul_float. apply python_outcome_bind;
    [ apply python_outcome_py_float | intros; exact I ].
Qed.

Lemma python_outcome_float_mul_int (x : float) (i : Z) :
  python_outcome (float_mul_int x i).
Proof.
  unfold float_mul_int. apply python_outcome_bind;
    [ apply python_outcome_py_float | intros; exact I ].
Qed.

Lemma python_outcome_int_div_float (i : Z) (x : float) :
  python_outcome (int_div_float i x).
Proof.
  unfold int_div_float. destruct x; try exact I;
    (apply python_outcome_bind;
     [ apply python_outcome_py_float | intros; exact I ]).
Qed.

Lemma python_outcome_generate_sine_wave np_sin sr f d a :
  python_outcome (generate_sine_wave np_sin sr f d a).
Proof.
  unfold generate_sine_wave.
  apply python_outcome_bind; [ apply python_outcome_int_mul_float | intros x ].
  apply python_outcome_bind; [ apply python_outcome_py_int | intros n ].
  apply python_outcome_bind;
    [ unfold linspace0; destruct (n <? 0); [ exact I | ];
      destruct (2 ^ 63 <? n); [ exact I | ];
      destruct (n =? 2 ^ 63); [ exact I | ];
      destruct (2 ^ 60 <=? n); exact I
    | intros t ].
  apply python_outcome_bind; [ apply python_outcome_int_mul_float | intros w ].
  exact I.
Qed.

Lemma python_outcome_mix_track np_sin sr mixed track :
  python_outcome (mix_track np_sin sr mixed track).
Proof.
  unfold mix_track.
  apply python_outcome_bind; [ apply python_outcome_float_mul_int | intros x ].
  apply python_outcome_bind; [ apply python_outcome_py_int | intros s ].
  apply python_outcome_bind; [ apply python_outcome_int_div_float | intros v ].
  apply python_outcome_bind; [ apply python_outcome_int_mul_float | intros a ].
  apply python_outcome_bind;
    [ apply python_outcome_generate_sine_wave | intros samples ].
  unfold slice_iadd. destruct (slice_bounds _ _ _) as [ lo hi ].
  destruct (Nat.eqb _ _); [ exact I | ]. destruct (Nat.eqb _ _); exact I.
Qed.

Lemma python_outcome_mix_loop np_sin sr tracks : forall mixed,
  python_outcome (mix_loop np_sin sr mixed tracks).
Proof.
  induction tracks as [ | t tracks IH ]; intros mixed; cbn [mix_loop];
    [ exact I | ].
  apply python_outcome_bind; [ apply python_outcome_mix_track | exact IH ].
Qed.

Lemma python_outcome_generate_multi_track np_sin sr tracks :
  python_outcome (generate_multi_track np_sin sr tracks).
Proof.
  unfold generate_multi_track.
  apply python_outcome_bind;
    [ destruct tracks; exact I | intros total ].
  apply python_outcome_bind; [ apply python_outcome_int_mul_float | intros x ].
  apply python_outcome_bind; [ apply python_outcome_py_int | intros n ].
  apply python_outcome_bind;
    [ unfold np_zeros; destruct (n <? 0); exact I | intros z ].
  apply python_outcome_bind; [ apply python_outcome_mix_loop | intros mixed ].
  unfold normalize.
  apply python_outcome_bind; [ destruct mixed; exact I | intros peak ].
  exact I.
Qed.

(** ** When the mixer returns *)

Lemma slice_iadd_fits mixed start samples :
  0 <= start ->
  start + Z.of_nat (length samples) <= Z.of_nat (length mixed) ->
  slice_iadd mixed start (start + Z.of_nat (length samples)) samples
  = Ok (add_from mixed (Z.to_nat start) samples).
Proof.
  intros Hs Hfit. unfold slice_iadd, slice_bounds, slice_index.
  destruct (Z.ltb_spec start 0) as [ ? | _ ]; [ lia | ].
  destruct (Z.ltb_spec (start + Z.of_nat (length samples)) 0) as [ ? | _ ];
    [ lia | ].
  rewrite (Z.min_l start) by lia.
  rewrite (Z.min_l (start + _)) by lia.
  rewrite Z.max_r by lia.
  replace (Z.to_nat (start + Z.of_nat (length samples) - start))
    with (length samples) by lia.
  rewrite Nat.eqb_refl. reflexivity.
Qed.

Lemma normalize_returns (mixed : list Z) :
  mixed <> [] ->
  exists out, normalize mixed = Ok out /\ length out = length mixed.
Proof.
  intros Hne. unfold normalize.
  destruct (np_max_Z (map Z.abs mixed)) as [ peak | e ] eqn:Hpeak.
  - cbn [bind]. eexists. split; [ reflexivity | ].
    rewrite length_map. destruct (32767 <? peak); apply length_map.
  - destruct mixed as [ | x mixed ]; [ contradiction | discriminate ].
Qed.

Lemma normalize_length (mixed out : list Z) :
  normalize mixed = Ok out -> length out = length mixed.
Proof.
  intros H. apply normalize_cases in H. destruct H as (peak & _ & ->).
  destruct (32767 <? peak); apply length_map.
Qed.

Lemma np_zeros_ok (n : Z) (z : list Z) :
  np_zeros n = Ok z -> 0 <= n /\ z = repeat 0 (Z.to_nat n).
Proof.
  unfold np_zeros. destruct (Z.ltb_spec n 0) as [ Hn | Hn ];
    intros H; inversion H.
  split; [ lia | reflexivity ].
Qed.

Lemma mix_track_fits np_sin sr mixed track start samples :
  start_sample_of sr track = Ok start ->
  track_samples np_sin sr track = Ok samples ->
  0 <= start ->
  start + Z.of_nat (length samples) <= Z.of_nat (length mixed) ->
  mix_track np_sin sr mixed track
  = Ok (add_from mixed (Z.to_nat start) samples).
Proof.
  intros Hs Hsmp Hpos Hfit.
  unfold mix_track. unfold start_sample_of in Hs. unfold track_samples in Hsmp.
  destruct (float_mul_int (start_time track) sr) as [ x | e ];
    cbn [bind] in Hs |- *; [ | discriminate ].
  rewrite Hs; cbn [bind].
  destruct (int_div_float (velocity track) (F64.of_Z 127)) as [ v | e ];
    cbn [bind] in Hsmp |- *; [ | discriminate ].
  destruct (int_mul_float 32767 v) as [ a | e ];
    cbn [bind] in Hsmp |- *; [ | discriminate ].
  rewrite Hsmp; cbn [bind].
  apply slice_iadd_fits; assumption.
Qed.

Lemma mix_loop_fits np_sin sr tracks : forall mixed,
  Forall (fun t => exists start samples,
              start_sample_of sr t = Ok start
              /\ track_samples np_sin sr t = Ok samples
              /\ 0 <= start
              /\ start + Z.of_nat (length samples) <= Z.of_nat (length mixed))
         tracks ->
  exists mixed', mix_loop np_sin sr mixed tracks = Ok mixed'
                 /\ length mixed' = length mixed.
Proof.
  induction tracks as [ | t tracks IH ]; intros mixed Hfit; cbn [mix_loop].
  - exists mixed. split; reflexivity.
  - inversion Hfit as [ | t' ts (start & samples & Hs & Hsmp & Hpos & Hend) Hrest ];
      subst.
    rewrite (mix_track_fits _ _ _ _ _ _ Hs Hsmp Hpos Hend). cbn [bind].
    destruct (IH (add_from mixed (Z.to_nat start) samples)) as (m & Hm & Hlen).
    { eapply Forall_impl; [ | exact Hrest ].
      intros u (s' & smp' & H1 & H2 & H3 & H4).
      exists s', smp'. rewrite length_add_from. auto. }
    exists m. split; [ exact Hm | ].
    rewrite Hlen. apply length_add_from.
Qed.

(** The mixer returns when the buffer is not empty and the write region of
    every track lies in it. *)
Lemma mix_returns_when_regions_fit np_sin sr tracks total :
  total_samples_of sr tracks = Ok total ->
  0 < total ->
  Forall (fun t => exists start samples,
              start_sample_of sr t = Ok start
              /\ track_samples np_sin sr t = Ok samples
              /\ 0 <= start
              /\ start + Z.of_nat (length samples) <= total) tracks ->
  exists out, generate_multi_track np_sin sr tracks = Ok out
              /\ Z.of_nat (length out) = total.
Proof.
  intros Htot Htotal Hfit.
  rewrite generate_multi_track_split. unfold mix_before_normalisation.
  rewrite Htot; cbn [bind]. unfold np_zeros.
  destruct (Z.ltb_spec total 0) as [ ? | _ ]; [ lia | ]. cbn [bind].
  destruct (mix_loop_fits np_sin sr tracks (repeat 0 (Z.to_nat total)))
    as (mixed & Hmixed & Hlen).
  { eapply Forall_impl; [ | exact Hfit ].
    intros t (s & smp & H1 & H2 & H3 & H4).
    exists s, smp. rewrite repeat_length. repeat split; auto; lia. }
  rewrite Hmixed; cbn [bind]. rewrite repeat_length in Hlen.
  destruct (normalize_returns mixed) as (out & Hout & Hlen').
  { intros E. rewrite E in Hlen. simpl in Hlen. lia. }
  exists out. split; [ exact Hout | lia ].
Qed.

(** A single track whose write region fits in the buffer is mixed. *)
Lemma single_track_mix_returns np_sin sr track total start samples :
  total_samples_of sr [track] = Ok total ->
  start_sample_of sr track = Ok start ->
  track_samples np_sin sr track = Ok samples ->
  0 <= start -> 0 < total ->
  start + Z.of_nat (length samples) <= total ->
  exists out, generate_multi_track np_sin sr [track] = Ok out
              /\ Z.of_nat (length out) = total.
Proof.
  intros Htot Hs Hsmp Hpos Htotal Hfit.
  apply mix_returns_when_regions_fit; [ exact Htot | exact Htotal | ].
  constructor; [ | constructor ].
  exists start, samples. auto.
Qed.

Lemma track_samples_amplitude np_sin sr track samples :
  track_samples np_sin sr track = Ok samples ->
  exists v,
    py_float (velocity track) = Ok v
    /\ generate_sine_wave np_sin sr (frequency track) (duration track)
         (F64.mul (F64.of_Z 32767) (F64.div v (F64.of_Z 127)))
       = Ok samples.
Proof.
  unfold track_samples.
  replace (int_div_float (velocity track) (F64.of_Z 127))
    with (f <- py_float (velocity track) ;; Ok (F64.div f (F64.of_Z 127)))
    by reflexivity.
  destruct (py_float (velocity track)) as [ v | e ]; cbn [bind];
    [ | discriminate ].
  unfold int_mul_float. change (py_float 32767) with (Ok (F64.of_Z 32767)).
  cbn [bind]. intros H. exists v. split; [ reflexivity | exact H ].
Qed.

(** C1, as the code has it: mixing the empty track list raises the
    [ValueError] of [max] over an empty sequence, at every sample rate, and
    no buffer is returned; and on no track list does the mixer raise
    [EmptyInput] or [InvalidParameter]. *)
Theorem empty_mix_raises_the_error_of_max
    (np_sin : float -> float) (sr : Z) :
  generate_multi_track np_sin sr []
  = Raise (ValueError "max() arg is an empty sequence")
  /\ forall tracks, python_outcome (generate_multi_track np_sin sr tracks).
Proof.
  split; [ reflexivity | ].
  intros tracks. apply python_outcome_generate_multi_track.
Qed.

(** C1, refuted as stated: the error of the empty mix is not
    [EmptyInput]. *)
Lemma empty_mix_error_is_not_EmptyInput :
  ~ (forall np_sin : float -> float,
        generate_multi_track np_sin 44100 [] = Raise EmptyInput).
Proof.
  intros H. specialize (H small_angle_sin). discriminate H.
Qed.

(** C2, as the code has it: when [generate_multi_track] returns, the buffer
    has exactly [int(sample_rate * max(start_time + duration))] samples
    (the fraction is cut, not rounded up); every track was generated at
    amplitude [32767 * (velocity / 127.0)]; and, when no track starts before
    time 0, the sample of index [i] of the sum is the accumulation, track
    after track, of the tones laid down from sample
    [int(start_time * sample_rate)] on. *)
Theorem mix_length_amplitude_offset
    (np_sin : float -> float) (sr : Z) (tracks : list Track) (out : list Z) :
  generate_multi_track np_sin sr tracks = Ok out ->
  total_samples_of sr tracks = Ok (Z.of_nat (length out))
  /\ Forall (fun t =>
       exists v samples,
         py_float (velocity t) = Ok v
         /\ generate_sine_wave np_sin sr (frequency t) (duration t)
              (F64.mul (F64.of_Z 32767) (F64.div v (F64.of_Z 127)))
            = Ok samples
         /\ track_samples np_sin sr t = Ok samples) tracks
  /\ exists mixed,
       mix_before_normalisation np_sin sr tracks = Ok mixed
       /\ normalize mixed = Ok out
       /\ length mixed = length out
       /\ (0 <= sr ->
           Forall (fun t => SFleb F64.zero (start_time t) = true) tracks ->
           forall i, (i < length out)%nat ->
             nth i mixed 0 = mixed_sample np_sin sr tracks i).
Proof.
  rewrite generate_multi_track_split. intros H. inv_bind H.
  rename v into mixed, Hv into Hmix.
  pose proof (normalize_length _ _ H) as Hlen.
  unfold mix_before_normalisation in Hmix.
  pose proof Hmix as Hmix'.
  inv_bind Hmix'. rename v into n. inv_bind Hmix'. rename v into z.
  apply np_zeros_ok in Hv0. destruct Hv0 as [Hn ->].
  pose proof (mix_loop_length _ _ _ _ _ Hmix') as Hlen'.
  rewrite repeat_length in Hlen'.
  split; [ rewrite Hv; f_equal; lia | ].
  split.
  { pose proof (mix_loop_tracks_ok _ _ _ _ _ Hmix') as Hok.
    eapply Forall_impl; [ | exact Hok ].
    intros t (start & samples & _ & Hsmp).
    destruct (track_samples_amplitude _ _ _ _ Hsmp) as (v & Hv1 & Hv2).
    exists v, samples. repeat split; assumption. }
  exists mixed. split; [ exact Hmix | ]. split; [ exact H | ].
  split; [ symmetry; exact Hlen | ].
  intros Hsr Htimes i Hi. unfold mixed_sample.
  assert (Hpos : forallb (starts_at_or_after_zero sr) tracks = true).
  { apply (starts_at_or_after_zero_of_times np_sin); [ exact Hsr | exact Htimes | ].
    eapply mix_loop_tracks_ok; exact Hmix'. }
  rewrite (mix_loop_nth _ _ _ _ _ i Hmix' Hpos)
    by (rewrite repeat_length; lia).
  rewrite nth_repeat. reflexivity.
Qed.

(** A run of the mixer: one half-second note at 8 samples per second. *)
Lemma mix_length_amplitude_offset_witness :
  generate_multi_track small_angle_sin 8 [slow_note] = Ok [0; 2573; 5147; 7720]
  /\ total_samples_of 8 [slow_note] = Ok 4.
Proof.
  split; [ reflexivity | ].
  exact (proj1 (mix_length_amplitude_offset small_angle_sin 8 [slow_note]
                  [0; 2573; 5147; 7720] eq_refl)).
Defined.


(** C2, refuted as stated: for one note of 0.125 s that starts at 0.1875 s,
    at 44100 Hz, the code returns 13781 samples and writes the tone from
    sample 8268 on, where the formulas of the claim give 13782 (ceiling of
    13781.25) and 8269 (8268.75 rounded). *)
Lemma mix_length_and_offset_are_cut_not_rounded :
  Spec.total_samples 44100 [dyadic_note] = 13782
  /\ Spec.start_offset 44100 dyadic_note = 8269
  /\ start_sample_of 44100 dyadic_note = Ok 8268
  /\ forall np_sin : float -> float,
       exists out, generate_multi_track np_sin 44100 [dyadic_note] = Ok out
                   /\ Z.of_nat (length out) = 13781.
Proof.
  split; [ reflexivity | ]. split; [ reflexivity | ].
  split; [ reflexivity | ].
  intros np_sin.
  destruct (generate_sine_wave_length np_sin 44100 (frequency dyadic_note)
              (duration dyadic_note) (F64.of_Z 32767)
              (F64.mul (F64.of_Z 44100) (duration dyadic_note)) 5512)
    as (samples & Hsmp & Hlen); [ reflexivity | reflexivity | lia | ].
  destruct (single_track_mix_returns np_sin 44100 dyadic_note 13781 8268 samples)
    as (out & Hout & Hn); try reflexivity; try lia.
  - exact Hsmp.
  - exists out. split; [ exact Hout | lia ].
Qed.

(** C10, at a failing input: for one note of 0.06 s that starts at 0.01 s,
    at 44100 Hz, the tone has 2646 samples and starts at sample 441, but the
    buffer has 3086 samples only ([0.01 + 0.06] is [0.06999999999999999]
    in binary64), and the addition into the slice raises. *)
Theorem mix_write_region_exceeds_buffer (np_sin : float -> float) :
  start_sample_of 44100 short_note = Ok 441
  /\ (exists samples, track_samples np_sin 44100 short_note = Ok samples
                      /\ Z.of_nat (length samples) = 2646)
  /\ total_samples_of 44100 [short_note] = Ok 3086
  /\ generate_multi_track np_sin 44100 [short_note]
     = Raise (ValueError "operands could not be broadcast together").
Proof.
  split; [ reflexivity | ]. split.
  - destruct (generate_sine_wave_length np_sin 44100 (frequency short_note)
                (duration short_note)
                (F64.mul (F64.of_Z 32767)
                         (F64.div (F64.of_Z 100) (F64.of_Z 127)))
                (F64.mul (F64.of_Z 44100) (duration short_note)) 2646)
      as (samples & Hsmp & Hlen); [ reflexivity | reflexivity | lia | ].
    exists samples. split; [ exact Hsmp | lia ].
  - split; [ reflexivity | ]. vm_compute. reflexivity.
Qed.

(** ** The frequency verifier *)

Lemma verify_peaks_returns (p : float) (ps : list float) (e tol : float) :
  exists idx,
    verify_peaks (p :: ps) e tol
    = Ok {| expected_frequency := e;
            detected_frequency := nth idx (p :: ps) S754_nan;
            error_percent :=
              F64.mul (F64.div (SFabs (F64.sub (nth idx (p :: ps) S754_nan) e)) e)
                      (F64.of_Z 100);
            is_accurate :=
              SFleb (F64.div (SFabs (F64.sub (nth idx (p :: ps) S754_nan) e)) e)
                    tol;
            tolerance_percent := F64.mul tol (F64.of_Z 100) |}.
Proof.
  unfold verify_peaks. cbn [map np_argmin bind].
  eexists. reflexivity.
Qed.

(** The relative error against an expected frequency of 0 is infinite or
    not a number, and is within no tolerance but an infinite one. *)
Lemma error_against_zero (d tol : float) :
  let error := F64.div (SFabs (F64.sub d F64.zero)) F64.zero in
  (error = S754_infinity false \/ error = S754_nan)
  /\ match tol with
     | S754_infinity false => True
     | _ => SFleb error tol = false
     end.
Proof.
  destruct d as [ [ | ] | [ | ] | | s m e ];
    destruct tol as [ [ | ] | [ | ] | | [ | ] m' e' ];
    cbn; split; auto.
Qed.

(** C9, as the code has it: on an empty list of peaks the verifier raises
    the [ValueError] of [np.argmin], and returns no result; on a non-empty
    list it always returns a result, also for an expected frequency of 0,
    for which the verdict is negative at every finite tolerance. *)
Theorem verify_peaks_without_validation :
  (forall e tol : float,
      verify_peaks [] e tol
      = Raise (ValueError "attempt to get argmin of an empty sequence"))
  /\ (forall (p : float) (ps : list float) (e tol : float),
        exists r, verify_peaks (p :: ps) e tol = Ok r
                  /\ expected_frequency r = e)
  /\ (forall (p : float) (ps : list float) (tol : float),
        exists r, verify_peaks (p :: ps) F64.zero tol = Ok r
                  /\ match tol with
                     | S754_infinity false => True
                     | _ => is_accurate r = false
                     end).
Proof.
  split; [ reflexivity | ]. split.
  - intros p ps e tol. destruct (verify_peaks_returns p ps e tol) as (idx & H).
    eexists. split; [ exact H | reflexivity ].
  - intros p ps tol.
    destruct (verify_peaks_returns p ps F64.zero tol) as (idx & H).
    eexists. split; [ exact H | ]. cbn [is_accurate].
    exact (proj2 (error_against_zero (nth idx (p :: ps) S754_nan) tol)).
Qed.

(** C9, refuted as stated: with the single peak 440 Hz and the expected
    frequency 0 at tolerance 0.02, a result is produced (infinite error,
    negative verdict), not an [InvalidParameter] error; and the error on the
    empty list is not [EmptyInput]. *)
Lemma verify_peaks_accepts_zero_expected_frequency :
  verify_peaks [F64.of_Z 440] F64.zero (F64.dec 2 2)
  = Ok {| expected_frequency := F64.zero;
          detected_frequency := F64.of_Z 440;
          error_percent := S754_infinity false;
          is_accurate := false;
          tolerance_percent := F64.of_Z 2 |}
  /\ verify_peaks [] (F64.of_Z 440) (F64.dec 2 2) <> Raise EmptyInput.
Proof.
  split; [ reflexivity | discriminate ].
Qed.

(** ** The spectrum of a silent buffer *)

Lemma np_max_of_zeros (n : nat) :
  np_max (repeat F64.zero (S n)) = Ok F64.zero.
Proof.
  cbn [repeat np_max]. f_equal.
  induction n as [ | n IH ]; [ reflexivity | exact IH ].
Qed.

Lemma nth_repeat_nan (n i : nat) : nth i (repeat S754_nan n) S754_nan = S754_nan.
Proof.
  revert i; induction n as [ | n IH ]; intros [ | i ]; simpl; auto.
Qed.

Lemma local_maxima_from_nan (n : nat) : forall fuel i_max i,
  Scipy.local_maxima_from fuel (repeat S754_nan n) i_max i = [].
Proof.
  induction fuel as [ | fuel IH ]; intros i_max i; cbn [Scipy.local_maxima_from];
    [ reflexivity | ].
  destruct (Nat.ltb i i_max); [ | reflexivity ].
  rewrite !nth_repeat_nan. cbn. apply IH.
Qed.

Lemma top_peaks_of_nan (n : nat) : top_peaks (repeat S754_nan n) = [].
Proof.
  unfold top_peaks, Scipy.find_peaks, Scipy.local_maxima.
  rewrite local_maxima_from_nan. reflexivity.
Qed.

Lemma spectrum_of_zeros (freqs : list float) (n : nat) :
  spectrum_result freqs (repeat F64.zero (S n))
  = Ok {| frequencies := freqs;
          magnitude := repeat S754_nan (S n);
          peak_frequencies := [];
          peak_magnitudes := [] |}.
Proof.
  unfold spectrum_result. rewrite np_max_of_zeros. cbn [bind].
  rewrite map_repeat.
  change (F64.div F64.zero F64.zero) with S754_nan.
  rewrite top_peaks_of_nan. reflexivity.
Qed.

Lemma map_all_equal {A B : Type} (f : A -> B) (b : B) (l : list A) :
  Forall (fun a => f a = b) l -> map f l = repeat b (length l).
Proof.
  induction 1 as [ | a l Ha _ IH ]; simpl; [ reflexivity | ].
  rewrite Ha, IH. reflexivity.
Qed.

Lemma Forall_firstn {A : Type} (P : A -> Prop) (n : nat) (l : list A) :
  Forall P l -> Forall P (firstn n l).
Proof.
  intros H. revert n. induction H as [ | a l Ha _ IH ]; intros [ | n ]; simpl;
    constructor; auto.
Qed.

(** C6, on every buffer whose transform has modulus 0 everywhere: the
    division by the maximum is done all the same, and every magnitude
    returned is NaN, not 0. *)
Theorem spectrum_of_silence_is_nan
    (fft : list Z -> list complex) (np_abs : complex -> float)
    (sr : Z) (samples : list Z) (d : fft_data) :
  compute_fft fft np_abs sr samples = Ok d ->
  Forall (fun c => np_abs c = F64.zero) (fft samples) ->
  magnitude d <> []
  /\ Forall (fun m => m = S754_nan) (magnitude d)
  /\ peak_frequencies d = []
  /\ peak_magnitudes d = [].
Proof.
  unfold compute_fft. intros H Hzero.
  destruct samples as [ | s samples ]; [ discriminate | ].
  inv_bind H. inv_bind H.
  rewrite (map_all_equal np_abs F64.zero) in H
    by (apply Forall_firstn; exact Hzero).
  destruct (length (firstn (Nat.div (length (fft (s :: samples))) 2)
                           (fft (s :: samples)))) as [ | n ].
  - discriminate H.
  - rewrite spectrum_of_zeros in H. inversion H; subst d; clear H.
    cbn [magnitude peak_frequencies peak_magnitudes].
    split; [ discriminate | ]. split; [ | split; reflexivity ].
    apply Forall_forall. intros m Hm.
    exact (repeat_spec (S n) S754_nan m Hm).
Qed.

(** The spectrum of four samples of silence at 44100 Hz. *)
Lemma spectrum_of_silence_is_nan_witness :
  compute_fft fft_of_silence abs_of_real 44100 [0; 0; 0; 0]
  = Ok {| frequencies := [F64.zero; F64.of_Z 11025];
          magnitude := [S754_nan; S754_nan];
          peak_frequencies := [];
          peak_magnitudes := [] |}
  /\ Forall (fun m => m = S754_nan) [S754_nan; S754_nan].
Proof.
  split; [ reflexivity | ].
  refine (proj1 (proj2 (spectrum_of_silence_is_nan fft_of_silence abs_of_real
                          44100 [0; 0; 0; 0] _ eq_refl _))).
  repeat constructor.
Defined.

(** ** The pitch of a segment *)

Lemma np_argmax_singleton (x : float) : np_argmax [x] = Ok O.
Proof. cbn. destruct (is_nan x); reflexivity. Qed.

Lemma nth_slice_singleton {A : Type} (a : list A) (d : A) (k : nat) :
  (k < length a)%nat ->
  firstn 1 (skipn k a) = [nth k a d].
Proof.
  revert a. induction k as [ | k IH ]; intros [ | x a ] H; simpl in *;
    try lia; [ reflexivity | ].
  apply IH. lia.
Qed.

(** At 44100 Hz the lags searched in a 24-sample autocorrelation are those
    of the slice [22:23]: lag 22 alone. *)
Lemma fundamental_of_24_samples (autocorr : list float) :
  length autocorr = 24%nat ->
  fundamental_of autocorr 44100
  = Ok (F64.div (F64.of_Z 44100) (F64.of_Z 22)).
Proof.
  intros Hlen. unfold fundamental_of.
  destruct autocorr as [ | a0 rest ] eqn:E; [ discriminate | ].
  rewrite <- E in *. clear E rest.
  rewrite length_map, Hlen.
  change (44100 / 2000) with 22. change (44100 / 50) with 882.
  change (Z.of_nat 24 <? 882) with true. cbn iota.
  change (Z.of_nat 24 - 1) with 23. change (23 <=? 22) with false. cbn iota.
  unfold slice, slice_bounds, slice_index. rewrite length_map, Hlen.
  change (Z.to_nat (Z.max (if 22 <? 0 then Z.max (22 + Z.of_nat 24) 0
                           else Z.min 22 (Z.of_nat 24))
                          (if 23 <? 0 then Z.max (23 + Z.of_nat 24) 0
                           else Z.min 23 (Z.of_nat 24))
                    - (if 22 <? 0 then Z.max (22 + Z.of_nat 24) 0
                       else Z.min 22 (Z.of_nat 24)))) with 1%nat.
  change (Z.to_nat (if 22 <? 0 then Z.max (22 + Z.of_nat 24) 0
                    else Z.min 22 (Z.of_nat 24))) with 22%nat.
  rewrite (nth_slice_singleton _ S754_nan) by (rewrite length_map; lia).
  rewrite np_argmax_singleton. reflexivity.
Qed.

(** Every segment of 24 samples at 44100 Hz is given the frequency
    44100 / 22 Hz. *)
Lemma dominant_frequency_of_24_samples
    (hann : nat -> list float)
    (correlate_full : list float -> list float -> list float)
    (segment : list float) :
  (forall n, length (hann n) = n) ->
  (forall a b, length (correlate_full a b) = (length a + length b - 1)%nat) ->
  length segment = 24%nat ->
  get_dominant_frequency hann correlate_full segment 44100
  = Ok (F64.div (F64.of_Z 44100) (F64.of_Z 22)).
Proof.
  intros Hhann Hcorr Hlen.
  unfold get_dominant_frequency. rewrite Hlen.
  change (Nat.ltb 24 2) with false. cbn iota.
  apply fundamental_of_24_samples.
  rewrite length_skipn, Hcorr, !length_map, length_combine, Hhann, Hlen.
  reflexivity.
Qed.

(** C5, at a failing input: for a recording of 24 samples at 44100 Hz with
    one onset at time 0, the extractor emits one track, of frequency
    44100 / 22 Hz, which is above 2000 Hz. *)
Theorem short_recording_is_pitched_above_2000
    (hann : nat -> list float)
    (correlate_full : list float -> list float -> list float)
    (y : list float) :
  (forall n, length (hann n) = n) ->
  (forall a b, length (correlate_full a b) = (length a + length b - 1)%nat) ->
  length y = 24%nat ->
  extract_tracks hann correlate_full y 44100 [F64.zero]
  = Ok [ {| frequency := F64.div (F64.of_Z 44100) (F64.of_Z 22);
            duration := F64.div (F64.of_Z 24) (F64.of_Z 44100);
            velocity := 100;
            start_time := F64.zero |} ]
  /\ SFltb (F64.of_Z 2000) (F64.div (F64.of_Z 44100) (F64.of_Z 22)) = true.
Proof.
  intros Hhann Hcorr Hlen. split; [ | reflexivity ].
  unfold extract_tracks. cbn [extract_from]. rewrite Hlen.
  change (int_div_int (Z.of_nat 24) 44100)
    with (Ok (F64.div (F64.of_Z 24) (F64.of_Z 44100))).
  cbn [bind].
  change (py_int (F64.mul F64.zero (F64.of_Z 44100))) with (Ok 0).
  change (py_int (F64.mul (F64.div (F64.of_Z 24) (F64.of_Z 44100))
                          (F64.of_Z 44100))) with (Ok 24).
  cbn [bind].
  assert (Hslice : slice y 0 24 = y).
  { unfold slice, slice_bounds, slice_index. rewrite Hlen.
    change (Z.to_nat _) with 24%nat at 1. change (Z.to_nat _) with O.
    cbn [skipn]. rewrite <- Hlen. apply firstn_all. }
  rewrite Hslice.
  rewrite (dominant_frequency_of_24_samples hann correlate_full y Hhann Hcorr Hlen).
  reflexivity.
Qed.

(** A silent recording of 24 samples, with a window of ones. *)
Lemma short_recording_is_pitched_above_2000_witness :
  length (repeat F64.zero 24) = 24%nat
  /\ extract_tracks window_of_ones correlation_of_lengths
       (repeat F64.zero 24) 44100 [F64.zero]
     = Ok [ {| frequency := F64.div (F64.of_Z 44100) (F64.of_Z 22);
               duration := F64.div (F64.of_Z 24) (F64.of_Z 44100);
               velocity := 100;
               start_time := F64.zero |} ].
Proof.
  split; [ reflexivity | ].
  refine (proj1 (short_recording_is_pitched_above_2000 window_of_ones
                   correlation_of_lengths (repeat F64.zero 24) _ _ eq_refl)).
  - intros n. apply repeat_length.
  - intros a b. apply repeat_length.
Defined.

(** ** The lags searched *)

Lemma argmax_from_bound (xs : list float) : forall best best_i i,
  let k := argmax_from best best_i i xs in
  k = best_i \/ (i <= k < i + length xs)%nat.
Proof.
  induction xs as [ | x xs IH ]; intros best best_i i; cbn [argmax_from].
  - left. reflexivity.
  - destruct (SFleb x best).
    + destruct (IH best best_i (S i)) as [ H | H ]; [ left; exact H | ].
      right. simpl. lia.
    + destruct (is_nan x); [ right; simpl; lia | ].
      destruct (IH x i (S i)) as [ H | H ]; right; simpl; lia.
Qed.

Lemma np_argmax_bound (xs : list float) (k : nat) :
  np_argmax xs = Ok k -> (k < length xs)%nat.
Proof.
  destruct xs as [ | x xs ]; cbn [np_argmax]; intros H; inversion H.
  destruct (is_nan x); [ simpl; lia | ].
  destruct (argmax_from_bound xs x O 1%nat) as [ E | E ]; simpl in *; lia.
Qed.

Lemma length_slice_le {A : Type} (a : list A) (start stop : Z) :
  0 <= start < stop ->
  Z.of_nat (length (slice a start stop)) <= stop - start.
Proof.
  intros H. unfold slice, slice_bounds, slice_index.
  destruct (Z.ltb_spec start 0) as [ ? | _ ]; [ lia | ].
  destruct (Z.ltb_spec stop 0) as [ ? | _ ]; [ lia | ].
  rewrite length_firstn. lia.
Qed.

(** The estimate is 0, or the sample rate divided by a lag that lies in
    [[sr // 2000, sr // 50)]. *)
Lemma fundamental_lag_range (autocorr : list float) (sr : Z) (f : float) :
  fundamental_of autocorr sr = Ok f ->
  f = F64.zero
  \/ exists lag, sr / 2000 <= lag < sr / 50 /\ 0 < lag
                 /\ f = F64.div (F64.of_Z sr) (F64.of_Z lag).
Proof.
  unfold fundamental_of. destruct autocorr as [ | a0 rest ]; [ discriminate | ].
  set (ac := map (fun a => F64.div a a0) (a0 :: rest)).
  set (max_period := if Z.of_nat (length ac) <? sr / 50
                     then Z.of_nat (length ac) - 1 else sr / 50).
  assert (Hmax : max_period <= sr / 50).
  { unfold max_period. destruct (Z.ltb_spec (Z.of_nat (length ac)) (sr / 50)); lia. }
  destruct (Z.leb_spec max_period (sr / 2000)) as [ Hle | Hgt ].
  - intros H; inversion H. left. reflexivity.
  - intros H. inv_bind H. rename v into i.
    apply np_argmax_bound in Hv.
    assert (Hmin : 0 <= sr / 2000).
    { destruct (Z.lt_ge_cases sr 0) as [ Hneg | Hpos ].
      - exfalso. unfold max_period in Hgt.
        destruct (Z.ltb_spec (Z.of_nat (length ac)) (sr / 50)) as [ Hb | Hb ].
        + assert (sr / 50 < 0) by (apply Z.div_lt_upper_bound; lia). lia.
        + assert (sr / 50 <= sr / 2000).
          { apply Z.div_le_lower_bound; [ lia | ].
            pose proof (Z.mul_div_le sr 50 ltac:(lia)).
            assert (sr / 50 < 0) by (apply Z.div_lt_upper_bound; lia).
            lia. }
          lia.
      - apply Z.div_pos; lia. }
    pose proof (length_slice_le ac (sr / 2000) max_period ltac:(lia)) as Hlen.
    destruct (Z.ltb_spec 0 (sr / 2000 + Z.of_nat i)) as [ Hpos | Hzero ];
      inversion H.
    + right. exists (sr / 2000 + Z.of_nat i).
      split; [ lia | ]. split; [ exact Hpos | reflexivity ].
    + left. reflexivity.
Qed.

Section ExtractedTracks.

Variable hann : nat -> list float.
Variable correlate_full : list float -> list float -> list float.

Lemma dominant_frequency_lag (segment : list float) (sr : Z) (f : float) :
  get_dominant_frequency hann correlate_full segment sr = Ok f ->
  f = F64.zero
  \/ exists lag, sr / 2000 <= lag < sr / 50 /\ 0 < lag
                 /\ f = F64.div (F64.of_Z sr) (F64.of_Z lag).
Proof.
  unfold get_dominant_frequency.
  destruct (Nat.ltb (length segment) 2).
  - intros H; inversion H. left. reflexivity.
  - apply fundamental_lag_range.
Qed.

(** The frequency of every track the extractor emits is the sample rate
    divided by a lag that lies in [[sr // 2000, sr // 50)]. *)
Lemma extracted_tracks_lags (y : list float) (sr : Z) :
  forall onsets tracks,
    extract_from hann correlate_full y sr onsets = Ok tracks ->
    Forall (fun t => exists lag,
                sr / 2000 <= lag < sr / 50 /\ 0 < lag
                /\ frequency t = F64.div (F64.of_Z sr) (F64.of_Z lag)) tracks.
Proof.
  induction onsets as [ | onset later IH ]; intros tracks H;
    cbn [extract_from] in H.
  - inversion H. constructor.
  - inv_bind H. inv_bind H. inv_bind H. inv_bind H. inv_bind H.
    rename v2 into f, v3 into rest.
    specialize (IH rest Hv3).
    destruct (SFltb F64.zero f) eqn:Hpos; inversion H; subst tracks;
      [ | exact IH ].
    constructor; [ | exact IH ]. cbn [frequency].
    destruct (dominant_frequency_lag _ _ _ Hv2) as [ -> | Hlag ];
      [ discriminate Hpos | exact Hlag ].
Qed.

End ExtractedTracks.

(** ** Synthesis followed by analysis *)

(** A note of one sample is mixed, but its spectrum cannot be computed:
    the one-sided half of a transform of length 1 is empty, and [np.max]
    raises on it.  So the analysis of a mix finds a peak only when the
    note is long enough. *)
Lemma one_sample_mix_has_no_spectrum
    (np_sin : float -> float) (fft : list Z -> list complex)
    (np_abs : complex -> float) :
  (forall samples, length (fft samples) = length samples) ->
  exists s,
    generate_multi_track np_sin 44100 [click] = Ok [s]
    /\ compute_fft fft np_abs 44100 [s]
       = Raise (ValueError "zero-size array to reduction operation maximum which has no identity").
Proof.
  intros Hfft.
  destruct (generate_sine_wave_length np_sin 44100 (frequency click)
              (duration click) (F64.of_Z 32767)
              (F64.mul (F64.of_Z 44100) (duration click)) 1)
    as (samples & Hsmp & Hlen); [ reflexivity | reflexivity | lia | ].
  destruct (single_track_mix_returns np_sin 44100 click 1 0 samples)
    as (out & Hout & Hn); try reflexivity; try lia; [ exact Hsmp | ].
  destruct out as [ | s [ | s' out ] ]; simpl in Hn; try lia.
  exists s. split; [ exact Hout | ].
  unfold compute_fft. rewrite Hfft. reflexivity.
Qed.

(** ** The order of the numbers *)

Lemma np_lt_key (a b : float) :
  np_lt a b = true <-> key_lt (sort_key a) (sort_key b).
Proof.
  unfold np_lt, SFltb, SFcompare.
  destruct a as [ [ | ] | [ | ] | | [ | ] ma ea ];
    destruct b as [ [ | ] | [ | ] | | [ | ] mb eb ];
    cbn [sort_key key_lt is_nan negb andb orb];
    try (split; [ discriminate | lia ]);
    try (split; [ lia | reflexivity ]);
    change (Pos.compare_cont Eq ma mb) with (Pos.compare ma mb);
    destruct (Z.compare_spec ea eb) as [ He | He | He ];
    destruct (Pos.compare_spec ma mb) as [ Hm | Hm | Hm ];
    cbn [CompOpp orb]; split; intros H; try discriminate; try reflexivity;
    try lia.
Qed.

Lemma np_lt_false_key (a b : float) :
  np_lt a b = false <-> ~ key_lt (sort_key a) (sort_key b).
Proof.
  rewrite <- np_lt_key. destruct (np_lt a b); split; intros H;
    try reflexivity; try discriminate.
  exfalso; apply H; reflexivity.
Qed.

Lemma key_lt_asym a b : key_lt a b -> ~ key_lt b a.
Proof.
  destruct a as [[a1 a2] a3], b as [[b1 b2] b3]; unfold key_lt; lia.
Qed.

Lemma key_ge_trans a b c : ~ key_lt a b -> ~ key_lt b c -> ~ key_lt a c.
Proof.
  destruct a as [[a1 a2] a3], b as [[b1 b2] b3], c as [[c1 c2] c3];
    unfold key_lt; lia.
Qed.

(** Not being less is transitive. *)
Lemma np_lt_false_trans (a b c : float) :
  np_lt a b = false -> np_lt b c = false -> np_lt a c = false.
Proof.
  rewrite !np_lt_false_key. apply key_ge_trans.
Qed.

Lemma np_lt_asym (a b : float) : np_lt a b = true -> np_lt b a = false.
Proof.
  rewrite np_lt_key, np_lt_false_key. apply key_lt_asym.
Qed.

(** For two numbers that are not NaN, not being less is being at least. *)
Lemma SFleb_of_not_lt (a b : float) :
  is_nan a = false -> is_nan b = false ->
  np_lt b a = false -> SFleb a b = true.
Proof.
  intros Ha Hb. rewrite np_lt_false_key.
  unfold SFleb, SFcompare.
  destruct a as [ [ | ] | [ | ] | | [ | ] ma ea ]; try discriminate;
    destruct b as [ [ | ] | [ | ] | | [ | ] mb eb ]; try discriminate;
    cbn [sort_key key_lt]; try reflexivity; try (intros H; exfalso; lia);
    change (Pos.compare_cont Eq ma mb) with (Pos.compare ma mb);
    destruct (Z.compare_spec ea eb) as [ He | He | He ];
    destruct (Pos.compare_spec ma mb) as [ Hm | Hm | Hm ];
    cbn [CompOpp]; intros H'; try reflexivity; exfalso; lia.
Qed.

(** A number that is at least another number is not NaN. *)
Lemma SFleb_not_nan (a b : float) : SFleb a b = true -> is_nan b = false.
Proof.
  destruct b; try reflexivity.
  destruct a as [ [ | ] | [ | ] | | [ | ] ma ea ]; discriminate.
Qed.

(** ** Sorting *)

Section StronglySortedFacts.

Context {A : Type}.
Variable R : A -> A -> Prop.

Lemma StronglySorted_app_between (l1 l2 : list A) :
  StronglySorted R (l1 ++ l2) ->
  forall a b, In a l1 -> In b l2 -> R a b.
Proof.
  induction l1 as [ | x l1 IH ]; intros Hs a b Ha Hb; [ contradiction | ].
  simpl in Hs. apply StronglySorted_inv in Hs. destruct Hs as [Hs Hx].
  destruct Ha as [ <- | Ha ].
  - rewrite Forall_forall in Hx. apply Hx. apply in_or_app. right. exact Hb.
  - apply IH; assumption.
Qed.

Lemma StronglySorted_app_l (l1 l2 : list A) :
  StronglySorted R (l1 ++ l2) -> StronglySorted R l1.
Proof.
  induction l1 as [ | x l1 IH ]; intros Hs; [ constructor | ].
  simpl in Hs. apply StronglySorted_inv in Hs. destruct Hs as [Hs Hx].
  constructor; [ apply IH; exact Hs | ].
  apply Forall_app in Hx. apply Hx.
Qed.

Lemma StronglySorted_snoc (l : list A) (a : A) :
  StronglySorted R l -> Forall (fun x => R x a) l ->
  StronglySorted R (l ++ [a]).
Proof.
  induction 1 as [ | x l Hs IH Hx ]; intros Ha; simpl.
  - constructor; constructor.
  - inversion Ha; subst. constructor; [ apply IH; assumption | ].
    apply Forall_app. split; [ exact Hx | constructor; [ assumption | constructor ] ].
Qed.

Lemma StronglySorted_rev (l : list A) :
  StronglySorted (fun a b => R b a) l -> StronglySorted R (rev l).
Proof.
  induction 1 as [ | x l Hs IH Hx ]; simpl; [ constructor | ].
  apply StronglySorted_snoc; [ exact IH | ].
  apply Forall_rev. exact Hx.
Qed.

Lemma StronglySorted_firstn (n : nat) (l : list A) :
  StronglySorted R l -> StronglySorted R (firstn n l).
Proof.
  intros Hs. rewrite <- (firstn_skipn n l) in Hs.
  eapply StronglySorted_app_l; exact Hs.
Qed.

End StronglySortedFacts.

Lemma StronglySorted_map {A B : Type} (R : B -> B -> Prop) (f : A -> B)
    (l : list A) :
  StronglySorted (fun a b => R (f a) (f b)) l -> StronglySorted R (map f l).
Proof.
  induction 1 as [ | x l Hs IH Hx ]; simpl; constructor; [ exact IH | ].
  apply Forall_map. exact Hx.
Qed.

Lemma StronglySorted_strengthen {A : Type} (R R' : A -> A -> Prop)
    (P : A -> Prop) (l : list A) :
  (forall a b, P a -> P b -> R a b -> R' a b) ->
  Forall P l -> StronglySorted R l -> StronglySorted R' l.
Proof.
  intros Himp HP Hs. induction Hs as [ | x l Hs IH Hx ]; [ constructor | ].
  inversion HP; subst. constructor; [ apply IH; assumption | ].
  rewrite Forall_forall in *. intros b Hb. apply Himp; auto.
Qed.

(** The insertion sort behind [np_argsort]. *)

Lemma insert_by_value_perm (p : float * nat) (l : list (float * nat)) :
  Permutation (insert_by_value p l) (p :: l).
Proof.
  induction l as [ | q l IH ]; simpl; [ apply Permutation_refl | ].
  destruct (np_lt (fst q) (fst p)); [ | apply Permutation_refl ].
  eapply perm_trans; [ apply perm_skip; exact IH | apply perm_swap ].
Qed.

Lemma sort_by_value_perm (l : list (float * nat)) :
  Permutation (sort_by_value l) l.
Proof.
  induction l as [ | p l IH ]; simpl; [ constructor | ].
  eapply perm_trans; [ apply insert_by_value_perm | ].
  apply perm_skip. exact IH.
Qed.

Lemma insert_by_value_sorted (p : float * nat) (l : list (float * nat)) :
  StronglySorted not_above l -> StronglySorted not_above (insert_by_value p l).
Proof.
  induction 1 as [ | q l Hs IH Hq ]; simpl.
  - constructor; constructor.
  - destruct (np_lt (fst q) (fst p)) eqn:Hlt.
    + constructor; [ exact IH | ].
      eapply Permutation_Forall;
        [ apply Permutation_sym; apply insert_by_value_perm | ].
      constructor; [ | exact Hq ].
      unfold not_above. apply np_lt_asym. exact Hlt.
    + constructor; [ constructor; assumption | ].
      constructor; [ exact Hlt | ].
      rewrite Forall_forall in *. intros r Hr. unfold not_above in *.
      eapply np_lt_false_trans; [ apply Hq; exact Hr | exact Hlt ].
Qed.

Lemma sort_by_value_sorted (l : list (float * nat)) :
  StronglySorted not_above (sort_by_value l).
Proof.
  induction l as [ | p l IH ]; simpl; [ constructor | ].
  apply insert_by_value_sorted. exact IH.
Qed.

Lemma in_combine_seq (xs : list float) : forall s v i,
  In (v, i) (combine xs (seq s (length xs))) ->
  (s <= i < s + length xs)%nat /\ v = nth (i - s) xs S754_nan.
Proof.
  induction xs as [ | x xs IH ]; intros s v i H; simpl in H; [ contradiction | ].
  destruct H as [ H | H ].
  - inversion H; subst. simpl. split; [ lia | ].
    rewrite Nat.sub_diag. reflexivity.
  - apply IH in H. destruct H as [Hi Hv]. split; [ simpl; lia | ].
    replace (i - s)%nat with (S (i - S s)) by lia. exact Hv.
Qed.

Lemma map_snd_combine_seq (xs : list float) : forall s,
  map snd (combine xs (seq s (length xs))) = seq s (length xs).
Proof.
  induction xs as [ | x xs IH ]; intros s; simpl; [ reflexivity | ].
  rewrite IH. reflexivity.
Qed.

(** [np_argsort] returns every index once. *)
Lemma np_argsort_perm (xs : list float) :
  Permutation (np_argsort xs) (seq 0 (length xs)).
Proof.
  unfold np_argsort.
  eapply perm_trans; [ apply Permutation_map; apply sort_by_value_perm | ].
  rewrite map_snd_combine_seq. apply Permutation_refl.
Qed.

(** The indices with their values, in the order [np_argsort] reversed gives
    them: no value is less than a later one. *)
Lemma argsort_descending (xs : list float) :
  exists L : list (float * nat),
    rev (np_argsort xs) = map snd L
    /\ Forall (fun p => (snd p < length xs)%nat
                        /\ fst p = nth (snd p) xs S754_nan) L
    /\ StronglySorted (fun p q => np_lt (fst p) (fst q) = false) L.
Proof.
  exists (rev (sort_by_value (combine xs (seq 0 (length xs))))).
  split; [ unfold np_argsort; rewrite map_rev; reflexivity | ].
  split.
  - apply Forall_rev.
    eapply Permutation_Forall;
      [ apply Permutation_sym; apply sort_by_value_perm | ].
    apply Forall_forall. intros [v i] H. apply in_combine_seq in H.
    simpl. destruct H as [Hi Hv]. split; [ lia | ].
    rewrite Nat.sub_0_r in Hv. exact Hv.
  - apply StronglySorted_rev. apply sort_by_value_sorted.
Qed.

(** ** The local maxima *)

Lemma plateau_end_spec (x : list float) (xi : float) (i_max : nat) :
  forall fuel a,
    (a <= i_max)%nat ->
    (a <= Scipy.plateau_end fuel x xi i_max a <= i_max)%nat
    /\ forall k, (a <= k < Scipy.plateau_end fuel x xi i_max a)%nat ->
                 SFeqb (nth k x S754_nan) xi = true.
Proof.
  induction fuel as [ | fuel IH ]; intros a Ha; cbn [Scipy.plateau_end].
  - split; [ lia | intros k Hk; lia ].
  - destruct (Nat.ltb_spec a i_max) as [ Hlt | Hge ]; cbn [andb].
    + destruct (SFeqb (nth a x S754_nan) xi) eqn:Heq.
      * destruct (IH (S a) ltac:(lia)) as [ Hr Hk ].
        split; [ lia | ]. intros k Hk'.
        destruct (Nat.eq_dec k a) as [ -> | Hne ]; [ exact Heq | ].
        apply Hk. lia.
      * split; [ lia | intros k Hk; lia ].
    + split; [ lia | intros k Hk; lia ].
Qed.

(** The fuel given to the inner loop lets it run to its exit test. *)
Lemma plateau_end_exit (x : list float) (xi : float) (i_max : nat) :
  forall fuel a,
    (i_max - a <= fuel)%nat ->
    let e := Scipy.plateau_end fuel x xi i_max a in
    (i_max <= e)%nat \/ SFeqb (nth e x S754_nan) xi = false.
Proof.
  induction fuel as [ | fuel IH ]; intros a Hf; cbn [Scipy.plateau_end].
  - left. lia.
  - destruct (Nat.ltb_spec a i_max) as [ Hlt | Hge ]; cbn [andb].
    + destruct (SFeqb (nth a x S754_nan) xi) eqn:Heq.
      * apply IH. lia.
      * right. exact Heq.
    + left. exact Hge.
Qed.

Lemma half_between (a b : nat) :
  (a <= b)%nat -> (a <= Nat.div (a + b) 2 <= b)%nat.
Proof.
  intros H. split.
  - apply Nat.div_le_lower_bound; lia.
  - apply Nat.Div0.div_le_upper_bound. lia.
Qed.

Lemma local_maxima_from_spec (x : list float) :
  forall fuel i,
    (1 <= i)%nat ->
    let out := Scipy.local_maxima_from fuel x (length x - 1) i in
    Forall (fun p => (i <= p)%nat) out
    /\ StronglySorted lt out
    /\ Forall (is_local_maximum x) out.
Proof.
  induction fuel as [ | fuel IH ]; intros i Hi; cbn [Scipy.local_maxima_from].
  - repeat split; constructor.
  - destruct (Nat.ltb_spec i (length x - 1)) as [ Hlt | Hge ];
      [ | repeat split; constructor ].
    assert (Hskip :
      let out := Scipy.local_maxima_from fuel x (length x - 1) (S i) in
      Forall (fun p => (i <= p)%nat) out
      /\ StronglySorted lt out /\ Forall (is_local_maximum x) out).
    { destruct (IH (S i) ltac:(lia)) as (H1 & H2 & H3).
      split; [ | split; assumption ].
      eapply Forall_impl; [ | exact H1 ]. intros p Hp. cbv beta in Hp. lia. }
    destruct (SFltb (nth (i - 1) x S754_nan) (nth i x S754_nan)) eqn:Hrise;
      [ | exact Hskip ].
    set (e := Scipy.plateau_end (length x - 1 - S i) x (nth i x S754_nan)
                (length x - 1) (S i)).
    destruct (SFltb (nth e x S754_nan) (nth i x S754_nan)) eqn:Hfall;
      [ | exact Hskip ].
    destruct (plateau_end_spec x (nth i x S754_nan) (length x - 1)
                (length x - 1 - S i) (S i) ltac:(lia)) as [ He Hflat ].
    fold e in He, Hflat.
    destruct (IH (S e) ltac:(lia)) as (H1 & H2 & H3).
    pose proof (half_between i (e - 1) ltac:(lia)) as Hmid.
    split; [ | split ].
    + constructor; [ lia | ].
      eapply Forall_impl; [ | exact H1 ]. intros p Hp. cbv beta in Hp. lia.
    + constructor; [ exact H2 | ].
      eapply Forall_impl; [ | exact H1 ]. intros p Hp. cbv beta in Hp. lia.
    + constructor; [ | exact H3 ].
      exists i, (e - 1)%nat.
      split; [ lia | ]. split; [ lia | ]. split; [ lia | ].
      split; [ reflexivity | ]. split; [ exact Hrise | ].
      split; [ intros k Hk; apply Hflat; lia | ].
      replace (e - 1 + 1)%nat with e by lia. exact Hfall.
Qed.

Lemma local_maxima_spec (x : list float) :
  StronglySorted lt (Scipy.local_maxima x)
  /\ Forall (is_local_maximum x) (Scipy.local_maxima x).
Proof.
  destruct (local_maxima_from_spec x (length x) 1 ltac:(lia)) as (_ & H2 & H3).
  split; assumption.
Qed.

(** The fuel given to the outer loop lets it run to its exit test: more
    fuel changes nothing. *)
Lemma local_maxima_from_fuel (x : list float) (i_max : nat) :
  forall fuel extra i,
    (i_max - i <= fuel)%nat ->
    Scipy.local_maxima_from (fuel + extra) x i_max i
    = Scipy.local_maxima_from fuel x i_max i.
Proof.
  induction fuel as [ | fuel IH ]; intros extra i Hf.
  - destruct extra as [ | extra ]; [ reflexivity | ].
    cbn [Nat.add Scipy.local_maxima_from].
    destruct (Nat.ltb_spec i i_max); [ lia | reflexivity ].
  - cbn [Nat.add Scipy.local_maxima_from].
    destruct (Nat.ltb_spec i i_max) as [ Hlt | Hge ]; [ | reflexivity ].
    destruct (SFltb (nth (i - 1) x S754_nan) (nth i x S754_nan)).
    + set (e := Scipy.plateau_end (i_max - S i) x (nth i x S754_nan) i_max (S i)).
      assert (He : (S i <= e)%nat)
        by (apply (plateau_end_spec x (nth i x S754_nan) i_max); lia).
      destruct (SFltb (nth e x S754_nan) (nth i x S754_nan)).
      * f_equal. apply IH. lia.
      * apply IH. lia.
    + apply IH. lia.
Qed.

Lemma filter_StronglySorted {A : Type} (R : A -> A -> Prop) (f : A -> bool)
    (l : list A) :
  StronglySorted R l -> StronglySorted R (filter f l).
Proof.
  induction 1 as [ | a l Hs IH Ha ]; simpl; [ constructor | ].
  destruct (f a); [ | exact IH ].
  constructor; [ exact IH | ].
  rewrite Forall_forall in *. intros b Hb. apply filter_In in Hb.
  apply Ha. apply Hb.
Qed.

(** The candidates: the local maxima of height [hmin] at least, from left
    to right. *)
Lemma candidates_spec (x : list float) (hmin : float) :
  let candidates := Scipy.select_by_height x hmin (Scipy.local_maxima x) in
  StronglySorted lt candidates
  /\ Forall (fun p => is_local_maximum x p
                      /\ SFleb hmin (nth p x S754_nan) = true) candidates.
Proof.
  destruct (local_maxima_spec x) as [ Hs Hm ].
  split.
  - apply filter_StronglySorted. exact Hs.
  - apply Forall_forall. intros p Hp. unfold Scipy.select_by_height in Hp.
    apply filter_In in Hp. destruct Hp as [ Hin Hh ].
    rewrite Forall_forall in Hm. split; [ apply Hm; exact Hin | exact Hh ].
Qed.

(** ** Every local maximum is found *)

Lemma SFltb_key (a b : float) :
  SFltb a b = true ->
  key_lt (sort_key a) (sort_key b) /\ is_nan a = false /\ is_nan b = false.
Proof.
  intros H. assert (Hb : is_nan b = false).
  { destruct b; try reflexivity.
    destruct a as [ [ | ] | [ | ] | | [ | ] ma ea ]; discriminate. }
  assert (Ha : is_nan a = false) by (destruct a; try reflexivity; discriminate).
  split; [ | split; assumption ].
  apply np_lt_key. unfold np_lt. rewrite H. reflexivity.
Qed.

Lemma SFeqb_key (a b : float) :
  SFeqb a b = true -> sort_key a = sort_key b.
Proof.
  unfold SFeqb, SFcompare.
  destruct a as [ [ | ] | [ | ] | | [ | ] ma ea ];
    destruct b as [ [ | ] | [ | ] | | [ | ] mb eb ];
    cbn [sort_key]; try discriminate; try reflexivity;
    change (Pos.compare_cont Eq ma mb) with (Pos.compare ma mb);
    destruct (Z.compare_spec ea eb) as [ He | He | He ];
    destruct (Pos.compare_spec ma mb) as [ Hm | Hm | Hm ];
    cbn [CompOpp]; intros H; try discriminate; subst; reflexivity.
Qed.

Lemma key_lt_irrefl (k : Z * Z * Z) : ~ key_lt k k.
Proof. destruct k as [[k1 k2] k3]; unfold key_lt; lia. Qed.

Lemma SFltb_false_of_key (a b : float) :
  ~ key_lt (sort_key a) (sort_key b) -> SFltb a b = false.
Proof.
  intros H. destruct (SFltb a b) eqn:E; [ | reflexivity ].
  exfalso. apply H. apply SFltb_key. exact E.
Qed.

(** No rise inside a plateau. *)
Lemma no_rise_between_equals (a b c : float) :
  SFeqb a c = true -> SFeqb b c = true -> SFltb a b = false.
Proof.
  intros Ha Hb. apply SFltb_false_of_key.
  rewrite (SFeqb_key _ _ Ha), (SFeqb_key _ _ Hb). apply key_lt_irrefl.
Qed.

(** No rise onto the sample that ends a plateau from below. *)
Lemma no_rise_after_fall (a b c : float) :
  SFeqb a c = true -> SFltb b c = true -> SFltb a b = false.
Proof.
  intros Ha Hb. apply SFltb_false_of_key. rewrite (SFeqb_key _ _ Ha).
  apply key_lt_asym. apply SFltb_key. exact Hb.
Qed.

Lemma SFltb_not_eqb (a b : float) : SFltb a b = true -> SFeqb a b = false.
Proof.
  intros H. destruct (SFeqb a b) eqn:E; [ | reflexivity ].
  exfalso. apply SFltb_key in H. destruct H as [ H _ ].
  rewrite (SFeqb_key _ _ E) in H. exact (key_lt_irrefl _ H).
Qed.

Lemma SFeqb_refl_of_lt (a b : float) : SFltb a b = true -> SFeqb b b = true.
Proof.
  intros H.
  destruct b as [ [ | ] | [ | ] | | [ | ] mb eb ]; try reflexivity;
    try (destruct a as [ [ | ] | [ | ] | | [ | ] ma ea ]; discriminate);
    unfold SFeqb, SFcompare; rewrite Z.compare_refl;
    change (Pos.compare_cont Eq mb mb) with (Pos.compare mb mb);
    rewrite Pos.compare_refl; reflexivity.
Qed.

Section Completeness.

Variable x : list float.
Variables l r : nat.

Hypothesis l_pos : (1 <= l)%nat.
Hypothesis l_le_r : (l <= r)%nat.
Hypothesis r_inside : (r + 1 < length x)%nat.
Hypothesis rise :
  SFltb (nth (l - 1) x S754_nan) (nth l x S754_nan) = true.
Hypothesis flat : forall k, (l < k <= r)%nat ->
  SFeqb (nth k x S754_nan) (nth l x S754_nan) = true.
Hypothesis fall :
  SFltb (nth (r + 1) x S754_nan) (nth l x S754_nan) = true.

Lemma plateau_end_at_l :
  Scipy.plateau_end (length x - 1 - S l) x (nth l x S754_nan)
                    (length x - 1) (S l) = (r + 1)%nat.
Proof.
  set (e := Scipy.plateau_end _ _ _ _ _).
  destruct (plateau_end_spec x (nth l x S754_nan) (length x - 1)
              (length x - 1 - S l) (S l) ltac:(lia)) as [ He Hflat ].
  pose proof (plateau_end_exit x (nth l x S754_nan) (length x - 1)
                (length x - 1 - S l) (S l) ltac:(lia)) as Hexit.
  cbv zeta in Hexit. fold e in He, Hflat, Hexit.
  destruct (Nat.lt_trichotomy e (r + 1)) as [ Hlt | [ Heq | Hgt ] ].
  - exfalso. destruct Hexit as [ Hexit | Hexit ]; [ lia | ].
    rewrite flat in Hexit by lia. discriminate.
  - exact Heq.
  - exfalso. pose proof (Hflat (r + 1)%nat ltac:(lia)) as Heqb.
    rewrite (SFltb_not_eqb _ _ fall) in Heqb. discriminate.
Qed.

Lemma scan_reaches_plateau : forall fuel i,
  (1 <= i <= l)%nat -> (length x - 1 - i <= fuel)%nat ->
  In (Nat.div (l + r) 2) (Scipy.local_maxima_from fuel x (length x - 1) i).
Proof.
  induction fuel as [ | fuel IH ]; intros i Hi Hf; [ lia | ].
  cbn [Scipy.local_maxima_from].
  destruct (Nat.ltb_spec i (length x - 1)) as [ _ | ? ]; [ | lia ].
  destruct (Nat.eq_dec i l) as [ -> | Hne ].
  - rewrite rise, plateau_end_at_l, fall.
    left. f_equal. lia.
  - destruct (SFltb (nth (i - 1) x S754_nan) (nth i x S754_nan)) eqn:Hrise;
      [ | apply IH; lia ].
    set (e := Scipy.plateau_end (length x - 1 - S i) x (nth i x S754_nan)
                (length x - 1) (S i)).
    destruct (plateau_end_spec x (nth i x S754_nan) (length x - 1)
                (length x - 1 - S i) (S i) ltac:(lia)) as [ He Hflat ].
    fold e in He, Hflat.
    destruct (SFltb (nth e x S754_nan) (nth i x S754_nan)) eqn:Hfall;
      [ | apply IH; lia ].
    right. apply IH; [ | lia ].
    split; [ lia | ].
    (* the plateau [l..r] starts after the sample [e] *)
    destruct (Nat.le_gt_cases (S e) l) as [ H | H ]; [ exact H | exfalso ].
    assert (Hprev : SFeqb (nth (l - 1) x S754_nan) (nth i x S754_nan) = true).
    { destruct (Nat.eq_dec (l - 1) i) as [ -> | Hn ].
      - eapply SFeqb_refl_of_lt. exact Hrise.
      - apply Hflat. lia. }
    destruct (Nat.eq_dec l e) as [ Hle | Hle ].
    + rewrite (no_rise_after_fall _ _ _ Hprev) in rise; [ discriminate | ].
      rewrite Hle. exact Hfall.
    + rewrite (no_rise_between_equals _ _ _ Hprev) in rise; [ discriminate | ].
      apply Hflat. lia.
Qed.

End Completeness.

(** [_local_maxima_1d] finds the local maxima, and nothing else. *)
Lemma local_maxima_exact (x : list float) (p : nat) :
  In p (Scipy.local_maxima x) <-> is_local_maximum x p.
Proof.
  split.
  - intros H. destruct (local_maxima_spec x) as [ _ Hm ].
    rewrite Forall_forall in Hm. apply Hm. exact H.
  - intros (l & r & Hl & Hlr & Hr & -> & Hrise & Hflat & Hfall).
    unfold Scipy.local_maxima.
    apply (scan_reaches_plateau x l r); try assumption; lia.
Qed.

(** ** The selection by distance *)

Lemma length_clear (k : nat) : forall keep,
  length (Scipy.clear k keep) = length keep.
Proof.
  induction k as [ | k IH ]; intros [ | b keep ]; simpl; auto.
Qed.

Lemma nth_clear (k : nat) : forall keep i,
  nth i (Scipy.clear k keep) false
  = if Nat.eqb i k then false else nth i keep false.
Proof.
  induction k as [ | k IH ]; intros [ | b keep ] [ | i ]; simpl; auto.
  all: destruct (Nat.eqb i k); reflexivity.
Qed.

Lemma increasing_nth_lt (l : list nat) :
  StronglySorted lt l ->
  forall a b, (a < b)%nat -> (b < length l)%nat ->
              (nth a l O < nth b l O)%nat.
Proof.
  induction 1 as [ | p l Hs IH Hp ]; intros a b Hab Hb; simpl in Hb;
    [ lia | ].
  destruct b as [ | b ]; [ lia | ].
  destruct a as [ | a ]; simpl.
  - rewrite Forall_forall in Hp. apply Hp. apply nth_In. lia.
  - apply IH; lia.
Qed.

Section DistanceSelection.

Variable peaks : list nat.
Variable distance : Z.

Hypothesis peaks_increasing : StronglySorted lt peaks.

Lemma peaks_lt (a b : nat) :
  (a < b)%nat -> (b < length peaks)%nat -> (nth a peaks O < nth b peaks O)%nat.
Proof. apply increasing_nth_lt. exact peaks_increasing. Qed.

Lemma peaks_le (a b : nat) :
  (a <= b)%nat -> (b < length peaks)%nat -> (nth a peaks O <= nth b peaks O)%nat.
Proof.
  intros Hab Hb. destruct (Nat.eq_dec a b) as [ -> | Hne ]; [ lia | ].
  pose proof (peaks_lt a b ltac:(lia) Hb). lia.
Qed.

Lemma length_flag_earlier (pj : nat) : forall k1 keep,
  length (Scipy.flag_earlier peaks pj distance k1 keep) = length keep.
Proof.
  induction k1 as [ | k IH ]; intros keep; cbn [Scipy.flag_earlier];
    [ reflexivity | ].
  destruct (_ <? distance); [ | reflexivity ].
  rewrite IH. apply length_clear.
Qed.

Lemma nth_flag_earlier (pj : nat) : forall k1 keep i,
  (k1 <= length peaks)%nat ->
  nth i (Scipy.flag_earlier peaks pj distance k1 keep) false
  = if Nat.ltb i k1 && (Z.of_nat pj - Z.of_nat (nth i peaks O) <? distance)
    then false else nth i keep false.
Proof.
  induction k1 as [ | k IH ]; intros keep i Hk; cbn [Scipy.flag_earlier].
  - reflexivity.
  - destruct (Z.ltb_spec (Z.of_nat pj - Z.of_nat (nth k peaks O)) distance)
      as [ Hnear | Hfar ].
    + rewrite IH by lia. rewrite nth_clear.
      destruct (Nat.ltb_spec i k), (Nat.ltb_spec i (S k)), (Nat.eqb_spec i k);
        try lia; cbn [andb]; try reflexivity.
      subst i. destruct (Z.ltb_spec (Z.of_nat pj - Z.of_nat (nth k peaks O))
                           distance); [ reflexivity | lia ].
    + destruct (Nat.ltb_spec i (S k)) as [ Hi | Hi ]; cbn [andb];
        [ | reflexivity ].
      pose proof (peaks_le i k ltac:(lia) ltac:(lia)).
      destruct (Z.ltb_spec (Z.of_nat pj - Z.of_nat (nth i peaks O)) distance);
        [ lia | reflexivity ].
Qed.

Lemma length_flag_later (pj : nat) : forall fuel k keep,
  length (Scipy.flag_later fuel peaks pj distance k keep) = length keep.
Proof.
  induction fuel as [ | fuel IH ]; intros k keep; cbn [Scipy.flag_later];
    [ reflexivity | ].
  destruct (_ && _); [ | reflexivity ].
  rewrite IH. apply length_clear.
Qed.

Lemma nth_flag_later (pj : nat) : forall fuel k keep i,
  (length peaks - k <= fuel)%nat ->
  nth i (Scipy.flag_later fuel peaks pj distance k keep) false
  = if Nat.leb k i && Nat.ltb i (length peaks)
       && (Z.of_nat (nth i peaks O) - Z.of_nat pj <? distance)
    then false else nth i keep false.
Proof.
  induction fuel as [ | fuel IH ]; intros k keep i Hf; cbn [Scipy.flag_later].
  - destruct (Nat.leb_spec k i), (Nat.ltb_spec i (length peaks)); try lia;
      reflexivity.
  - destruct (Nat.ltb_spec k (length peaks)) as [ Hk | Hk ]; cbn [andb].
    + destruct (Z.ltb_spec (Z.of_nat (nth k peaks O) - Z.of_nat pj) distance)
        as [ Hnear | Hfar ].
      * rewrite IH by lia. rewrite nth_clear.
        destruct (Nat.leb_spec (S k) i), (Nat.leb_spec k i),
                 (Nat.eqb_spec i k); try lia; cbn [andb]; try reflexivity.
        subst i. destruct (Nat.ltb_spec k (length peaks)); [ | lia ].
        destruct (Z.ltb_spec (Z.of_nat (nth k peaks O) - Z.of_nat pj)
                    distance); [ reflexivity | lia ].
      * destruct (Nat.leb_spec k i) as [ Hi | Hi ]; cbn [andb];
          [ | reflexivity ].
        destruct (Nat.ltb_spec i (length peaks)) as [ Hi' | Hi' ]; cbn [andb];
          [ | reflexivity ].
        pose proof (peaks_le k i ltac:(lia) ltac:(lia)).
        destruct (Z.ltb_spec (Z.of_nat (nth i peaks O) - Z.of_nat pj) distance);
          [ lia | reflexivity ].
    + destruct (Nat.leb_spec k i), (Nat.ltb_spec i (length peaks)); try lia;
        reflexivity.
Qed.

Lemma length_visit (keep : list bool) (j : nat) :
  length (Scipy.visit peaks distance keep j) = length keep.
Proof.
  unfold Scipy.visit. destruct (nth j keep false); [ | reflexivity ].
  rewrite length_flag_later, length_flag_earlier. reflexivity.
Qed.

(** One visit: a kept peak clears every other peak closer than
    [distance]; nothing else changes. *)
Lemma nth_visit (keep : list bool) (j i : nat) :
  (j < length peaks)%nat ->
  nth i (Scipy.visit peaks distance keep j) false
  = if nth j keep false && negb (Nat.eqb i j) && Nat.ltb i (length peaks)
       && (bins_apart (nth i peaks O) (nth j peaks O) <? distance)
    then false else nth i keep false.
Proof.
  intros Hj. unfold Scipy.visit, bins_apart.
  destruct (nth j keep false); cbn [andb]; [ | reflexivity ].
  rewrite nth_flag_later by lia. rewrite nth_flag_earlier by lia.
  destruct (Nat.leb_spec (S j) i) as [ Hlate | Hnot ]; cbn [andb].
  - destruct (Nat.eqb_spec i j); [ lia | ]. cbn [negb andb].
    destruct (Nat.ltb_spec i (length peaks)) as [ Hi | Hi ]; cbn [andb].
    + pose proof (peaks_lt j i ltac:(lia) Hi).
      destruct (Nat.ltb_spec i j); [ lia | ]. cbn [andb].
      rewrite Z.abs_eq by lia. reflexivity.
    + destruct (Nat.ltb_spec i j); [ lia | ]. reflexivity.
  - destruct (Nat.eqb_spec i j) as [ -> | Hne ]; cbn [negb andb].
    + rewrite Nat.ltb_irrefl. reflexivity.
    + destruct (Nat.ltb_spec i j); [ | lia ]. cbn [andb].
      destruct (Nat.ltb_spec i (length peaks)); [ | lia ]. cbn [andb].
      pose proof (peaks_lt i j ltac:(lia) Hj).
      replace (Z.abs (Z.of_nat (nth i peaks O) - Z.of_nat (nth j peaks O)))
        with (Z.of_nat (nth j peaks O) - Z.of_nat (nth i peaks O)) by lia.
      reflexivity.
Qed.

(** The visits in an order [ord] that takes every peak once, from a higher
    or equal priority to a lower or equal one ([ge j i]: [j] is not below
    [i]). *)

Variable ge : nat -> nat -> Prop.
Variable ord : list nat.

Hypothesis ord_perm : Permutation ord (seq 0 (length peaks)).
Hypothesis ord_sorted : StronglySorted ge ord.


Lemma ord_in (i : nat) : In i ord <-> (i < length peaks)%nat.
Proof.
  split; intros H.
  - apply (Permutation_in _ ord_perm) in H. apply in_seq in H. lia.
  - apply (Permutation_in _ (Permutation_sym ord_perm)). apply in_seq. lia.
Qed.

Lemma close_peaks_sym (i j : nat) :
  close_peaks peaks distance i j -> close_peaks peaks distance j i.
Proof.
  unfold close_peaks, bins_apart. intros [ H1 H2 ]. split; [ auto | lia ].
Qed.

Lemma selection_step (done rest : list nat) (j : nat) (keep : list bool) :
  ord = done ++ j :: rest ->
  selection_invariant peaks distance ge keep done ->
  selection_invariant peaks distance ge
    (Scipy.visit peaks distance keep j) (done ++ [j]).
Proof.
  intros Hord (Hlen & Hclear & Hwhy).
  assert (Hj : (j < length peaks)%nat).
  { apply ord_in. rewrite Hord. apply in_or_app. right. left. reflexivity. }
  assert (Hnth : forall i,
    nth i (Scipy.visit peaks distance keep j) false
    = if nth j keep false && negb (Nat.eqb i j) && Nat.ltb i (length peaks)
         && (bins_apart (nth i peaks O) (nth j peaks O) <? distance)
      then false else nth i keep false)
    by (intros i; apply nth_visit; exact Hj).
  assert (Hmono : forall i,
    nth i (Scipy.visit peaks distance keep j) false = true ->
    nth i keep false = true).
  { intros i. rewrite Hnth. destruct (_ && _); [ discriminate | auto ]. }
  assert (Hstay : forall k,
    In k (done ++ [j]) -> nth k keep false = true ->
    nth k (Scipy.visit peaks distance keep j) false = true).
  { intros k Hk Hkept. rewrite Hnth.
    destruct (nth j keep false) eqn:Hjk; cbn [andb]; [ | exact Hkept ].
    destruct (Nat.eqb_spec k j) as [ -> | Hne ]; cbn [negb andb];
      [ exact Hkept | ].
    destruct (Nat.ltb_spec k (length peaks)) as [ Hk' | Hk' ]; cbn [andb];
      [ | exact Hkept ].
    destruct (Z.ltb_spec (bins_apart (nth k peaks O) (nth j peaks O)) distance)
      as [ Hnear | Hfar ]; [ | exact Hkept ].
    apply in_app_or in Hk. destruct Hk as [ Hk | [ Hk | [] ] ];
      [ | congruence ].
    assert (nth j keep false = false).
    { apply (Hclear k Hk Hkept j Hj). apply close_peaks_sym. split; assumption. }
    congruence. }
  split; [ rewrite length_visit; exact Hlen | ]. split.
  - intros k Hk Hkept i Hi Hnear.
    pose proof (Hmono k Hkept) as Hkept'.
    apply in_app_or in Hk. destruct Hk as [ Hk | [ <- | [] ] ].
    + rewrite Hnth. destruct (_ && _); [ reflexivity | ].
      apply (Hclear k Hk Hkept' i Hi Hnear).
    + rewrite Hnth. rewrite Hkept'. destruct Hnear as [ Hne Hd ].
      destruct (Nat.eqb_spec i j); [ contradiction | ].
      destruct (Nat.ltb_spec i (length peaks)); [ | lia ].
      destruct (Z.ltb_spec (bins_apart (nth i peaks O) (nth j peaks O)) distance);
        [ reflexivity | lia ].
  - intros i Hi Hoff.
    destruct (nth i keep false) eqn:Hbefore.
    + (* cleared by this visit *)
      rewrite Hnth in Hoff. rewrite Hbefore in Hoff.
      destruct (nth j keep false) eqn:Hjk; cbn [andb] in Hoff;
        [ | discriminate ].
      destruct (Nat.eqb_spec i j) as [ | Hne ]; cbn [negb andb] in Hoff;
        [ discriminate | ].
      destruct (Nat.ltb_spec i (length peaks)); cbn [andb] in Hoff;
        [ | discriminate ].
      destruct (Z.ltb_spec (bins_apart (nth i peaks O) (nth j peaks O)) distance)
        as [ Hd | Hd ]; [ | discriminate ].
      exists j. split; [ apply in_or_app; right; left; reflexivity | ].
      split; [ apply Hstay; [ apply in_or_app; right; left; reflexivity
                            | exact Hjk ] | ].
      split; [ split; assumption | ].
      (* [i] comes after [j] in the order *)
      assert (Hi_rest : In i rest).
      { assert (Hin : In i ord) by (apply ord_in; exact Hi).
        rewrite Hord in Hin. apply in_app_or in Hin.
        destruct Hin as [ Hin | [ Hin | Hin ] ]; [ | congruence | exact Hin ].
        exfalso.
        assert (nth j keep false = false).
        { apply (Hclear i Hin Hbefore j Hj). apply close_peaks_sym. split; assumption. }
        congruence. }
      rewrite Hord in ord_sorted.
      eapply (StronglySorted_app_between ge (done ++ [j]) rest).
      * rewrite <- app_assoc. exact ord_sorted.
      * apply in_or_app; right; left; reflexivity.
      * exact Hi_rest.
    + destruct (Hwhy i Hi Hbefore) as (k & Hk & Hkept & Hnear & Hge).
      exists k. split; [ apply in_or_app; left; exact Hk | ].
      split; [ apply Hstay; [ apply in_or_app; left; exact Hk | exact Hkept ] | ].
      split; assumption.
Qed.

Lemma selection_fold (rest : list nat) : forall done keep,
  ord = done ++ rest ->
  selection_invariant peaks distance ge keep done ->
  selection_invariant peaks distance ge
    (fold_left (Scipy.visit peaks distance) rest keep) ord.
Proof.
  induction rest as [ | j rest IH ]; intros done keep Hord Hinv; simpl.
  - rewrite app_nil_r in Hord. subst done. exact Hinv.
  - apply (IH (done ++ [j])).
    + rewrite <- app_assoc. exact Hord.
    + eapply selection_step; eassumption.
Qed.

Lemma nth_repeat_true (n i : nat) :
  (i < n)%nat -> nth i (repeat true n) false = true.
Proof.
  revert i. induction n as [ | n IH ]; intros i H; [ lia | ].
  destruct i as [ | i ]; simpl; [ reflexivity | apply IH; lia ].
Qed.

Lemma selection_final :
  selection_invariant peaks distance ge
    (fold_left (Scipy.visit peaks distance) ord (repeat true (length peaks)))
    ord.
Proof.
  apply (selection_fold ord []); [ reflexivity | ].
  split; [ apply repeat_length | ]. split.
  - intros j [].
  - intros i Hi Hoff. rewrite nth_repeat_true in Hoff by exact Hi.
    discriminate.
Qed.

End DistanceSelection.

Lemma in_mask (peaks : list nat) : forall (keep : list bool) (p : nat),
  length keep = length peaks ->
  In p (Scipy.mask peaks keep)
  <-> exists i, (i < length peaks)%nat /\ nth i keep false = true
                /\ nth i peaks O = p.
Proof.
  induction peaks as [ | q peaks IH ]; intros [ | b keep ] p Hlen;
    simpl in Hlen; try discriminate.
  - simpl. split; [ contradiction | intros (i & Hi & _); lia ].
  - cbn [Scipy.mask]. split.
    + intros H. destruct b.
      * destruct H as [ <- | H ].
        -- exists O. simpl. split; [ lia | auto ].
        -- apply IH in H; [ | lia ]. destruct H as (i & Hi & Hk & Hp).
           exists (S i). simpl. split; [ lia | auto ].
      * apply IH in H; [ | lia ]. destruct H as (i & Hi & Hk & Hp).
        exists (S i). simpl. split; [ lia | auto ].
    + intros (i & Hi & Hk & Hp). destruct i as [ | i ]; simpl in *.
      * subst b. left. exact Hp.
      * assert (In p (Scipy.mask peaks keep)).
        { apply IH; [ lia | ]. exists i. split; [ lia | auto ]. }
        destruct b; [ right | ]; assumption.
Qed.

Lemma mask_StronglySorted {A : Type} (R : A -> A -> Prop) (l : list A) :
  StronglySorted R l -> forall keep, StronglySorted R (Scipy.mask l keep).
Proof.
  induction 1 as [ | a l Hs IH Ha ]; intros [ | b keep ]; cbn [Scipy.mask];
    try constructor.
  destruct b; [ | apply IH ].
  constructor; [ apply IH | ].
  assert (Hsub : forall keep x, In x (Scipy.mask l keep) -> In x l).
  { clear. induction l as [ | y l IH ]; intros [ | b keep ] x; cbn [Scipy.mask];
      try contradiction.
    destruct b; simpl; intros H; [ destruct H | ]; eauto. }
  rewrite Forall_forall in *. intros x Hx. apply Ha. eapply Hsub; exact Hx.
Qed.

(** ** The peaks found *)

Lemma nth_take (x : list float) (l : list nat) (i : nat) :
  (i < length l)%nat ->
  nth i (take S754_nan x l) S754_nan = nth (nth i l O) x S754_nan.
Proof.
  intros Hi. unfold take.
  rewrite (nth_indep _ S754_nan (nth O x S754_nan))
    by (rewrite length_map; exact Hi).
  apply (map_nth (fun p => nth p x S754_nan)).
Qed.

Lemma map_nth_seq {A : Type} (d : A) (l : list A) :
  map (fun i => nth i l d) (seq 0 (length l)) = l.
Proof.
  induction l as [ | a l IH ]; simpl; [ reflexivity | ].
  f_equal. rewrite <- seq_shift, map_map. exact IH.
Qed.

(** The order of the visits: every index once, no value below a later
    one. *)
Lemma visit_order (prio : list float) (n : nat) :
  length prio = n ->
  Permutation (rev (np_argsort prio)) (seq 0 n)
  /\ StronglySorted
       (fun j i => np_lt (nth j prio S754_nan) (nth i prio S754_nan) = false)
       (rev (np_argsort prio)).
Proof.
  intros <-. split.
  - eapply perm_trans; [ apply Permutation_sym; apply Permutation_rev | ].
    apply np_argsort_perm.
  - destruct (argsort_descending prio) as (L & -> & Hval & Hsorted).
    apply StronglySorted_map.
    eapply (StronglySorted_strengthen _ _ _ L _ Hval Hsorted).
    Unshelve.
    intros p q (_ & Hp) (_ & Hq) H. cbv beta. rewrite <- Hp, <- Hq. exact H.
Qed.

Lemma find_peaks_spec (x : list float) (h : float) (d : Z) :
  let candidates := Scipy.select_by_height x h (Scipy.local_maxima x) in
  let selected := Scipy.find_peaks x h d in
  let height p := nth p x S754_nan in
  StronglySorted lt selected
  /\ (forall p, In p selected -> In p candidates)
  /\ (forall p q, In p selected -> In q selected -> p <> q ->
                  d <= bins_apart p q)
  /\ (forall c, In c candidates -> ~ In c selected ->
        exists p, In p selected /\ bins_apart c p < d
                  /\ SFleb (height c) (height p) = true).
Proof.
  intros candidates selected height.
  destruct (candidates_spec x h) as [ Hinc Hcand ].
  fold candidates in Hinc, Hcand.
  set (prio := take S754_nan x candidates).
  assert (Hlen : length prio = length candidates) by apply length_map.
  destruct (visit_order prio _ Hlen) as [ Hperm Hsorted ].
  pose proof (selection_final candidates d Hinc _ _ Hperm Hsorted)
    as (Hklen & Hclear & Hwhy).
  fold (Scipy.select_by_peak_distance candidates prio d) in Hklen, Hclear, Hwhy.
  set (keep := Scipy.select_by_peak_distance candidates prio d) in *.
  assert (Hsel : forall p, In p selected <->
            exists i, (i < length candidates)%nat /\ nth i keep false = true
                      /\ nth i candidates O = p).
  { intros p. apply in_mask. exact Hklen. }
  assert (Hdone : forall i, (i < length candidates)%nat ->
                            In i (rev (np_argsort prio))).
  { intros i Hi. apply (Permutation_in _ (Permutation_sym Hperm)).
    apply in_seq. lia. }
  split; [ apply mask_StronglySorted; exact Hinc | ].
  split.
  { intros p Hp. apply Hsel in Hp. destruct Hp as (i & Hi & _ & <-).
    apply nth_In. exact Hi. }
  split.
  { intros p q Hp Hq Hne.
    apply Hsel in Hp. destruct Hp as (i & Hi & Hki & <-).
    apply Hsel in Hq. destruct Hq as (j & Hj & Hkj & <-).
    destruct (Z.lt_ge_cases (bins_apart (nth i candidates O) (nth j candidates O)) d)
      as [ Hnear | Hfar ]; [ | exact Hfar ].
    exfalso.
    assert (nth i keep false = false).
    { apply (Hclear j (Hdone j Hj) Hkj i Hi). split; [ | exact Hnear ].
      intros E; apply Hne; rewrite E; reflexivity. }
    congruence. }
  intros c Hc Hnot.
  apply In_nth with (d := O) in Hc. destruct Hc as (i & Hi & Hci).
  assert (Hoff : nth i keep false = false).
  { destruct (nth i keep false) eqn:E; [ | reflexivity ].
    exfalso. apply Hnot. apply Hsel. exists i. auto. }
  destruct (Hwhy i Hi Hoff) as (j & _ & Hkj & (Hne & Hnear) & Hge).
  assert (Hj : (j < length candidates)%nat).
  { destruct (Nat.lt_ge_cases j (length candidates)) as [ H | H ]; [ exact H | ].
    rewrite nth_overflow in Hkj by lia. discriminate. }
  exists (nth j candidates O).
  split; [ apply Hsel; exists j; auto | ].
  split; [ rewrite <- Hci; exact Hnear | ].
  cbv beta in Hge. unfold prio in Hge. rewrite !nth_take in Hge by assumption.
  rewrite Hci in Hge. unfold height.
  rewrite Forall_forall in Hcand.
  apply SFleb_of_not_lt; [ | | exact Hge ].
  - apply (SFleb_not_nan h). apply Hcand. rewrite <- Hci. apply nth_In. exact Hi.
  - apply (SFleb_not_nan h). apply Hcand. apply nth_In. exact Hj.
Qed.

(** The peaks in descending order of height, before the cut to ten. *)
Lemma sorted_peaks_spec (x : list float) (found : list nat) :
  Forall (fun p => is_nan (nth p x S754_nan) = false) found ->
  let sorted :=
    take O found (rev (np_argsort (take S754_nan x found))) in
  Permutation sorted found
  /\ StronglySorted
       (fun p q => SFleb (nth q x S754_nan) (nth p x S754_nan) = true) sorted.
Proof.
  intros Hnan. set (mags := take S754_nan x found). intros sorted.
  assert (Hlen : length mags = length found) by apply length_map.
  assert (Hperm : Permutation sorted found).
  { change sorted with (map (fun i => nth i found O) (rev (np_argsort mags))).
    eapply perm_trans;
      [ apply Permutation_map; apply (visit_order mags _ Hlen) | ].
    rewrite map_nth_seq. apply Permutation_refl. }
  split; [ exact Hperm | ].
  assert (Hnan' : Forall (fun p => is_nan (nth p x S754_nan) = false) sorted).
  { eapply Permutation_Forall; [ apply Permutation_sym; exact Hperm | exact Hnan ]. }
  eapply (StronglySorted_strengthen
            (fun p q => np_lt (nth p x S754_nan) (nth q x S754_nan) = false)
            _ _ sorted _ Hnan').
  Unshelve.
  2: { intros p q Hp Hq H. cbv beta in *. apply SFleb_of_not_lt; assumption. }
  change sorted with (map (fun i => nth i found O) (rev (np_argsort mags))).
  destruct (argsort_descending mags) as (L & -> & Hval & Hsorted).
  rewrite map_map. apply StronglySorted_map.
  eapply (StronglySorted_strengthen _ _ _ L _ Hval Hsorted).
  Unshelve.
  intros p q (Hp1 & Hp2) (Hq1 & Hq2) H. cbv beta.
  unfold mags in Hp2, Hq2.
  rewrite nth_take in Hp2 by (rewrite <- Hlen; exact Hp1).
  rewrite nth_take in Hq2 by (rewrite <- Hlen; exact Hq1).
  rewrite <- Hp2, <- Hq2. exact H.
Qed.

(** C7, as the code has it.  The candidates are exactly the local maxima
    of height 0.1 at least, from left to right.  Among them [find_peaks] selects by
    priority, not by a scan from the left: two selected peaks are 50 bins
    apart at least, and every candidate left out is closer than 50 bins to
    a selected peak that is at least as high.  The result lists selected
    peaks in descending order of height, ten at most, and a selected peak
    is left out of it only when ten peaks at least as high are in it. *)
Theorem top_peaks_are_selected_by_height (x : list float) :
  let candidates :=
    Scipy.select_by_height x (F64.dec 1 1) (Scipy.local_maxima x) in
  let selected := Scipy.find_peaks x (F64.dec 1 1) 50 in
  let height p := nth p x S754_nan in
  StronglySorted lt candidates
  /\ (forall p, In p candidates <->
                 is_local_maximum x p
                 /\ SFleb (F64.dec 1 1) (height p) = true)
  /\ (forall p, In p selected -> In p candidates)
  /\ (forall p q, In p selected -> In q selected -> p <> q ->
                  50 <= bins_apart p q)
  /\ (forall c, In c candidates -> ~ In c selected ->
        exists p, In p selected /\ bins_apart c p < 50
                  /\ SFleb (height c) (height p) = true)
  /\ (length (top_peaks x) <= 10)%nat
  /\ StronglySorted (fun p q => SFleb (height q) (height p) = true)
                    (top_peaks x)
  /\ (forall p, In p (top_peaks x) -> In p selected)
  /\ (forall p, In p selected -> ~ In p (top_peaks x) ->
        length (top_peaks x) = 10%nat
        /\ forall q, In q (top_peaks x) ->
                     SFleb (height p) (height q) = true).
Proof.
  intros candidates selected height.
  destruct (candidates_spec x (F64.dec 1 1)) as [ Hinc Hcand ].
  destruct (find_peaks_spec x (F64.dec 1 1) 50)
    as (Hsel_inc & Hsub & Hapart & Hwhy).
  fold candidates in Hinc, Hcand, Hsub, Hwhy.
  fold selected in Hsel_inc, Hsub, Hapart, Hwhy.
  assert (Hnan : Forall (fun p => is_nan (nth p x S754_nan) = false) selected).
  { apply Forall_forall. intros p Hp. apply (SFleb_not_nan (F64.dec 1 1)).
    rewrite Forall_forall in Hcand. apply Hcand. apply Hsub. exact Hp. }
  destruct (sorted_peaks_spec x selected Hnan) as [ Hperm Hsorted ].
  set (sorted := take O selected
                   (rev (np_argsort (take S754_nan x selected)))) in *.
  change (top_peaks x) with (firstn 10 sorted).
  split; [ exact Hinc | ].
  split.
  { intros p. unfold candidates, Scipy.select_by_height.
    rewrite filter_In, local_maxima_exact. reflexivity. }
  split; [ exact Hsub | ]. split; [ exact Hapart | ].
  split; [ exact Hwhy | ].
  split; [ apply firstn_le_length | ].
  split; [ apply StronglySorted_firstn; exact Hsorted | ].
  split.
  - intros p Hp. apply (Permutation_in _ Hperm).
    rewrite <- (firstn_skipn 10 sorted). apply in_or_app. left. exact Hp.
  - intros p Hp Hnot.
    assert (Hin : In p sorted)
      by (apply (Permutation_in _ (Permutation_sym Hperm)); exact Hp).
    rewrite <- (firstn_skipn 10 sorted) in Hin, Hsorted.
    apply in_app_or in Hin. destruct Hin as [ Hin | Hin ]; [ contradiction | ].
    split.
    + rewrite length_firstn. apply Nat.min_l.
      destruct (Nat.le_gt_cases 10 (length sorted)) as [ H | H ]; [ exact H | ].
      rewrite skipn_all2 in Hin by lia. contradiction.
    + intros q Hq.
      exact (StronglySorted_app_between _ _ _ Hsorted q p Hq Hin).
Qed.

(** C7, refuted as stated: for a spectrum with a peak of 0.5 at bin 1 and a
    peak of 1.0 at bin 3, the code returns bin 3, the higher peak; the scan
    from the left of the claim accepts bin 1 first and returns it. *)
Lemma find_peaks_is_not_a_scan_from_the_left :
  top_peaks two_close_peaks = [3%nat]
  /\ Spec.find_peaks two_close_peaks = [1%nat].
Proof. split; reflexivity. Qed.

(** * Further properties of the backend *)

(** ** Comparisons of numbers that are not NaN *)

Lemma SFleb_key (a b : float) :
  SFleb a b = true <->
  is_nan a = false /\ is_nan b = false
  /\ ~ key_lt (sort_key b) (sort_key a).
Proof.
  split.
  - intros H. assert (Hb : is_nan b = false) by (eapply SFleb_not_nan; exact H).
    assert (Ha : is_nan a = false)
      by (destruct a; try reflexivity; discriminate).
    split; [ exact Ha | ]. split; [ exact Hb | ].
    revert H. unfold SFleb, SFcompare.
    destruct a as [ [ | ] | [ | ] | | [ | ] ma ea ]; try discriminate;
      destruct b as [ [ | ] | [ | ] | | [ | ] mb eb ]; try discriminate;
      cbn [sort_key key_lt]; try (intros _; lia);
      change (Pos.compare_cont Eq ma mb) with (Pos.compare ma mb);
      destruct (Z.compare_spec ea eb) as [ He | He | He ];
      destruct (Pos.compare_spec ma mb) as [ Hm | Hm | Hm ];
      cbn [CompOpp]; intros H'; try discriminate; lia.
  - intros (Ha & Hb & H). apply SFleb_of_not_lt; [ exact Ha | exact Hb | ].
    apply np_lt_false_key. exact H.
Qed.

Lemma SFleb_trans (a b c : float) :
  SFleb a b = true -> SFleb b c = true -> SFleb a c = true.
Proof.
  rewrite !SFleb_key. intros (Ha & Hb & Hab) (_ & Hc & Hbc).
  split; [ exact Ha | ]. split; [ exact Hc | ].
  eapply key_ge_trans; eassumption.
Qed.

Lemma SFleb_refl (a : float) : is_nan a = false -> SFleb a a = true.
Proof.
  intros Ha. apply SFleb_key. split; [ exact Ha | ]. split; [ exact Ha | ].
  destruct (sort_key a) as [[k1 k2] k3]. unfold key_lt. lia.
Qed.

Lemma SFleb_total (a b : float) :
  is_nan a = false -> is_nan b = false ->
  SFleb a b = false -> SFleb b a = true.
Proof.
  intros Ha Hb H. apply SFleb_key. split; [ exact Hb | ]. split; [ exact Ha | ].
  intros Hlt. assert (E : SFleb a b = true); [ | congruence ].
  apply SFleb_key. split; [ exact Ha | ]. split; [ exact Hb | ].
  apply key_lt_asym. exact Hlt.
Qed.

(** ** [np.argmin] and [np.argmax] on arrays without NaN *)

Lemma argmin_from_spec (l : list float) :
  Forall (fun x => is_nan x = false) l ->
  forall rest pre best best_i,
    l = pre ++ rest ->
    (best_i < length pre)%nat ->
    nth best_i l S754_nan = best ->
    (forall j, (j < length pre)%nat -> SFleb best (nth j l S754_nan) = true) ->
    let k := argmin_from best best_i (length pre) rest in
    (k < length l)%nat
    /\ forall j, (j < length l)%nat ->
                 SFleb (nth k l S754_nan) (nth j l S754_nan) = true.
Proof.
  intros Hnan. induction rest as [ | x rest IH ];
    intros pre best best_i Hl Hbi Hbest Hmin; cbn [argmin_from].
  - rewrite app_nil_r in Hl. subst pre. split; [ exact Hbi | ].
    intros j Hj. rewrite Hbest. apply Hmin. exact Hj.
  - assert (Hx : nth (length pre) l S754_nan = x).
    { rewrite Hl. rewrite app_nth2 by lia. rewrite Nat.sub_diag. reflexivity. }
    assert (Hxnan : is_nan x = false).
    { rewrite Forall_forall in Hnan. apply Hnan. rewrite Hl.
      apply in_or_app. right. left. reflexivity. }
    assert (Hbnan : is_nan best = false).
    { rewrite Forall_forall in Hnan. apply Hnan. rewrite <- Hbest.
      apply nth_In. rewrite Hl, length_app. lia. }
    assert (Hl' : l = (pre ++ [x]) ++ rest)
      by (rewrite <- app_assoc; exact Hl).
    assert (Hlen : length (pre ++ [x]) = S (length pre))
      by (rewrite length_app; simpl; lia).
    destruct (SFleb best x) eqn:Hle.
    + specialize (IH (pre ++ [x]) best best_i Hl').
      rewrite Hlen in IH. apply IH; [ lia | exact Hbest | ].
      intros j Hj. destruct (Nat.eq_dec j (length pre)) as [ -> | Hne ].
      * rewrite Hx. exact Hle.
      * apply Hmin. lia.
    + rewrite Hxnan.
      specialize (IH (pre ++ [x]) x (length pre) Hl').
      rewrite Hlen in IH. apply IH; [ lia | exact Hx | ].
      intros j Hj. destruct (Nat.eq_dec j (length pre)) as [ -> | Hne ].
      * rewrite Hx. apply SFleb_refl. exact Hxnan.
      * eapply SFleb_trans; [ | apply Hmin; lia ].
        apply SFleb_total; assumption.
Qed.

(** On an array without NaN, [np.argmin] returns the index of a minimum. *)
Lemma np_argmin_spec (l : list float) (k : nat) :
  Forall (fun x => is_nan x = false) l ->
  np_argmin l = Ok k ->
  (k < length l)%nat
  /\ forall j, (j < length l)%nat ->
               SFleb (nth k l S754_nan) (nth j l S754_nan) = true.
Proof.
  intros Hnan. destruct l as [ | x rest ]; cbn [np_argmin]; [ discriminate | ].
  assert (Hx : is_nan x = false) by (inversion Hnan; assumption).
  rewrite Hx. intros H. inversion H; subst k; clear H.
  apply (argmin_from_spec (x :: rest) Hnan rest [x] x O);
    [ reflexivity | simpl; lia | reflexivity | ].
  intros j Hj. simpl in Hj. replace j with O by lia. simpl.
  apply SFleb_refl. exact Hx.
Qed.

Lemma argmax_from_spec (l : list float) :
  Forall (fun x => is_nan x = false) l ->
  forall rest pre best best_i,
    l = pre ++ rest ->
    (best_i < length pre)%nat ->
    nth best_i l S754_nan = best ->
    (forall j, (j < length pre)%nat -> SFleb (nth j l S754_nan) best = true) ->
    let k := argmax_from best best_i (length pre) rest in
    (k < length l)%nat
    /\ forall j, (j < length l)%nat ->
                 SFleb (nth j l S754_nan) (nth k l S754_nan) = true.
Proof.
  intros Hnan. induction rest as [ | x rest IH ];
    intros pre best best_i Hl Hbi Hbest Hmax; cbn [argmax_from].
  - rewrite app_nil_r in Hl. subst pre. split; [ exact Hbi | ].
    intros j Hj. rewrite Hbest. apply Hmax. exact Hj.
  - assert (Hx : nth (length pre) l S754_nan = x).
    { rewrite Hl. rewrite app_nth2 by lia. rewrite Nat.sub_diag. reflexivity. }
    assert (Hxnan : is_nan x = false).
    { rewrite Forall_forall in Hnan. apply Hnan. rewrite Hl.
      apply in_or_app. right. left. reflexivity. }
    assert (Hbnan : is_nan best = false).
    { rewrite Forall_forall in Hnan. apply Hnan. rewrite <- Hbest.
      apply nth_In. rewrite Hl, length_app. lia. }
    assert (Hl' : l = (pre ++ [x]) ++ rest)
      by (rewrite <- app_assoc; exact Hl).
    assert (Hlen : length (pre ++ [x]) = S (length pre))
      by (rewrite length_app; simpl; lia).
    destruct (SFleb x best) eqn:Hle.
    + specialize (IH (pre ++ [x]) best best_i Hl').
      rewrite Hlen in IH. apply IH; [ lia | exact Hbest | ].
      intros j Hj. destruct (Nat.eq_dec j (length pre)) as [ -> | Hne ].
      * rewrite Hx. exact Hle.
      * apply Hmax. lia.
    + rewrite Hxnan.
      specialize (IH (pre ++ [x]) x (length pre) Hl').
      rewrite Hlen in IH. apply IH; [ lia | exact Hx | ].
      intros j Hj. destruct (Nat.eq_dec j (length pre)) as [ -> | Hne ].
      * rewrite Hx. apply SFleb_refl. exact Hxnan.
      * eapply SFleb_trans; [ apply Hmax; lia | ].
        apply SFleb_total; assumption.
Qed.

(** On an array without NaN, [np.argmax] returns the index of a maximum. *)
Lemma np_argmax_spec (l : list float) (k : nat) :
  Forall (fun x => is_nan x = false) l ->
  np_argmax l = Ok k ->
  (k < length l)%nat
  /\ forall j, (j < length l)%nat ->
               SFleb (nth j l S754_nan) (nth k l S754_nan) = true.
Proof.
  intros Hnan. destruct l as [ | x rest ]; cbn [np_argmax]; [ discriminate | ].
  assert (Hx : is_nan x = false) by (inversion Hnan; assumption).
  rewrite Hx. intros H. inversion H; subst k; clear H.
  apply (argmax_from_spec (x :: rest) Hnan rest [x] x O);
    [ reflexivity | simpl; lia | reflexivity | ].
  intros j Hj. simpl in Hj. replace j with O by lia. simpl.
  apply SFleb_refl. exact Hx.
Qed.

(** ** Rounding never produces NaN *)

Lemma shr_1_nonneg (mrs : shr_record) :
  0 <= shr_m mrs -> 0 <= shr_m (shr_1 mrs).
Proof.
  destruct mrs as [ m r s ]. cbn [shr_m shr_1].
  destruct m as [ | [ p | p | ] | p ]; cbn [shr_m]; lia.
Qed.

Lemma iter_shr_1_nonneg (p : positive) : forall mrs,
  0 <= shr_m mrs -> 0 <= shr_m (iter_pos shr_1 p mrs).
Proof.
  induction p as [ p IH | p IH | ]; intros mrs H; cbn [iter_pos].
  - apply IH, IH, shr_1_nonneg, H.
  - apply IH, IH, H.
  - apply shr_1_nonneg, H.
Qed.

Lemma shr_fexp_nonneg (prec emax m e : Z) (l : location) :
  0 <= m -> 0 <= shr_m (fst (shr_fexp prec emax m e l)).
Proof.
  intros H. unfold shr_fexp, shr.
  assert (H0 : 0 <= shr_m (shr_record_of_loc m l))
    by (destruct l as [ | [ | | ] ]; exact H).
  destruct (fexp prec emax (Zdigits2 m + e) - e) as [ | p | p ];
    cbn [fst]; [ exact H0 | | exact H0 ].
  apply iter_shr_1_nonneg, H0.
Qed.

Lemma round_nearest_even_nonneg (m : Z) (l : location) :
  0 <= m -> 0 <= round_nearest_even m l.
Proof.
  intros H. destruct l as [ | [ | | ] ]; cbn [round_nearest_even];
    [ | destruct (Z.even m) | | ]; lia.
Qed.

Lemma binary_round_aux_not_nan (prec emax : Z) (s : bool) (m e : Z)
    (l : location) :
  0 <= m -> is_nan (binary_round_aux prec emax s m e l) = false.
Proof.
  intros H. unfold binary_round_aux.
  pose proof (shr_fexp_nonneg prec emax m e l H) as H1.
  destruct (shr_fexp prec emax m e l) as [ mrs e' ]. cbn [fst] in H1.
  pose proof (shr_fexp_nonneg prec emax _ e' loc_Exact
                (round_nearest_even_nonneg _ (loc_of_shr_record mrs) H1))
    as H2.
  destruct (shr_fexp prec emax _ e' loc_Exact) as [ mrs' e'' ].
  cbn [fst] in H2.
  destruct (shr_m mrs') as [ | p | p ]; [ reflexivity | | lia ].
  destruct (e'' <=? emax - prec); reflexivity.
Qed.

Lemma binary_normalize_not_nan (prec emax m e : Z) (z : bool) :
  is_nan (binary_normalize prec emax m e z) = false.
Proof.
  unfold binary_normalize, binary_round.
  destruct m as [ | p | p ]; [ reflexivity | | ];
    destruct (shl_align _ _ _) as [ mz ez ];
    apply binary_round_aux_not_nan; lia.
Qed.

(** The difference of two numbers is not NaN. *)
Lemma sub_not_nan (x y : float) :
  is_finite x = true -> is_finite y = true -> is_nan (F64.sub x y) = false.
Proof.
  unfold F64.sub, SFsub.
  destruct x as [ sx | sx | | sx mx ex ]; try discriminate;
    destruct y as [ sy | sy | | sy my ey ]; try discriminate; intros _ _;
    try reflexivity.
  - destruct sx, sy; reflexivity.
  - apply binary_normalize_not_nan.
Qed.

Lemma sub_diag (x : float) :
  is_finite x = true -> is_zero (F64.sub x x) = true.
Proof.
  unfold F64.sub, SFsub.
  destruct x as [ [ | ] | | | s m e ]; try discriminate; intros _;
    try reflexivity.
  rewrite Z.sub_diag. reflexivity.
Qed.

Lemma is_nan_abs (x : float) : is_nan (SFabs x) = is_nan x.
Proof. destruct x; reflexivity. Qed.

Lemma abs_le_zero (x z : float) :
  is_zero z = true -> SFleb (SFabs x) (SFabs z) = true -> is_zero x = true.
Proof.
  destruct z; try discriminate. intros _.
  destruct x as [ | [ | ] | | ]; cbn; intros H;
    solve [ reflexivity | discriminate H ].
Qed.

(** ** The verdict of the verifier *)

Lemma verify_peaks_closest (peaks : list float) (e tol : float)
    (r : verification) :
  Forall (fun f => is_nan (F64.sub f e) = false) peaks ->
  verify_peaks peaks e tol = Ok r ->
  In (detected_frequency r) peaks
  /\ (forall f, In f peaks ->
        SFleb (SFabs (F64.sub (detected_frequency r) e))
              (SFabs (F64.sub f e)) = true)
  /\ error_percent r
     = F64.mul (F64.div (SFabs (F64.sub (detected_frequency r) e)) e)
               (F64.of_Z 100)
  /\ is_accurate r
     = SFleb (F64.div (SFabs (F64.sub (detected_frequency r) e)) e) tol.
Proof.
  intros Hnan H. unfold verify_peaks in H. inv_bind H.
  inversion H; subst r; clear H. cbn [detected_frequency error_percent
                                       is_accurate].
  set (dist := fun f => SFabs (F64.sub f e)) in *.
  assert (Hd : Forall (fun x => is_nan x = false) (map dist peaks)).
  { rewrite Forall_forall in *. intros x Hx. apply in_map_iff in Hx.
    destruct Hx as (f & <- & Hf). unfold dist. rewrite is_nan_abs.
    apply Hnan, Hf. }
  destruct (np_argmin_spec _ _ Hd Hv) as [ Hk Hmin ].
  rewrite length_map in Hk, Hmin.
  assert (Hnth : forall j, (j < length peaks)%nat ->
                   nth j (map dist peaks) S754_nan
                   = dist (nth j peaks S754_nan)).
  { intros j Hj. rewrite (nth_indep _ S754_nan (dist S754_nan))
      by (rewrite length_map; exact Hj). apply map_nth. }
  split; [ apply nth_In; exact Hk | ].
  split; [ | split; reflexivity ].
  intros f Hf. destruct (In_nth _ _ S754_nan Hf) as (j & Hj & <-).
  specialize (Hmin j Hj). rewrite !Hnth in Hmin by assumption. exact Hmin.
Qed.

(** X1 ([verify_frequency_accuracy], lines 268 to 270): when no difference
    between a peak and the expected frequency is NaN, the detected
    frequency is one of the peaks, and no peak is closer to the expected
    frequency. *)
Theorem verify_peaks_detects_closest_peak (peaks : list float)
    (e tol : float) (r : verification) :
  Forall (fun f => is_nan (F64.sub f e) = false) peaks ->
  verify_peaks peaks e tol = Ok r ->
  In (detected_frequency r) peaks
  /\ forall f, In f peaks ->
       SFleb (SFabs (F64.sub (detected_frequency r) e))
             (SFabs (F64.sub f e)) = true.
Proof.
  intros Hnan H.
  destruct (verify_peaks_closest peaks e tol r Hnan H) as (H1 & H2 & _).
  split; assumption.
Qed.

Lemma verify_peaks_detects_closest_peak_witness :
  let peaks := [F64.of_Z 430; F64.of_Z 445; F64.of_Z 880] in
  let r := {| expected_frequency := F64.of_Z 440;
              detected_frequency := F64.of_Z 445;
              error_percent :=
                F64.mul (F64.div (F64.of_Z 5) (F64.of_Z 440)) (F64.of_Z 100);
              is_accurate := true;
              tolerance_percent := F64.mul (F64.dec 2 2) (F64.of_Z 100) |} in
  verify_peaks peaks (F64.of_Z 440) (F64.dec 2 2) = Ok r
  /\ In (detected_frequency r) peaks
  /\ forall f, In f peaks ->
       SFleb (SFabs (F64.sub (detected_frequency r) (F64.of_Z 440)))
             (SFabs (F64.sub f (F64.of_Z 440))) = true.
Proof.
  intros peaks r.
  assert (H : verify_peaks peaks (F64.of_Z 440) (F64.dec 2 2) = Ok r)
    by (vm_compute; reflexivity).
  split; [ exact H | ].
  apply (verify_peaks_detects_closest_peak peaks (F64.of_Z 440) (F64.dec 2 2));
    [ | exact H ].
  repeat constructor.
Defined.

(** X2 ([verify_frequency_accuracy], lines 269 to 273): when the expected
    frequency, a number other than 0, is itself among the peaks and every
    peak is a number, the error is zero and the verdict is [accurate] for
    every tolerance that is not negative. *)
Theorem expected_peak_is_verified (peaks : list float) (e tol : float)
    (r : verification) :
  In e peaks ->
  is_finite e = true -> is_zero e = false ->
  Forall (fun f => is_finite f = true) peaks ->
  SFleb F64.zero tol = true ->
  verify_peaks peaks e tol = Ok r ->
  is_zero (error_percent r) = true /\ is_accurate r = true.
Proof.
  intros He Hfin Hnz Hpeaks Htol H.
  assert (Hnan : Forall (fun f => is_nan (F64.sub f e) = false) peaks).
  { rewrite Forall_forall in *. intros f Hf. apply sub_not_nan;
      [ apply Hpeaks, Hf | exact Hfin ]. }
  destruct (verify_peaks_closest peaks e tol r Hnan H)
    as (_ & Hmin & Herr & Hacc).
  specialize (Hmin e He).
  apply abs_le_zero in Hmin; [ | destruct (F64.sub e e) eqn:E; try reflexivity;
    pose proof (sub_diag e Hfin) as Hz; rewrite E in Hz; discriminate Hz ].
  rewrite Herr, Hacc.
  destruct (F64.sub (detected_frequency r) e) as [ s | | | ];
    try discriminate Hmin.
  destruct e as [ | | | se me ee ]; try discriminate.
  cbn [SFabs]. unfold F64.div. cbn [SFdiv xorb].
  split.
  - change (F64.of_Z 100) with (S754_finite false 7036874417766400 (-46)).
    reflexivity.
  - destruct tol as [ [ | ] | [ | ] | | [ | ] mt et ]; try discriminate Htol;
      destruct se; reflexivity.
Qed.

Lemma expected_peak_is_verified_witness :
  exists r,
    verify_peaks [F64.of_Z 430; F64.of_Z 440; F64.of_Z 880] (F64.of_Z 440)
                 (F64.dec 2 2) = Ok r
    /\ is_zero (error_percent r) = true /\ is_accurate r = true.
Proof.
  eexists. split; [ vm_compute; reflexivity | ].
  apply (expected_peak_is_verified
           [F64.of_Z 430; F64.of_Z 440; F64.of_Z 880] (F64.of_Z 440)
           (F64.dec 2 2));
    [ right; left; reflexivity | reflexivity | reflexivity
    | repeat constructor | reflexivity | vm_compute; reflexivity ].
Defined.

(** ** The mix in exact arithmetic *)

Lemma f32_round_le (z : Z) : Z.abs z <= 2 ^ 24 -> f32_round z = z.
Proof.
  intros H. destruct (Z.eq_dec (Z.abs z) (2 ^ 24)) as [ E | E ].
  - change (2 ^ 24) with 16777216 in E.
    assert (Hz : z = 16777216 \/ z = -16777216) by lia.
    destruct Hz as [ -> | -> ]; vm_compute; reflexivity.
  - apply f32_round_small. lia.
Qed.

Lemma generate_sine_wave_range np_sin sr f d a (b : list Z) :
  generate_sine_wave np_sin sr f d a = Ok b ->
  Forall (fun s => INT16_MIN <= s <= INT16_MAX) b.
Proof.
  unfold generate_sine_wave. intros H.
  inv_bind H. inv_bind H. inv_bind H. inv_bind H.
  inversion H; subst b. apply Forall_forall. intros s Hs.
  apply in_map_iff in Hs. destruct Hs as (ti & <- & _).
  apply astype_int16_range.
Qed.

Lemma track_samples_range np_sin sr track (samples : list Z) :
  track_samples np_sin sr track = Ok samples ->
  Forall (fun s => INT16_MIN <= s <= INT16_MAX) samples.
Proof.
  intros H. destruct (track_samples_amplitude _ _ _ _ H) as (v & _ & Hg).
  eapply generate_sine_wave_range. exact Hg.
Qed.

Lemma contribution_range np_sin sr track (i : nat) (v : Z) :
  contribution np_sin sr track i = Some v -> -32768 <= v <= 32767.
Proof.
  unfold contribution.
  destruct (start_sample_of sr track) as [ start | e ]; [ | discriminate ].
  destruct (track_samples np_sin sr track) as [ samples | e ] eqn:Hs;
    [ | discriminate ].
  destruct (_ && _); [ | discriminate ].
  intros H. inversion H; clear H.
  pose proof (track_samples_range _ _ _ _ Hs) as Hr.
  rewrite Forall_forall in Hr.
  destruct (nth_in_or_default (Z.to_nat (Z.of_nat i - start)) samples 0)
    as [ Hin | -> ]; [ | lia ].
  apply Hr in Hin. unfold INT16_MIN, INT16_MAX in Hin. exact Hin.
Qed.

Lemma accumulate_exact np_sin sr (i : nat) (tracks : list Track) :
  forall acc,
    Z.abs acc + 32768 * Z.of_nat (length tracks) <= 2 ^ 24 ->
    let exact :=
      fold_left (fun acc t => acc + match contribution np_sin sr t i with
                                    | Some v => v
                                    | None => 0
                                    end) tracks acc in
    fold_left (fun acc t => accumulate acc (contribution np_sin sr t i))
              tracks acc = exact
    /\ Z.abs exact <= Z.abs acc + 32768 * Z.of_nat (length tracks).
Proof.
  induction tracks as [ | t tracks IH ]; intros acc Hacc.
  - cbn [fold_left length]. split; [ reflexivity | lia ].
  - cbn [fold_left]. cbn [length] in Hacc |- *.
    destruct (contribution np_sin sr t i) as [ v | ] eqn:Hc;
      cbn [accumulate].
    + apply contribution_range in Hc.
      rewrite f32_round_le by lia.
      destruct (IH (acc + v)) as [ H1 H2 ]; [ lia | ].
      split; [ exact H1 | lia ].
    + rewrite Z.add_0_r.
      destruct (IH acc) as [ H1 H2 ]; [ lia | ].
      split; [ exact H1 | lia ].
Qed.

(** X3 ([generate_multi_track], lines 99 to 113): with at most 512 tracks,
    none starting before sample 0, the [float32] buffer loses nothing: before
    the normalisation every sample is the exact sum of the samples the
    tracks add to it, and is at most 32768 times the number of tracks in
    size. *)
Theorem mix_of_few_tracks_is_exact np_sin sr (tracks : list Track)
    (mixed : list Z) (i : nat) :
  mix_before_normalisation np_sin sr tracks = Ok mixed ->
  forallb (starts_at_or_after_zero sr) tracks = true ->
  (length tracks <= 512)%nat ->
  (i < length mixed)%nat ->
  nth i mixed 0 = summed_sample np_sin sr tracks i
  /\ Z.abs (nth i mixed 0) <= 32768 * Z.of_nat (length tracks).
Proof.
  intros H Hstart Hfew Hi. unfold mix_before_normalisation in H.
  inv_bind H. inv_bind H. apply np_zeros_ok in Hv0. destruct Hv0 as [ _ -> ].
  pose proof (mix_loop_length _ _ _ _ _ H) as Hlen.
  rewrite (mix_loop_nth _ _ _ _ _ _ H Hstart) by (rewrite <- Hlen; exact Hi).
  assert (E : nth i (repeat 0 (Z.to_nat v)) 0 = 0).
  { destruct (nth_in_or_default i (repeat 0 (Z.to_nat v)) 0) as [ Hin | E ];
      [ apply repeat_spec in Hin; exact Hin | exact E ]. }
  rewrite E.
  destruct (accumulate_exact np_sin sr i tracks 0) as [ H1 H2 ].
  { change (2 ^ 24) with 16777216. lia. }
  unfold summed_sample. split; [ exact H1 | ].
  rewrite H1. cbn [Z.abs] in H2. lia.
Qed.

Lemma mix_of_few_tracks_is_exact_witness :
  mix_before_normalisation small_angle_sin 8 [slow_note; slow_note]
  = Ok [0; 5146; 10294; 15440]
  /\ nth 2 [0; 5146; 10294; 15440] 0
     = summed_sample small_angle_sin 8 [slow_note; slow_note] 2
  /\ Z.abs (nth 2 [0; 5146; 10294; 15440] 0) <= 32768 * 2.
Proof.
  assert (H : mix_before_normalisation small_angle_sin 8 [slow_note; slow_note]
              = Ok [0; 5146; 10294; 15440]) by (vm_compute; reflexivity).
  split; [ exact H | ].
  apply (mix_of_few_tracks_is_exact small_angle_sin 8 [slow_note; slow_note]
           [0; 5146; 10294; 15440] 2 H);
    [ vm_compute; reflexivity | simpl; lia | simpl; lia ].
Defined.

Lemma fold_add_perm {A : Type} (f : A -> Z) (l l' : list A) :
  Permutation l l' ->
  forall a, fold_left (fun acc t => acc + f t) l a
            = fold_left (fun acc t => acc + f t) l' a.
Proof.
  induction 1 as [ | x l l' _ IH | x y l | l l' l'' _ IH1 _ IH2 ]; intros a;
    cbn [fold_left].
  - reflexivity.
  - apply IH.
  - replace (a + f y + f x) with (a + f x + f y) by lia. reflexivity.
  - rewrite IH1. apply IH2.
Qed.

(** X4 ([generate_multi_track], lines 99 to 113): with at most 512 tracks,
    none starting before sample 0, the order of the tracks does not change
    the mix: two orders of the same tracks give the same samples before the
    normalisation. *)
Theorem order_of_few_tracks_does_not_matter np_sin sr
    (tracks tracks' : list Track) (mixed mixed' : list Z) (i : nat) :
  Permutation tracks tracks' ->
  mix_before_normalisation np_sin sr tracks = Ok mixed ->
  mix_before_normalisation np_sin sr tracks' = Ok mixed' ->
  forallb (starts_at_or_after_zero sr) tracks = true ->
  (length tracks <= 512)%nat ->
  (i < length mixed)%nat -> (i < length mixed')%nat ->
  nth i mixed 0 = nth i mixed' 0.
Proof.
  intros Hperm H H' Hstart Hfew Hi Hi'.
  assert (Hstart' : forallb (starts_at_or_after_zero sr) tracks' = true).
  { rewrite forallb_forall in *. intros t Ht. apply Hstart.
    apply (Permutation_in _ (Permutation_sym Hperm)). exact Ht. }
  assert (Hfew' : (length tracks' <= 512)%nat)
    by (rewrite <- (Permutation_length Hperm); exact Hfew).
  assert (Hnth : forall ts m,
             mix_before_normalisation np_sin sr ts = Ok m ->
             forallb (starts_at_or_after_zero sr) ts = true ->
             (length ts <= 512)%nat -> (i < length m)%nat ->
             nth i m 0 = summed_sample np_sin sr ts i).
  { intros ts m Hm Hs Hf Hlt. unfold mix_before_normalisation in Hm.
    inv_bind Hm. inv_bind Hm. apply np_zeros_ok in Hv0.
    destruct Hv0 as [ _ -> ].
    pose proof (mix_loop_length _ _ _ _ _ Hm) as Hlen.
    rewrite (mix_loop_nth _ _ _ _ _ _ Hm Hs) by (rewrite <- Hlen; exact Hlt).
    assert (E : nth i (repeat 0 (Z.to_nat v)) 0 = 0).
    { destruct (nth_in_or_default i (repeat 0 (Z.to_nat v)) 0) as [ Hin | E ];
        [ apply repeat_spec in Hin; exact Hin | exact E ]. }
    rewrite E.
    destruct (accumulate_exact np_sin sr i ts 0) as [ H1 _ ];
      [ change (2 ^ 24) with 16777216; lia | exact H1 ]. }
  rewrite (Hnth _ _ H Hstart Hfew Hi), (Hnth _ _ H' Hstart' Hfew' Hi').
  unfold summed_sample. apply fold_add_perm. exact Hperm.
Qed.

(** Two notes of different tones that sound together, at 8 samples per
    second: both orders give the mix 0, 3869, 7740, 11610. *)
Lemma order_of_few_tracks_does_not_matter_witness :
  track_samples small_angle_sin 8 slow_note = Ok [0; 2573; 5147; 7720]
  /\ track_samples small_angle_sin 8 soft_note = Ok [0; 1296; 2593; 3890]
  /\ exists mixed mixed',
       mix_before_normalisation small_angle_sin 8 [slow_note; soft_note]
       = Ok mixed
       /\ mix_before_normalisation small_angle_sin 8 [soft_note; slow_note]
          = Ok mixed'
       /\ nth 2 mixed 0 = 7740
       /\ nth 2 mixed 0 = nth 2 mixed' 0.
Proof.
  split; [ vm_compute; reflexivity | ].
  split; [ vm_compute; reflexivity | ].
  assert (H : mix_before_normalisation small_angle_sin 8
                [slow_note; soft_note] = Ok [0; 3869; 7740; 11610])
    by (vm_compute; reflexivity).
  assert (H' : mix_before_normalisation small_angle_sin 8
                 [soft_note; slow_note] = Ok [0; 3869; 7740; 11610])
    by (vm_compute; reflexivity).
  eexists. eexists.
  split; [ exact H | ]. split; [ exact H' | ].
  split; [ reflexivity | ].
  apply (order_of_few_tracks_does_not_matter small_angle_sin 8
           [slow_note; soft_note] [soft_note; slow_note] _ _ 2
           (perm_swap _ _ _) H H');
    [ vm_compute; reflexivity | simpl; lia | simpl; lia | simpl; lia ].
Defined.

(** ** Muted tracks *)

Lemma muted_track_samples np_sin sr track (samples : list Z) :
  velocity track = 0 ->
  track_samples np_sin sr track = Ok samples ->
  Forall (fun s => s = 0) samples.
Proof.
  intros Hvel H.
  destruct (track_samples_amplitude _ _ _ _ H) as (v & Hv & Hg).
  rewrite Hvel in Hv. inversion Hv; subst v; clear Hv.
  replace (F64.mul (F64.of_Z 32767) (F64.div (F64.of_Z 0) (F64.of_Z 127)))
    with (S754_zero false) in Hg by (vm_compute; reflexivity).
  unfold generate_sine_wave in Hg.
  inv_bind Hg. inv_bind Hg. inv_bind Hg. inv_bind Hg.
  inversion Hg; subst samples. apply Forall_forall. intros s Hs.
  apply in_map_iff in Hs. destruct Hs as (ti & <- & _).
  destruct (np_sin _) as [ [ | ] | [ | ] | | [ | ] m e ]; reflexivity.
Qed.

Lemma add_from_zeros (xs : list Z) : forall lo ys,
  Forall (fun s => s = 0) xs -> Forall (fun s => s = 0) ys ->
  Forall (fun s => s = 0) (add_from xs lo ys).
Proof.
  induction xs as [ | x xs IH ]; intros lo ys Hx Hy; cbn [add_from].
  - constructor.
  - inversion Hx as [ | x' xs' Hx0 Hxs ]; subst.
    destruct lo as [ | lo ].
    + destruct ys as [ | y ys ]; [ exact Hx | ].
      inversion Hy as [ | y' ys' Hy0 Hys ]; subst.
      constructor; [ reflexivity | apply IH; assumption ].
    + constructor; [ reflexivity | apply IH; assumption ].
Qed.

Lemma mix_track_zeros np_sin sr (mixed mixed' : list Z) track :
  velocity track = 0 ->
  Forall (fun s => s = 0) mixed ->
  mix_track np_sin sr mixed track = Ok mixed' ->
  Forall (fun s => s = 0) mixed'.
Proof.
  intros Hvel Hz H.
  destruct (mix_track_ok _ _ _ _ _ H) as (start & samples & _ & Hs & Hadd).
  pose proof (muted_track_samples _ _ _ _ Hvel Hs) as Hsz.
  unfold slice_iadd in Hadd.
  destruct (slice_bounds _ _ _) as [ lo hi ].
  destruct (Nat.eqb _ _).
  - inversion Hadd. apply add_from_zeros; assumption.
  - destruct (Nat.eqb _ _); [ | discriminate ].
    inversion Hadd. apply add_from_zeros; [ exact Hz | ].
    apply Forall_forall. intros s Hin. apply repeat_spec in Hin. subst s.
    destruct Hsz as [ | s0 rest Hs0 _ ]; [ reflexivity | exact Hs0 ].
Qed.

Lemma mix_loop_zeros np_sin sr (tracks : list Track) :
  forall mixed mixed',
    Forall (fun t => velocity t = 0) tracks ->
    Forall (fun s => s = 0) mixed ->
    mix_loop np_sin sr mixed tracks = Ok mixed' ->
    Forall (fun s => s = 0) mixed'.
Proof.
  induction tracks as [ | t tracks IH ]; intros mixed mixed' Hvel Hz H;
    cbn [mix_loop] in H.
  - inversion H; subst. exact Hz.
  - inversion Hvel as [ | t' ts Ht Hts ]; subst. inv_bind H.
    eapply IH; [ exact Hts | | exact H ].
    eapply mix_track_zeros; eassumption.
Qed.

Lemma fold_max_zeros (l : list Z) :
  Forall (fun s => s = 0) l -> fold_left Z.max (map Z.abs l) 0 = 0.
Proof.
  induction l as [ | y l IH ]; intros Hl; [ reflexivity | ].
  inversion Hl as [ | y' l' Hy Hl' ]; subst. cbn [map fold_left Z.abs Z.max].
  apply IH. exact Hl'.
Qed.

Lemma np_max_Z_zeros (l : list Z) (p : Z) :
  Forall (fun s => s = 0) l -> np_max_Z (map Z.abs l) = Ok p -> p = 0.
Proof.
  intros Hz. destruct l as [ | x l ]; cbn [map np_max_Z]; [ discriminate | ].
  inversion Hz as [ | x' l' Hx Hl ]; subst. intros H.
  inversion H as [ Hp ]. cbn [Z.abs]. apply fold_max_zeros. exact Hl.
Qed.

Lemma muted_mix_is_zero np_sin sr (tracks : list Track)
    (out : list Z) :
  Forall (fun t => velocity t = 0) tracks ->
  generate_multi_track np_sin sr tracks = Ok out ->
  Forall (fun s => s = 0) out.
Proof.
  intros Hvel H. rewrite generate_multi_track_split in H. inv_bind H.
  rename v into mixed. unfold mix_before_normalisation in Hv.
  inv_bind Hv. inv_bind Hv. apply np_zeros_ok in Hv1.
  destruct Hv1 as [ _ -> ].
  assert (Hz : Forall (fun s => s = 0) mixed).
  { eapply mix_loop_zeros; [ exact Hvel | | exact Hv ].
    apply Forall_forall. intros s Hs. apply repeat_spec in Hs. exact Hs. }
  destruct (normalize_cases _ _ H) as (peak & Hpeak & ->).
  rewrite (np_max_Z_zeros _ _ Hz Hpeak). cbn [Z.ltb Z.compare].
  apply Forall_forall. intros s Hs. apply in_map_iff in Hs.
  destruct Hs as (x & <- & Hx). rewrite Forall_forall in Hz.
  rewrite (Hz x Hx). reflexivity.
Qed.

(** X5 ([generate_multi_track], lines 102 to 121): when every track has
    velocity 0, a mix that is returned is silent: all its samples are 0,
    whatever the sine function returns. *)
Theorem muted_tracks_mix_to_silence np_sin sr (tracks : list Track)
    (out : list Z) :
  Forall (fun t => velocity t = 0) tracks ->
  generate_multi_track np_sin sr tracks = Ok out ->
  Forall (fun s => s = 0) out.
Proof. apply muted_mix_is_zero. Qed.

Lemma muted_tracks_mix_to_silence_witness :
  exists out,
    generate_multi_track small_angle_sin 44100 [muted_note; muted_note]
    = Ok out
    /\ length out = 44%nat
    /\ Forall (fun s => s = 0) out.
Proof.
  eexists. split; [ vm_compute; reflexivity | ].
  split; [ reflexivity | ].
  apply (muted_tracks_mix_to_silence small_angle_sin 44100
           [muted_note; muted_note]);
    [ repeat constructor | vm_compute; reflexivity ].
Defined.

(** ** A buffer without samples *)

(** X6 ([generate_multi_track], lines 95 to 116): when the total length
    comes to 0 samples, no mix is returned: an error of the loop is raised,
    or else the maximum of the empty buffer raises ValueError. *)
Theorem mix_without_samples_raises np_sin sr (tracks : list Track) :
  total_samples_of sr tracks = Ok 0 ->
  exists e,
    generate_multi_track np_sin sr tracks = Raise e
    /\ (forall mixed, mix_loop np_sin sr [] tracks = Ok mixed ->
          e = ValueError "zero-size array to reduction operation maximum which has no identity").
Proof.
  intros Htot. rewrite generate_multi_track_split.
  unfold mix_before_normalisation. rewrite Htot. cbn [bind].
  change (np_zeros 0) with (Ok (@nil Z)). cbn [bind].
  destruct (mix_loop np_sin sr [] tracks) as [ mixed | e ] eqn:Hloop;
    cbn [bind].
  - apply mix_loop_length in Hloop. destruct mixed; [ | discriminate Hloop ].
    eexists. split; [ reflexivity | ]. intros; reflexivity.
  - exists e. split; [ reflexivity | ]. intros mixed Hm. discriminate Hm.
Qed.

Lemma mix_without_samples_raises_witness :
  generate_multi_track small_angle_sin 44100 [empty_note]
  = Raise (ValueError "zero-size array to reduction operation maximum which has no identity").
Proof.
  destruct (mix_without_samples_raises small_angle_sin 44100 [empty_note])
    as (e & He & Hloop); [ vm_compute; reflexivity | ].
  rewrite He. f_equal. apply (Hloop []). vm_compute. reflexivity.
Defined.

(** ** A track that starts before time 0 *)

(** X7 ([generate_multi_track], lines 103 to 113): a track whose first and
    last sample indices are both negative is not rejected; by Python's
    slicing it is added to the end of the buffer, from index
    [len(mixed) + start_sample] on. *)
Theorem early_track_is_written_from_the_end np_sin sr (mixed : list Z)
    (track : Track) (start : Z) (samples : list Z) :
  start_sample_of sr track = Ok start ->
  track_samples np_sin sr track = Ok samples ->
  start + Z.of_nat (length samples) < 0 ->
  - Z.of_nat (length mixed) <= start ->
  mix_track np_sin sr mixed track
  = Ok (add_from mixed (Z.to_nat (Z.of_nat (length mixed) + start)) samples).
Proof.
  intros Hs Hsmp Hend Hlen.
  unfold mix_track. unfold start_sample_of in Hs. unfold track_samples in Hsmp.
  destruct (float_mul_int (start_time track) sr) as [ x | e ];
    cbn [bind] in Hs |- *; [ | discriminate ].
  rewrite Hs; cbn [bind].
  destruct (int_div_float (velocity track) (F64.of_Z 127)) as [ v | e ];
    cbn [bind] in Hsmp |- *; [ | discriminate ].
  destruct (int_mul_float 32767 v) as [ a | e ];
    cbn [bind] in Hsmp |- *; [ | discriminate ].
  rewrite Hsmp; cbn [bind].
  unfold slice_iadd, slice_bounds, slice_index.
  destruct (Z.ltb_spec start 0) as [ _ | ? ]; [ | lia ].
  destruct (Z.ltb_spec (start + Z.of_nat (length samples)) 0) as [ _ | ? ];
    [ | lia ].
  replace (Z.to_nat (Z.max (Z.max (start + Z.of_nat (length mixed)) 0)
                           (Z.max (start + Z.of_nat (length samples)
                                   + Z.of_nat (length mixed)) 0)
                     - Z.max (start + Z.of_nat (length mixed)) 0))
    with (length samples) by lia.
  rewrite Nat.eqb_refl. do 2 f_equal. lia.
Qed.

Lemma early_track_is_written_from_the_end_witness :
  exists samples,
    track_samples small_angle_sin 44100 early_note = Ok samples
    /\ start_sample_of 44100 early_note = Ok (-44)
    /\ length samples = 22%nat
    /\ mix_track small_angle_sin 44100 (repeat 0 100) early_note
       = Ok (add_from (repeat 0 100) 56 samples).
Proof.
  eexists. split; [ vm_compute; reflexivity | ].
  split; [ vm_compute; reflexivity | ].
  split; [ reflexivity | ].
  apply (early_track_is_written_from_the_end small_angle_sin 44100
           (repeat 0 100) early_note (-44));
    [ vm_compute; reflexivity | vm_compute; reflexivity
    | vm_compute; reflexivity | vm_compute; discriminate ].
Defined.

(** ** The pitch extractor *)

Lemma nth_slice {A : Type} (a : list A) (lo hi : Z) (d : A) :
  0 <= lo <= hi -> hi <= Z.of_nat (length a) ->
  length (slice a lo hi) = Z.to_nat (hi - lo)
  /\ forall j, (j < Z.to_nat (hi - lo))%nat ->
               nth j (slice a lo hi) d = nth (Z.to_nat lo + j) a d.
Proof.
  intros H1 H2. unfold slice, slice_bounds, slice_index.
  destruct (Z.ltb_spec lo 0) as [ ? | _ ]; [ lia | ].
  destruct (Z.ltb_spec hi 0) as [ ? | _ ]; [ lia | ].
  replace (Z.min lo (Z.of_nat (length a))) with lo by lia.
  replace (Z.max lo (Z.min hi (Z.of_nat (length a)))) with hi by lia.
  split.
  - rewrite length_firstn, length_skipn. lia.
  - intros j Hj. rewrite nth_firstn.
    destruct (Nat.ltb_spec j (Z.to_nat (hi - lo))) as [ _ | ? ]; [ | lia ].
    apply nth_skipn.
Qed.

(** X8 ([_get_dominant_frequency], lines 95 to 111): when there are lags to
    search and the normalised autocorrelation has no NaN among them, the
    frequency returned is the sample rate over a searched lag at which the
    normalised autocorrelation is highest (0 if that lag is 0). *)
Theorem fundamental_lag_has_the_highest_autocorrelation
    (autocorr : list float) (sr : Z) (f : float) :
  let normalised :=
    map (fun a => F64.div a (hd S754_nan autocorr)) autocorr in
  let min_period := sr / 2000 in
  let max_period :=
    if Z.of_nat (length autocorr) <? sr / 50
    then Z.of_nat (length autocorr) - 1 else sr / 50 in
  0 <= sr ->
  min_period < max_period ->
  Forall (fun x => is_nan x = false) (slice normalised min_period max_period) ->
  fundamental_of autocorr sr = Ok f ->
  exists lag,
    min_period <= lag < max_period
    /\ f = (if 0 <? lag then F64.div (F64.of_Z sr) (F64.of_Z lag)
            else F64.zero)
    /\ forall k, min_period <= k < max_period ->
         SFleb (nth (Z.to_nat k) normalised S754_nan)
               (nth (Z.to_nat lag) normalised S754_nan) = true.
Proof.
  cbv zeta. intros Hsr Hlags Hnan H.
  assert (Hmin : 0 <= sr / 2000) by (apply Z.div_pos; lia).
  unfold fundamental_of in H.
  destruct autocorr as [ | a0 rest ] eqn:E.
  { exfalso. cbn [length Z.of_nat] in Hlags.
    destruct (Z.ltb_spec 0 (sr / 50)); lia. }
  cbn [hd] in Hnan |- *.
  rewrite <- E in Hlags, Hnan, H |- *. rewrite length_map in H.
  set (min_period := sr / 2000) in *.
  set (max_period := if Z.of_nat (length autocorr) <? sr / 50
                     then Z.of_nat (length autocorr) - 1 else sr / 50) in *.
  set (normalised := map (fun a => F64.div a a0) autocorr) in *.
  destruct (Z.leb_spec max_period min_period) as [ ? | _ ]; [ lia | ].
  inv_bind H. rename v into i.
  assert (Hmax : max_period <= Z.of_nat (length normalised)).
  { unfold normalised. rewrite length_map. subst max_period.
    destruct (Z.ltb_spec (Z.of_nat (length autocorr)) (sr / 50)); lia. }
  destruct (nth_slice normalised min_period max_period S754_nan)
    as [ Hlen Hnth ]; [ lia | exact Hmax | ].
  destruct (np_argmax_spec _ _ Hnan Hv) as [ Hi Hbest ].
  rewrite Hlen in Hi, Hbest.
  exists (min_period + Z.of_nat i).
  split; [ lia | ]. split.
  - destruct (0 <? min_period + Z.of_nat i); inversion H; reflexivity.
  - intros k Hk.
    specialize (Hbest (Z.to_nat (k - min_period))).
    rewrite !Hnth in Hbest by lia.
    replace (Z.to_nat min_period + Z.to_nat (k - min_period))%nat
      with (Z.to_nat k) in Hbest by lia.
    replace (Z.to_nat (min_period + Z.of_nat i))
      with (Z.to_nat min_period + i)%nat by lia.
    apply Hbest. lia.
Qed.

Lemma fundamental_lag_has_the_highest_autocorrelation_witness :
  fundamental_of example_autocorrelation 8000 = Ok (F64.of_Z 1600)
  /\ exists lag,
       4 <= lag < 9
       /\ F64.of_Z 1600
          = (if 0 <? lag then F64.div (F64.of_Z 8000) (F64.of_Z lag)
             else F64.zero)
       /\ forall k, 4 <= k < 9 ->
            SFleb (nth (Z.to_nat k)
                       (map (fun a => F64.div a (F64.of_Z 1))
                            example_autocorrelation) S754_nan)
                  (nth (Z.to_nat lag)
                       (map (fun a => F64.div a (F64.of_Z 1))
                            example_autocorrelation) S754_nan) = true.
Proof.
  assert (H : fundamental_of example_autocorrelation 8000
              = Ok (F64.of_Z 1600)) by (vm_compute; reflexivity).
  split; [ exact H | ].
  apply (fundamental_lag_has_the_highest_autocorrelation
           example_autocorrelation 8000 (F64.of_Z 1600));
    [ lia | reflexivity | vm_compute; repeat constructor | exact H ].
Defined.

Section PitchOfShortSegments.

Variable hann : nat -> list float.
Variable correlate_full : list float -> list float -> list float.

(** The window has one weight for each sample, and the full correlation of
    a sequence of [n] numbers with itself has [2 n - 1] lags. *)
Hypothesis hann_length : forall n, length (hann n) = n.
Hypothesis correlate_length :
  forall a, length (correlate_full a a) = (2 * length a - 1)%nat.

(** X9 ([_get_dominant_frequency], lines 86 to 105): a segment of at most
    [sr // 2000 + 1] samples has no pitch: the frequency returned is 0, so
    that [_extract_tracks] makes no track of it. *)
Theorem short_segment_has_no_pitch (segment : list float) (sr : Z) :
  Z.of_nat (length segment) <= sr / 2000 + 1 ->
  get_dominant_frequency hann correlate_full segment sr = Ok F64.zero.
Proof.
  intros Hshort. unfold get_dominant_frequency.
  destruct (Nat.ltb_spec (length segment) 2) as [ _ | Hlong ];
    [ reflexivity | ].
  set (windowed := map _ (combine segment (hann (length segment)))).
  assert (Hw : length windowed = length segment).
  { unfold windowed. rewrite length_map, length_combine, hann_length. lia. }
  set (autocorr := skipn _ (correlate_full windowed windowed)).
  assert (Ha : length autocorr = length segment).
  { unfold autocorr. rewrite length_skipn, correlate_length, Hw.
    pose proof (Nat.div_mod_eq (2 * length segment - 1) 2) as Hd.
    pose proof (Nat.mod_upper_bound (2 * length segment - 1) 2) as Hm.
    lia. }
  unfold fundamental_of.
  destruct autocorr as [ | a0 rest ] eqn:E; [ simpl in Ha; lia | ].
  rewrite <- E in *. rewrite length_map, Ha.
  pose proof (Z.div_mod sr 50) as H50.
  pose proof (Z.mod_pos_bound sr 50) as M50.
  pose proof (Z.div_mod sr 2000) as H2000.
  pose proof (Z.mod_pos_bound sr 2000) as M2000.
  destruct (Z.ltb_spec (Z.of_nat (length segment)) (sr / 50)) as [ ? | ? ].
  - destruct (Z.leb_spec (Z.of_nat (length segment) - 1) (sr / 2000));
      [ reflexivity | lia ].
  - destruct (Z.leb_spec (sr / 50) (sr / 2000)); [ reflexivity | lia ].
Qed.

End PitchOfShortSegments.

Lemma short_segment_has_no_pitch_witness :
  get_dominant_frequency window_of_ones correlation_of_lengths
    (repeat (F64.dec 5 1) 23) 44100 = Ok F64.zero.
Proof.
  apply (short_segment_has_no_pitch window_of_ones correlation_of_lengths).
  - intros n. apply repeat_length.
  - intros a. unfold correlation_of_lengths. rewrite repeat_length. lia.
  - vm_compute. discriminate.
Defined.

Section ExtractedSegments.

Variable hann : nat -> list float.
Variable correlate_full : list float -> list float -> list float.

Lemma segment_of_later (y : list float) (sr : Z) (onset : float)
    (later : list float) (i : nat) (end_time f : float) :
  segment_of hann correlate_full y sr later i end_time f ->
  segment_of hann correlate_full y sr (onset :: later) (S i) end_time f.
Proof. intros H. exact H. Qed.

Lemma segment_of_first (y : list float) (sr : Z) (onset : float)
    (later : list float) (end_time f : float) (start_sample end_sample : Z) :
  match later with
  | next :: _ => Ok next
  | [] => int_div_int (Z.of_nat (length y)) sr
  end = Ok end_time ->
  py_int (F64.mul onset (F64.of_Z sr)) = Ok start_sample ->
  py_int (F64.mul end_time (F64.of_Z sr)) = Ok end_sample ->
  get_dominant_frequency hann correlate_full
    (slice y start_sample end_sample) sr = Ok f ->
  segment_of hann correlate_full y sr (onset :: later) O end_time f.
Proof.
  intros Hend Hs He Hf. split.
  - destruct later as [ | next later' ]; cbn [length Nat.ltb Nat.leb nth].
    + exact Hend.
    + inversion Hend. reflexivity.
  - exists start_sample, end_sample. cbn [nth]. repeat split; assumption.
Qed.

Lemma extract_from_spec (y : list float) (sr : Z) :
  forall onsets tracks,
    extract_from hann correlate_full y sr onsets = Ok tracks ->
    exists idx : list nat,
      StronglySorted lt idx
      /\ Forall2 (fun i t =>
           (i < length onsets)%nat
           /\ start_time t = nth i onsets S754_nan
           /\ velocity t = 100
           /\ SFltb F64.zero (frequency t) = true
           /\ (exists lag, sr / 2000 <= lag < sr / 50 /\ 0 < lag
                           /\ frequency t
                              = F64.div (F64.of_Z sr) (F64.of_Z lag))
           /\ exists end_time,
                segment_of hann correlate_full y sr onsets i end_time
                           (frequency t)
                /\ duration t = F64.sub end_time (start_time t))
           idx tracks
      /\ forall i, (i < length onsets)%nat -> ~ In i idx ->
           exists end_time f,
             segment_of hann correlate_full y sr onsets i end_time f
             /\ SFltb F64.zero f = false.
Proof.
  induction onsets as [ | onset later IH ]; intros tracks H;
    cbn [extract_from] in H.
  - inversion H. exists []. split; [ constructor | ].
    split; [ constructor | ]. intros i Hi. simpl in Hi. lia.
  - inv_bind H. inv_bind H. inv_bind H. inv_bind H. inv_bind H.
    rename v into end_time, v0 into start_sample, v1 into end_sample,
      v2 into f, v3 into rest.
    pose proof (segment_of_first y sr onset later end_time f start_sample
                  end_sample Hv Hv0 Hv1 Hv2) as Hseg.
    destruct (IH rest Hv3) as (idx & Hsorted & Hall & Hmissing).
    assert (Hsorted' : StronglySorted lt (map S idx)).
    { apply StronglySorted_map. clear - Hsorted.
      induction Hsorted as [ | a l _ IHs Ha ]; constructor;
        [ exact IHs | ].
      eapply Forall_impl; [ | exact Ha ]. intros b Hab. lia. }
    assert (Hall' : Forall2 (fun i t =>
           (i < length (onset :: later))%nat
           /\ start_time t = nth i (onset :: later) S754_nan
           /\ velocity t = 100
           /\ SFltb F64.zero (frequency t) = true
           /\ (exists lag, sr / 2000 <= lag < sr / 50 /\ 0 < lag
                           /\ frequency t
                              = F64.div (F64.of_Z sr) (F64.of_Z lag))
           /\ exists end_time,
                segment_of hann correlate_full y sr (onset :: later) i
                           end_time (frequency t)
                /\ duration t = F64.sub end_time (start_time t))
           (map S idx) rest).
    { clear - Hall. induction Hall as [ | i t idx rest Hit _ IHall ];
        cbn [map]; constructor; [ | exact IHall ].
      destruct Hit as (H1 & H2 & H3 & H4 & H5 & e & H6 & H7).
      split; [ simpl; lia | ]. split; [ exact H2 | ].
      split; [ exact H3 | ]. split; [ exact H4 | ]. split; [ exact H5 | ].
      exists e. split; [ apply segment_of_later; exact H6 | exact H7 ]. }
    assert (Hmissing' : forall i, (i < length (onset :: later))%nat ->
              i <> O -> ~ In i (map S idx) ->
              exists end_time f,
                segment_of hann correlate_full y sr (onset :: later) i
                           end_time f
                /\ SFltb F64.zero f = false).
    { intros [ | i ] Hi Hne Hnot; [ contradiction | ].
      destruct (Hmissing i) as (e & f' & Hs & Hf).
      - simpl in Hi. lia.
      - intros Hin. apply Hnot. apply in_map. exact Hin.
      - exists e, f'. split; [ apply segment_of_later; exact Hs | exact Hf ]. }
    destruct (SFltb F64.zero f) eqn:Hpos; inversion H; subst tracks; clear H.
    + exists (O :: map S idx). split.
      { constructor; [ exact Hsorted' | ]. apply Forall_forall.
        intros j Hj. apply in_map_iff in Hj. destruct Hj as (k & <- & _).
        lia. }
      split.
      { constructor; [ | exact Hall' ].
        cbn [velocity frequency duration start_time nth].
        split; [ simpl; lia | ]. split; [ reflexivity | ].
        split; [ reflexivity | ]. split; [ exact Hpos | ]. split.
        - destruct (dominant_frequency_lag _ _ _ _ _ Hv2) as [ -> | Hlag ];
            [ discriminate Hpos | exact Hlag ].
        - exists end_time. split; [ exact Hseg | reflexivity ]. }
      intros i Hi Hnot. apply Hmissing'; [ exact Hi | | ].
      * intros ->. apply Hnot. left. reflexivity.
      * intros Hin. apply Hnot. right. exact Hin.
    + exists (map S idx). split; [ exact Hsorted' | ].
      split; [ exact Hall' | ].
      intros i Hi Hnot. destruct (Nat.eq_dec i O) as [ -> | Hne ].
      * exists end_time, f. split; [ exact Hseg | exact Hpos ].
      * apply Hmissing'; assumption.
Qed.

(** X10 ([_extract_tracks], lines 55 to 80): the tracks extracted follow
    the onsets, in order and at most one for each: there are indices of
    onsets, strictly increasing, one for each track.  The track of an onset
    starts at that onset and lasts until the next onset, or until the end
    of the recording when the onset is the last; it has velocity 100 and
    the frequency of its segment, which is above 0 and is the sample rate
    over a lag from [sr // 2000] up to, but not including, [sr // 50].  An
    onset has no track only when the frequency of its segment is not above
    0. *)
Theorem extracted_tracks_follow_the_onsets
    (y : list float) (sr : Z) (onsets : list float) (tracks : list Track) :
  extract_tracks hann correlate_full y sr onsets = Ok tracks ->
  exists idx : list nat,
    StronglySorted lt idx
    /\ Forall2 (fun i t =>
         (i < length onsets)%nat
         /\ start_time t = nth i onsets S754_nan
         /\ velocity t = 100
         /\ SFltb F64.zero (frequency t) = true
         /\ (exists lag, sr / 2000 <= lag < sr / 50 /\ 0 < lag
                         /\ frequency t
                            = F64.div (F64.of_Z sr) (F64.of_Z lag))
         /\ exists end_time,
              segment_of hann correlate_full y sr onsets i end_time
                         (frequency t)
              /\ duration t = F64.sub end_time (start_time t))
         idx tracks
    /\ forall i, (i < length onsets)%nat -> ~ In i idx ->
         exists end_time f,
           segment_of hann correlate_full y sr onsets i end_time f
           /\ SFltb F64.zero f = false.
Proof. apply extract_from_spec. Qed.

End ExtractedSegments.

(** A recording of 100 samples with onsets at 0 s and 0.001 s: two tracks,
    the first of which lasts from its onset to the next one. *)
Lemma extracted_tracks_follow_the_onsets_witness :
  exists t1 t2,
    extract_tracks window_of_ones correlation_of_lengths
      (repeat (F64.dec 5 1) 100) 44100 [F64.zero; F64.dec 1 3] = Ok [t1; t2]
    /\ start_time t1 = F64.zero /\ start_time t2 = F64.dec 1 3
    /\ duration t1 = F64.sub (F64.dec 1 3) F64.zero
    /\ velocity t1 = 100 /\ velocity t2 = 100.
Proof.
  pose proof (extracted_tracks_follow_the_onsets
                window_of_ones correlation_of_lengths
                (repeat (F64.dec 5 1) 100) 44100 [F64.zero; F64.dec 1 3])
    as H.
  do 2 eexists.
  split; [ vm_compute; reflexivity | ].
  specialize (H _ ltac:(vm_compute; reflexivity)).
  destruct H as (idx & _ & Hall & _).
  inversion Hall as [ | i1 a l1 l (_ & _ & Hv1 & _) Hrest ]; subst.
  inversion Hrest as [ | i2 a' l2 l' (_ & _ & Hv2 & _) _ ]; subst.
  split; [ reflexivity | ]. split; [ reflexivity | ].
  split; [ reflexivity | ].
  split; [ exact Hv1 | exact Hv2 ].
Defined.

(** ** The spectrum that [compute_fft] returns *)

Lemma top_peaks_spec (x : list float) :
  (length (top_peaks x) <= 10)%nat
  /\ Forall (fun p => is_local_maximum x p
                      /\ SFleb (F64.dec 1 1) (nth p x S754_nan) = true)
            (top_peaks x)
  /\ StronglySorted
       (fun p q => SFleb (nth q x S754_nan) (nth p x S754_nan) = true)
       (top_peaks x).
Proof.
  destruct (candidates_spec x (F64.dec 1 1)) as [ _ Hcand ].
  destruct (find_peaks_spec x (F64.dec 1 1) 50) as (_ & Hsub & _ & _).
  set (selected := Scipy.find_peaks x (F64.dec 1 1) 50) in *.
  assert (Hsel : Forall (fun p => is_local_maximum x p
                      /\ SFleb (F64.dec 1 1) (nth p x S754_nan) = true)
                   selected).
  { apply Forall_forall. intros p Hp. rewrite Forall_forall in Hcand.
    apply Hcand, Hsub, Hp. }
  assert (Hnan : Forall (fun p => is_nan (nth p x S754_nan) = false) selected).
  { eapply Forall_impl; [ | exact Hsel ]. intros p [ _ Hp ].
    apply (SFleb_not_nan (F64.dec 1 1)). exact Hp. }
  destruct (sorted_peaks_spec x selected Hnan) as [ Hperm Hsorted ].
  set (sorted := take O selected
                   (rev (np_argsort (take S754_nan x selected)))) in *.
  change (top_peaks x) with (firstn 10 sorted).
  split; [ apply firstn_le_length | ].
  split; [ | apply StronglySorted_firstn; exact Hsorted ].
  apply Forall_forall. intros p Hp. rewrite Forall_forall in Hsel.
  apply Hsel. apply (Permutation_in _ Hperm).
  rewrite <- (firstn_skipn 10 sorted). apply in_or_app. left. exact Hp.
Qed.

Lemma spectrum_result_fields (freqs mags : list float) (d : fft_data) :
  spectrum_result freqs mags = Ok d ->
  exists m,
    np_max mags = Ok m
    /\ frequencies d = freqs
    /\ magnitude d = map (fun x => F64.div x m) mags
    /\ peak_frequencies d = take S754_nan freqs (top_peaks (magnitude d))
    /\ peak_magnitudes d
       = take S754_nan (magnitude d) (top_peaks (magnitude d)).
Proof.
  unfold spectrum_result. intros H. inv_bind H. exists v.
  inversion H; subst d; clear H.
  cbn [frequencies magnitude peak_frequencies peak_magnitudes].
  repeat split; try reflexivity. exact Hv.
Qed.

Lemma compute_fft_fields fft np_abs sr (samples : list Z) (d : fft_data) :
  compute_fft fft np_abs sr samples = Ok d ->
  samples <> []
  /\ length (frequencies d) = Nat.div (length samples) 2
  /\ spectrum_result (frequencies d)
       (map np_abs (firstn (Nat.div (length (fft samples)) 2) (fft samples)))
     = Ok d.
Proof.
  unfold compute_fft. intros H.
  destruct samples as [ | s rest ] eqn:E; [ discriminate | ].
  rewrite <- E in *. split; [ rewrite E; discriminate | ].
  inv_bind H. inv_bind H. rename v0 into freqs.
  assert (Hf : frequencies d = freqs).
  { destruct (spectrum_result_fields _ _ _ H) as (m & _ & Hf & _). exact Hf. }
  rewrite Hf. split; [ | exact H ].
  unfold fftfreq_half in Hv0. inv_bind Hv0.
  destruct v0; inversion Hv0; rewrite length_map, length_seq; reflexivity.
Qed.

(** X11 ([compute_fft], lines 152 to 179): the peaks that are reported are
    at most ten bins of the returned spectrum, never the first or the last
    one; each is reported with the frequency and the magnitude of its bin;
    the magnitudes are at least 0.1 and come in descending order. *)
Theorem reported_peaks_are_bins_of_the_spectrum
    (fft : list Z -> list complex) (np_abs : complex -> float)
    (sr : Z) (samples : list Z) (d : fft_data) :
  compute_fft fft np_abs sr samples = Ok d ->
  length (frequencies d) = Nat.div (length samples) 2
  /\ exists bins : list nat,
       (length bins <= 10)%nat
       /\ Forall (fun i => (0 < i)%nat /\ (i + 1 < length (magnitude d))%nat)
                 bins
       /\ peak_frequencies d
          = map (fun i => nth i (frequencies d) S754_nan) bins
       /\ peak_magnitudes d
          = map (fun i => nth i (magnitude d) S754_nan) bins
       /\ Forall (fun m => SFleb (F64.dec 1 1) m = true) (peak_magnitudes d)
       /\ StronglySorted (fun a b => SFleb b a = true) (peak_magnitudes d).
Proof.
  intros H. destruct (compute_fft_fields _ _ _ _ _ H) as (_ & Hlen & Hs).
  split; [ exact Hlen | ].
  destruct (spectrum_result_fields _ _ _ Hs) as (m & _ & _ & _ & Hpf & Hpm).
  destruct (top_peaks_spec (magnitude d)) as (Hten & Hpeak & Hsorted).
  exists (top_peaks (magnitude d)).
  split; [ exact Hten | ]. split.
  { eapply Forall_impl; [ | exact Hpeak ].
    intros p [ (l & r & H1 & H2 & H3 & Hp & _) _ ].
    assert (Hl : (l <= p)%nat) by (subst p; apply Nat.div_le_lower_bound; lia).
    assert (Hr : (p <= r)%nat)
      by (subst p; apply Nat.Div0.div_le_upper_bound; lia).
    lia. }
  split; [ exact Hpf | ]. split; [ exact Hpm | ].
  rewrite Hpm. unfold take. split.
  - apply Forall_map. eapply Forall_impl; [ | exact Hpeak ].
    intros p [ _ Hp ]. exact Hp.
  - apply StronglySorted_map. exact Hsorted.
Qed.

Lemma reported_peaks_are_bins_of_the_spectrum_witness :
  compute_fft transform_of_reals abs_of_real 44100
              [0; 5; 0; 10; 0; 0; 0; 0; 0; 0]
  = Ok {| frequencies := [F64.zero; F64.of_Z 4410; F64.of_Z 8820;
                          F64.of_Z 13230; F64.of_Z 17640];
          magnitude := two_close_peaks;
          peak_frequencies := [F64.of_Z 13230];
          peak_magnitudes := [F64.of_Z 1] |}
  /\ exists bins : list nat,
       (length bins <= 10)%nat
       /\ Forall (fun i => (0 < i)%nat /\ (i + 1 < 5)%nat) bins
       /\ [F64.of_Z 13230]
          = map (fun i => nth i [F64.zero; F64.of_Z 4410; F64.of_Z 8820;
                                  F64.of_Z 13230; F64.of_Z 17640] S754_nan)
                bins
       /\ [F64.of_Z 1] = map (fun i => nth i two_close_peaks S754_nan) bins
       /\ Forall (fun m => SFleb (F64.dec 1 1) m = true) [F64.of_Z 1]
       /\ StronglySorted (fun a b => SFleb b a = true) [F64.of_Z 1].
Proof.
  assert (H : compute_fft transform_of_reals abs_of_real 44100
                          [0; 5; 0; 10; 0; 0; 0; 0; 0; 0]
              = Ok {| frequencies := [F64.zero; F64.of_Z 4410; F64.of_Z 8820;
                                      F64.of_Z 13230; F64.of_Z 17640];
                      magnitude := two_close_peaks;
                      peak_frequencies := [F64.of_Z 13230];
                      peak_magnitudes := [F64.of_Z 1] |})
    by (vm_compute; reflexivity).
  split; [ exact H | ].
  exact (proj2 (reported_peaks_are_bins_of_the_spectrum
                  transform_of_reals abs_of_real 44100 _ _ H)).
Defined.

(** ** The normalisation of the spectrum *)

Lemma div_diag (s : bool) (m : positive) (e : Z) :
  F64.div (S754_finite s m e) (S754_finite s m e) = F64.of_Z 1.
Proof.
  unfold F64.div, SFdiv, SFdiv_core_binary.
  rewrite !Z.sub_diag.
  change (Z.min (fexp F64.prec F64.emax 0) 0) with (-53).
  change (0 - -53) with 53.
  rewrite Z.shiftl_mul_pow2 by lia.
  assert (Hq : Z.div_eucl (Zpos m * 2 ^ 53) (Zpos m) = (2 ^ 53, 0)).
  { pose proof (Z.div_mul (2 ^ 53) (Zpos m)) as Hd.
    pose proof (Z.mod_mul (2 ^ 53) (Zpos m)) as Hm.
    rewrite (Z.mul_comm (2 ^ 53)) in Hd, Hm.
    unfold Z.div in Hd. unfold Z.modulo in Hm.
    destruct (Z.div_eucl (Zpos m * 2 ^ 53) (Zpos m)) as [ q r ].
    rewrite Hd, Hm by discriminate. reflexivity. }
  rewrite Hq.
  assert (Hl : new_location (Zpos m) 0 = loc_Exact).
  { unfold new_location. destruct (Z.even (Zpos m)); reflexivity. }
  rewrite Hl. destruct s; vm_compute; reflexivity.
Qed.

Lemma np_max_in (l : list float) (m : float) : np_max l = Ok m -> In m l.
Proof.
  destruct l as [ | x rest ]; cbn [np_max]; [ discriminate | ].
  intros H. inversion H; clear H. clear.
  revert x. induction rest as [ | y rest IH ]; intros x; cbn [fold_left].
  - left. reflexivity.
  - destruct (IH (if is_nan x then x
                  else if is_nan y then y
                  else if SFltb x y then y else x)) as [ E | Hin ].
    + rewrite <- E.
      destruct (is_nan x); [ left; reflexivity | ].
      destruct (is_nan y); [ right; left; reflexivity | ].
      destruct (SFltb x y); [ right; left | left ]; reflexivity.
    + right. right. exact Hin.
Qed.

(** X12 ([compute_fft], line 160): when the highest magnitude is a number
    other than 0, the normalised spectrum has the same length and contains
    the value 1.0 exactly. *)
Theorem highest_magnitude_is_normalised_to_one
    (freqs mags : list float) (m : float) (d : fft_data) :
  np_max mags = Ok m ->
  is_finite m = true -> is_zero m = false ->
  spectrum_result freqs mags = Ok d ->
  length (magnitude d) = length mags /\ In (F64.of_Z 1) (magnitude d).
Proof.
  intros Hm Hfin Hnz H.
  destruct (spectrum_result_fields _ _ _ H) as (m' & Hm' & _ & Hmag & _).
  rewrite Hm in Hm'. inversion Hm'; subst m'; clear Hm'.
  rewrite Hmag. split; [ apply length_map | ].
  apply in_map_iff. exists m. split; [ | apply np_max_in; exact Hm ].
  destruct m as [ | | | s mm e ]; try discriminate. apply div_diag.
Qed.

Lemma highest_magnitude_is_normalised_to_one_witness :
  exists d,
    spectrum_result [F64.zero; F64.of_Z 4410; F64.of_Z 8820]
                    [F64.of_Z 3; F64.of_Z 7; F64.of_Z 5] = Ok d
    /\ length (magnitude d) = 3%nat /\ In (F64.of_Z 1) (magnitude d).
Proof.
  eexists. split; [ vm_compute; reflexivity | ].
  apply (highest_magnitude_is_normalised_to_one
           [F64.zero; F64.of_Z 4410; F64.of_Z 8820]
           [F64.of_Z 3; F64.of_Z 7; F64.of_Z 5] (F64.of_Z 7));
    [ vm_compute; reflexivity | reflexivity | reflexivity
    | vm_compute; reflexivity ].
Defined.

(** ** Buffers without a spectrum *)

(** X13 ([compute_fft], lines 152 to 160): a buffer of one sample has no
    spectrum: its one-sided half is empty, and [compute_fft] raises; at
    44100 Hz the error is the ValueError of the maximum of an empty
    array. *)
Theorem single_sample_has_no_spectrum
    (fft : list Z -> list complex) (np_abs : complex -> float)
    (sr : Z) (s : Z) :
  (length (fft [s]) <= 1)%nat ->
  exists e,
    compute_fft fft np_abs sr [s] = Raise e
    /\ (sr = 44100 ->
        e = ValueError "zero-size array to reduction operation maximum which has no identity").
Proof.
  intros Hlen. unfold compute_fft.
  assert (E : Nat.div (length (fft [s])) 2 = O)
    by (apply Nat.div_small; lia).
  rewrite E. cbn [firstn map].
  destruct (Z.eq_dec sr 44100) as [ -> | Hne ].
  - eexists. split; [ reflexivity | ]. intros _. reflexivity.
  - destruct (int_div_int 1 sr) as [ d | e ]; cbn [bind].
    + destruct (fftfreq_half (length [s]) d) as [ freqs | e ]; cbn [bind].
      * eexists. split; [ reflexivity | ]. intros; contradiction.
      * exists e. split; [ reflexivity | ]. intros; contradiction.
    + exists e. split; [ reflexivity | ]. intros; contradiction.
Qed.

Lemma single_sample_has_no_spectrum_witness :
  compute_fft fft_of_silence abs_of_real 44100 [7]
  = Raise (ValueError "zero-size array to reduction operation maximum which has no identity").
Proof.
  destruct (single_sample_has_no_spectrum fft_of_silence abs_of_real 44100 7)
    as (e & He & Hsr); [ simpl; lia | ].
  rewrite He, (Hsr eq_refl). reflexivity.
Defined.

Lemma spectrum_of_zero_transform
    (fft : list Z -> list complex) (np_abs : complex -> float)
    (sr : Z) (samples : list Z) (d : fft_data) :
  Forall (fun c => np_abs c = F64.zero) (fft samples) ->
  compute_fft fft np_abs sr samples = Ok d ->
  Forall (fun m => m = S754_nan) (magnitude d)
  /\ peak_frequencies d = [] /\ peak_magnitudes d = [].
Proof.
  intros Hzero H.
  destruct (compute_fft_fields _ _ _ _ _ H) as (_ & _ & Hs).
  rewrite (map_all_equal np_abs F64.zero) in Hs
    by (apply Forall_firstn; exact Hzero).
  destruct (length (firstn (Nat.div (length (fft samples)) 2) (fft samples)))
    as [ | n ]; [ discriminate Hs | ].
  rewrite spectrum_of_zeros in Hs. inversion Hs as [ Hd ].
  cbn [magnitude peak_frequencies peak_magnitudes].
  split; [ | split; reflexivity ].
  apply Forall_forall. intros m Hm.
  exact (repeat_spec (S n) S754_nan m Hm).
Qed.

(** X14 ([verify_frequency_accuracy], lines 265 to 269): when the transform
    of the buffer is zero everywhere and [compute_fft] returns, the
    verification returns no verdict: it raises the ValueError of [argmin]
    on an empty sequence, whatever the expected frequency and the
    tolerance. *)
Theorem silent_buffer_cannot_be_verified
    (fft : list Z -> list complex) (np_abs : complex -> float)
    (sr : Z) (samples : list Z) (d : fft_data) (expected tolerance : float) :
  Forall (fun c => np_abs c = F64.zero) (fft samples) ->
  compute_fft fft np_abs sr samples = Ok d ->
  verify_frequency_accuracy fft np_abs sr samples expected tolerance
  = Raise (ValueError "attempt to get argmin of an empty sequence").
Proof.
  intros Hzero H. unfold verify_frequency_accuracy. rewrite H. cbn [bind].
  destruct (spectrum_of_zero_transform _ _ _ _ _ Hzero H) as (_ & -> & _).
  reflexivity.
Qed.

Lemma silent_buffer_cannot_be_verified_witness :
  verify_frequency_accuracy fft_of_silence abs_of_real 44100 [0; 0; 0; 0]
    (F64.of_Z 440) (F64.dec 2 2)
  = Raise (ValueError "attempt to get argmin of an empty sequence").
Proof.
  eapply (silent_buffer_cannot_be_verified fft_of_silence abs_of_real 44100
            [0; 0; 0; 0]);
    [ repeat constructor | vm_compute; reflexivity ].
Defined.

(** ** The data for the graph *)

Lemma nth_every_nth_from {A : Type} (d : A) (step : nat) (a : list A) :
  (0 < step)%nat ->
  forall wait k,
    nth k (every_nth_from step wait a) d = nth (wait + k * step) a d.
Proof.
  intros Hstep. induction a as [ | x a IH ]; intros wait k;
    cbn [every_nth_from].
  - destruct k; destruct (wait + _)%nat; reflexivity.
  - destruct wait as [ | wait ].
    + destruct k as [ | k ]; [ reflexivity | ].
      cbn [nth]. rewrite IH.
      replace (0 + S k * step)%nat with (S (step - 1 + k * step)) by lia.
      reflexivity.
    + rewrite IH. reflexivity.
Qed.

Lemma length_every_nth_from {A : Type} (step : nat) (a : list A) :
  (0 < step)%nat ->
  forall wait k,
    (k < length (every_nth_from step wait a))%nat
    <-> (wait + k * step < length a)%nat.
Proof.
  intros Hstep. induction a as [ | x a IH ]; intros wait k;
    cbn [every_nth_from length].
  - lia.
  - destruct wait as [ | wait ].
    + destruct k as [ | k ]; cbn [length]; [ lia | ].
      specialize (IH (step - 1)%nat k). lia.
    + specialize (IH wait k). lia.
Qed.

Lemma length_stride_100 {A : Type} (a : list A) :
  length (stride a 100) = Nat.div (length a + 99) 100.
Proof.
  unfold stride.
  pose proof (length_every_nth_from 100 a ltac:(lia) 0) as H.
  set (n := length (every_nth_from 100 0 a)) in *.
  pose proof (H n) as Hn. pose proof (H (n - 1)%nat) as Hp.
  pose proof (Nat.div_mod_eq (length a + 99) 100) as Hd.
  pose proof (Nat.mod_upper_bound (length a + 99) 100) as Hm.
  lia.
Qed.

Lemma in_every_nth_from {A : Type} (step : nat) (a : list A) (x : A) :
  forall wait, In x (every_nth_from step wait a) -> In x a.
Proof.
  induction a as [ | y a IH ]; intros wait H; cbn [every_nth_from] in H.
  - contradiction.
  - destruct wait as [ | wait ].
    + destruct H as [ H | H ]; [ left; exact H | right; eapply IH, H ].
    + right. eapply IH, H.
Qed.

Lemma graph_data_fields fft np_abs sr (samples : list Z) (g : Graph.data) :
  generate_frequency_graph_data fft np_abs sr samples = Ok g ->
  exists d,
    compute_fft fft np_abs sr samples = Ok d
    /\ Graph.frequencies g = stride (frequencies d) 100
    /\ Graph.magnitudes g = stride (magnitude d) 100
    /\ Graph.peak_frequencies g = peak_frequencies d
    /\ Graph.peak_magnitudes g = peak_magnitudes d.
Proof.
  unfold generate_frequency_graph_data. intros H. inv_bind H.
  exists v. inversion H; subst g; clear H. repeat split. exact Hv.
Qed.

(** X15 ([generate_frequency_graph_data], lines 191 to 202): the graph keeps
    one bin in a hundred of the spectrum, the bins 0, 100, 200, ..., so one
    for each started hundred, and the peaks as [compute_fft] reports them,
    whether their bins are kept or not. *)
Theorem graph_data_keeps_every_hundredth_bin
    (fft : list Z -> list complex) (np_abs : complex -> float) (sr : Z)
    (samples : list Z) (g : Graph.data) :
  generate_frequency_graph_data fft np_abs sr samples = Ok g ->
  exists d,
    compute_fft fft np_abs sr samples = Ok d
    /\ Graph.peak_frequencies g = peak_frequencies d
    /\ Graph.peak_magnitudes g = peak_magnitudes d
    /\ length (Graph.frequencies g)
       = Nat.div (length (frequencies d) + 99) 100
    /\ length (Graph.magnitudes g)
       = Nat.div (length (magnitude d) + 99) 100
    /\ forall k,
         nth k (Graph.frequencies g) S754_nan
         = nth (100 * k) (frequencies d) S754_nan
         /\ nth k (Graph.magnitudes g) S754_nan
            = nth (100 * k) (magnitude d) S754_nan.
Proof.
  intros H.
  destruct (graph_data_fields _ _ _ _ _ H) as (d & Hd & Hf & Hm & Hpf & Hpm).
  exists d. split; [ exact Hd | ]. split; [ exact Hpf | ].
  split; [ exact Hpm | ]. rewrite Hf, Hm.
  split; [ apply length_stride_100 | ].
  split; [ apply length_stride_100 | ].
  intros k. unfold stride.
  rewrite !(nth_every_nth_from S754_nan 100) by lia.
  replace (0 + k * 100)%nat with (100 * k)%nat by lia.
  split; reflexivity.
Qed.

Lemma graph_data_keeps_every_hundredth_bin_witness :
  generate_frequency_graph_data transform_of_reals abs_of_real 44100
    [0; 5; 0; 10; 0; 0; 0; 0; 0; 0]
  = Ok {| Graph.frequencies := [F64.zero];
          Graph.magnitudes := [F64.zero];
          Graph.peak_frequencies := [F64.of_Z 13230];
          Graph.peak_magnitudes := [F64.of_Z 1] |}
  /\ exists d,
       compute_fft transform_of_reals abs_of_real 44100
                   [0; 5; 0; 10; 0; 0; 0; 0; 0; 0] = Ok d
       /\ [F64.of_Z 13230] = peak_frequencies d
       /\ length (frequencies d) = 5%nat.
Proof.
  assert (H : generate_frequency_graph_data transform_of_reals abs_of_real
                44100 [0; 5; 0; 10; 0; 0; 0; 0; 0; 0]
              = Ok {| Graph.frequencies := [F64.zero];
                      Graph.magnitudes := [F64.zero];
                      Graph.peak_frequencies := [F64.of_Z 13230];
                      Graph.peak_magnitudes := [F64.of_Z 1] |})
    by (vm_compute; reflexivity).
  split; [ exact H | ].
  destruct (graph_data_keeps_every_hundredth_bin _ _ _ _ _ H)
    as (d & Hd & Hpf & _).
  exists d. split; [ exact Hd | ]. split; [ exact Hpf | ].
  vm_compute in Hd. inversion Hd. reflexivity.
Defined.

(** ** The synthesis of a request ([process_track_input], [synthesize]) *)

Section Synthesis.

Variable np_sin : float -> float.
Variable fft : list Z -> list complex.
Variable np_abs : complex -> float.
Variable sr : Z.
Variable directory : Type.
Variable os_listdir : directory -> attempt (list string).
Variable wavfile_write :
  string -> Z -> list Z -> directory -> attempt unit * directory.
Variable output_path_of : string -> string.

Lemma process_track_input_success (track_data : option (list Track))
    (dir dir' : directory) (output : Output.data) :
  process_track_input np_sin fft np_abs sr directory os_listdir wavfile_write
    output_path_of track_data dir = (Success output, dir') ->
  exists samples names,
    generate_multi_track np_sin sr
      (match track_data with Some tracks => tracks | None => [] end)
    = Ok samples
    /\ os_listdir dir = Returned names
    /\ Output.wav_file output
       = ("output_" ++ str_of_int (Z.of_nat (length names)) ++ ".wav")%string
    /\ Output.wav_path output = output_path_of (Output.wav_file output)
    /\ wavfile_write (Output.wav_path output) sr samples dir
       = (Returned tt, dir')
    /\ generate_frequency_graph_data fft np_abs sr samples
       = Ok (Output.graph_data output)
    /\ compute_fft fft np_abs sr samples = Ok (Output.fft_data output)
    /\ Output.sample_count output = length samples
    /\ int_div_int (Z.of_nat (length samples)) sr
       = Ok (Output.duration output).
Proof.
  unfold process_track_input, save_wav. intros H.
  destruct (generate_multi_track np_sin sr _) as [ samples | e ] eqn:Hg;
    [ | discriminate H ].
  destruct (os_listdir dir) as [ names | msg ] eqn:Hl; [ | discriminate H ].
  destruct (wavfile_write _ sr samples dir) as [ [ [ ] | msg ] dir1 ] eqn:Hw;
    [ | discriminate H ].
  destruct (generate_frequency_graph_data fft np_abs sr samples)
    as [ g | e ] eqn:Hgraph; [ | discriminate H ].
  destruct (compute_fft fft np_abs sr samples) as [ d | e ] eqn:Hd;
    [ | discriminate H ].
  destruct (int_div_int _ sr) as [ t | e ] eqn:Ht; [ | discriminate H ].
  injection H as Ho Hdir. subst output dir1. exists samples, names.
  cbn [Output.wav_file Output.wav_path Output.graph_data Output.fft_data
       Output.sample_count Output.duration].
  repeat (split; [ first [ reflexivity | assumption ] | ]).
  exact Ht.
Qed.

(** X16 ([process_track_input], lines 214 to 249; [synthesize], lines 79 to
    94): a request changes the directory in one way only: by the one call
    of [wavfile.write] that saves the mix as [output_<n>.wav], [n] being the
    number of entries of the directory; and this happens only after the mix
    has been generated.  A request without tracks, or whose tracks cannot
    be mixed, leaves the directory as it was. *)
Theorem directory_changes_only_by_the_write_of_the_mix
    (request : request_json) (dir : directory) :
  let dir' :=
    snd (synthesize np_sin fft np_abs sr directory os_listdir wavfile_write
           output_path_of request dir) in
  dir' = dir
  \/ exists tracks samples names,
       request = Json (Some (Some tracks))
       /\ generate_multi_track np_sin sr tracks = Ok samples
       /\ os_listdir dir = Returned names
       /\ dir' = snd (wavfile_write
                        (output_path_of
                           ("output_" ++ str_of_int (Z.of_nat (length names))
                            ++ ".wav")%string)
                        sr samples dir).
Proof.
  destruct request as [ msg | [ [ tracks | ] | ] ]; cbn [synthesize snd];
    try (left; reflexivity).
  unfold process_track_input, save_wav.
  destruct (generate_multi_track np_sin sr tracks) as [ samples | e ] eqn:Hg;
    [ | left; reflexivity ].
  destruct (os_listdir dir) as [ names | msg ] eqn:Hl;
    [ | left; reflexivity ].
  right. exists tracks, samples, names.
  split; [ reflexivity | ]. split; [ exact Hg | ].
  split; [ reflexivity | ].
  destruct (wavfile_write _ sr samples dir) as [ [ [ ] | msg ] dir1 ];
    cbn [snd]; [ | reflexivity ].
  destruct (generate_frequency_graph_data fft np_abs sr samples);
    [ | reflexivity ].
  destruct (compute_fft fft np_abs sr samples); [ | reflexivity ].
  destruct (int_div_int _ sr); reflexivity.
Qed.

(** X17 ([process_track_input], lines 219 to 249; [synthesize], lines 85 to
    90): when the mix has been saved and the analysis of the spectrum then
    raises, the request is answered with status 400 and the message of the
    exception, and the WAV file stays written. *)
Theorem failed_analysis_leaves_the_wav_file
    (tracks : list Track) (samples : list Z) (names : list string)
    (e : py_exception) (dir dir' : directory) :
  generate_multi_track np_sin sr tracks = Ok samples ->
  os_listdir dir = Returned names ->
  wavfile_write
    (output_path_of
       ("output_" ++ str_of_int (Z.of_nat (length names)) ++ ".wav")%string)
    sr samples dir = (Returned tt, dir') ->
  compute_fft fft np_abs sr samples = Raise e ->
  synthesize np_sin fft np_abs sr directory os_listdir wavfile_write
    output_path_of (Json (Some (Some tracks))) dir
  = ((ResultBody (Failure (str_of_exception e)), 400), dir').
Proof.
  intros Hg Hl Hw Hf.
  unfold synthesize, process_track_input, save_wav,
    generate_frequency_graph_data.
  rewrite Hg, Hl, Hw, Hf. reflexivity.
Qed.

(** X18 ([synthesize], lines 85 to 88; [process_track_input], lines 216 to
    239): a response of status 200 carries the result of a request with
    tracks: the file named is the one that was written, with the mix of the
    tracks; the sample count and the duration are those of the mix; the
    spectrum is that of the mix, and the graph shows the same peaks. *)
Theorem status_200_describes_the_written_file
    (request : request_json) (body : response_body) (dir dir' : directory) :
  synthesize np_sin fft np_abs sr directory os_listdir wavfile_write
    output_path_of request dir = ((body, 200), dir') ->
  exists tracks samples names output,
    request = Json (Some (Some tracks))
    /\ body = ResultBody (Success output)
    /\ generate_multi_track np_sin sr tracks = Ok samples
    /\ os_listdir dir = Returned names
    /\ Output.wav_file output
       = ("output_" ++ str_of_int (Z.of_nat (length names)) ++ ".wav")%string
    /\ wavfile_write (output_path_of (Output.wav_file output)) sr samples dir
       = (Returned tt, dir')
    /\ Output.sample_count output = length samples
    /\ int_div_int (Z.of_nat (length samples)) sr
       = Ok (Output.duration output)
    /\ compute_fft fft np_abs sr samples = Ok (Output.fft_data output)
    /\ Graph.peak_frequencies (Output.graph_data output)
       = peak_frequencies (Output.fft_data output)
    /\ Graph.peak_magnitudes (Output.graph_data output)
       = peak_magnitudes (Output.fft_data output).
Proof.
  intros H.
  destruct request as [ msg | [ [ tracks | ] | ] ]; cbn [synthesize] in H;
    try discriminate H.
  destruct (process_track_input _ _ _ _ _ _ _ _ (Some tracks) dir)
    as [ [ output | err ] dir1 ] eqn:Hp; [ | discriminate H ].
  inversion H; subst body dir1; clear H.
  destruct (process_track_input_success _ _ _ _ Hp)
    as (samples & names & Hg & Hl & Hname & Hpath & Hw & Hgraph & Hfft
        & Hcount & Hdur).
  destruct (graph_data_fields _ _ _ _ _ Hgraph)
    as (d & Hd & _ & _ & Hpf & Hpm).
  rewrite Hfft in Hd. inversion Hd; subst d; clear Hd.
  exists tracks, samples, names, output.
  rewrite <- Hpath. repeat split; assumption.
Qed.

(** X19 ([synthesize], lines 85 to 88; [generate_multi_track]; [compute_fft],
    line 160): when the transform of silence is zero everywhere, a request
    whose tracks all have velocity 0 and that is answered with status 200
    gets a spectrum that is NaN in every bin, and no peak, in the result and
    in the graph. *)
Theorem muted_request_gets_a_spectrum_of_nan
    (tracks : list Track) (output : Output.data) (dir dir' : directory) :
  (forall samples, Forall (fun s => s = 0) samples ->
                   Forall (fun c => np_abs c = F64.zero) (fft samples)) ->
  Forall (fun t => velocity t = 0) tracks ->
  synthesize np_sin fft np_abs sr directory os_listdir wavfile_write
    output_path_of (Json (Some (Some tracks))) dir
  = ((ResultBody (Success output), 200), dir') ->
  Forall (fun m => m = S754_nan) (magnitude (Output.fft_data output))
  /\ peak_frequencies (Output.fft_data output) = []
  /\ Forall (fun m => m = S754_nan)
            (Graph.magnitudes (Output.graph_data output))
  /\ Graph.peak_frequencies (Output.graph_data output) = [].
Proof.
  intros Hfft Hmuted H. cbn [synthesize] in H.
  destruct (process_track_input _ _ _ _ _ _ _ _ (Some tracks) dir)
    as [ [ output' | err ] dir1 ] eqn:Hp; [ | discriminate H ].
  inversion H; subst output' dir1; clear H.
  destruct (process_track_input_success _ _ _ _ Hp)
    as (samples & names & Hg & _ & _ & _ & _ & Hgraph & Hd & _).
  pose proof (muted_mix_is_zero _ _ _ _ Hmuted Hg) as Hsilent.
  destruct (spectrum_of_zero_transform _ _ _ _ _ (Hfft _ Hsilent) Hd)
    as (Hnan & Hpf & _).
  destruct (graph_data_fields _ _ _ _ _ Hgraph)
    as (d & Hd' & _ & Hm & Hgpf & _).
  rewrite Hd in Hd'. inversion Hd'; subst d; clear Hd'.
  split; [ exact Hnan | ]. split; [ exact Hpf | ].
  split; [ | rewrite Hgpf; exact Hpf ].
  rewrite Hm. apply Forall_forall. intros m Hin.
  apply in_every_nth_from in Hin. rewrite Forall_forall in Hnan.
  apply Hnan, Hin.
Qed.

(** X20 ([synthesize], lines 82 to 90; [process_track_input], lines 216 to
    219 and 244 to 249): a request without the key ['tracks'] is answered
    with status 400 and "Missing tracks in request"; a request with an empty
    list of tracks is answered with status 400 and the message of Python's
    [max], "max() arg is an empty sequence"; a dictionary without the key
    is processed as one with an empty list.  None of them changes the
    directory. *)
Theorem request_without_tracks_is_rejected (dir : directory) :
  synthesize np_sin fft np_abs sr directory os_listdir wavfile_write
    output_path_of (Json None) dir
  = ((ErrorBody "Missing tracks in request", 400), dir)
  /\ synthesize np_sin fft np_abs sr directory os_listdir wavfile_write
       output_path_of (Json (Some None)) dir
     = ((ErrorBody "Missing tracks in request", 400), dir)
  /\ synthesize np_sin fft np_abs sr directory os_listdir wavfile_write
       output_path_of (Json (Some (Some []))) dir
     = ((ResultBody (Failure "max() arg is an empty sequence"), 400), dir)
  /\ process_track_input np_sin fft np_abs sr directory os_listdir
       wavfile_write output_path_of None dir
     = process_track_input np_sin fft np_abs sr directory os_listdir
         wavfile_write output_path_of (Some []) dir.
Proof. repeat split; reflexivity. Qed.

End Synthesis.

Lemma failed_analysis_leaves_the_wav_file_witness :
  synthesize small_angle_sin fft_of_silence abs_of_real 44100
    listed_directory list_names add_file in_output
    (Json (Some (Some [click]))) []
  = ((ResultBody
        (Failure "zero-size array to reduction operation maximum which has no identity"),
      400),
     [("output/output_0.wav"%string, [0])]).
Proof.
  apply (failed_analysis_leaves_the_wav_file small_angle_sin fft_of_silence
           abs_of_real 44100 listed_directory list_names add_file in_output
           [click] [0] []
           (ValueError "zero-size array to reduction operation maximum which has no identity"));
    vm_compute; reflexivity.
Defined.

Lemma status_200_describes_the_written_file_witness :
  exists body dir',
    synthesize small_angle_sin transform_of_reals abs_of_real 8
      listed_directory list_names add_file in_output
      (Json (Some (Some [slow_note]))) [] = ((body, 200), dir')
    /\ dir' = [("output/output_0.wav"%string, [0; 2573; 5147; 7720])]
    /\ exists output,
         body = ResultBody (Success output)
         /\ Output.sample_count output = 4%nat.
Proof.
  do 2 eexists. split; [ vm_compute; reflexivity | ].
  split; [ reflexivity | ].
  destruct (status_200_describes_the_written_file small_angle_sin
              transform_of_reals abs_of_real 8 listed_directory list_names
              add_file in_output (Json (Some (Some [slow_note]))) _ [] _
              ltac:(vm_compute; reflexivity))
    as (tracks & samples & names & output & _ & Hbody & _).
  exists output. split; [ exact Hbody | ].
  injection Hbody as <-. reflexivity.
Defined.

Lemma muted_request_gets_a_spectrum_of_nan_witness :
  exists output dir',
    synthesize small_angle_sin fft_of_silence abs_of_real 44100
      listed_directory list_names add_file in_output
      (Json (Some (Some [muted_note]))) []
    = ((ResultBody (Success output), 200), dir')
    /\ length (magnitude (Output.fft_data output)) = 22%nat
    /\ Forall (fun m => m = S754_nan) (magnitude (Output.fft_data output)).
Proof.
  do 2 eexists. split; [ vm_compute; reflexivity | ].
  split; [ reflexivity | ].
  refine (proj1 (muted_request_gets_a_spectrum_of_nan small_angle_sin
                   fft_of_silence abs_of_real 44100 listed_directory
                   list_names add_file in_output [muted_note] _ [] _ _ _ _)).
  - intros samples _. unfold fft_of_silence. apply Forall_forall.
    intros c Hc. apply in_map_iff in Hc. destruct Hc as (s & <- & _).
    reflexivity.
  - repeat constructor.
  - vm_compute. reflexivity.
Defined.

(** ** Note names *)

Lemma to_int_not_nil (z : Z) :
  Z.to_int z <> Decimal.Pos Decimal.Nil
  /\ Z.to_int z <> Decimal.Neg Decimal.Nil.
Proof.
  destruct z as [ | p | p ]; cbn [Z.to_int]; split; try discriminate;
    intros H; injection H as H;
    exact (DecimalPos.Unsigned.to_uint_nonnil p H).
Qed.

Lemma str_of_int_read (z : Z) :
  NilZero.int_of_string (str_of_int z) = Some (Z.to_int z).
Proof.
  destruct (to_int_not_nil z) as [ H1 H2 ].
  unfold str_of_int. apply NilZero.isi; assumption.
Qed.

Lemma str_of_int_inj (a b : Z) : str_of_int a = str_of_int b -> a = b.
Proof.
  intros H. pose proof (str_of_int_read a) as Ha.
  rewrite H, str_of_int_read in Ha. injection Ha as Ha.
  apply DecimalZ.to_int_inj. symmetry. exact Ha.
Qed.

(** The decimal form of an integer does not begin with the sharp sign. *)
Lemma str_of_int_no_sharp (z : Z) (s : string) :
  str_of_int z
  <> String (Ascii.Ascii true true false false false true false false) s.
Proof.
  intros H. pose proof (str_of_int_read z) as Hz. rewrite H in Hz.
  simpl in Hz. destruct (NilEmpty.uint_of_string s); discriminate Hz.
Qed.

Lemma get_note_name_inj (m n : Z) :
  get_note_name m = get_note_name n -> m = n.
Proof.
  unfold get_note_name. intros H.
  pose proof (Z.mod_pos_bound m 12 ltac:(lia)) as Hm.
  pose proof (Z.mod_pos_bound n 12 ltac:(lia)) as Hn.
  pose proof (Z.div_mod m 12 ltac:(lia)) as Dm.
  pose proof (Z.div_mod n 12 ltac:(lia)) as Dn.
  remember (m mod 12) as i eqn:Ei. remember (n mod 12) as j eqn:Ej.
  remember (str_of_int (m / 12 - 1)) as om eqn:Eom.
  remember (str_of_int (n / 12 - 1)) as on eqn:Eon.
  assert (Hi : i = 0 \/ i = 1 \/ i = 2 \/ i = 3 \/ i = 4 \/ i = 5 \/ i = 6
               \/ i = 7 \/ i = 8 \/ i = 9 \/ i = 10 \/ i = 11) by lia.
  assert (Hj : j = 0 \/ j = 1 \/ j = 2 \/ j = 3 \/ j = 4 \/ j = 5 \/ j = 6
               \/ j = 7 \/ j = 8 \/ j = 9 \/ j = 10 \/ j = 11) by lia.
  assert (Hsame : i = j /\ om = on).
  { clear Hm Hn Dm Dn Ei Ej.
    repeat match goal with
           | [ D : _ \/ _ |- _ ] => destruct D as [ D | D ]
           end;
      rewrite Hi, Hj in H |- *; simpl in H;
      try discriminate H;
      repeat (injection H as H);
      try (split; [ reflexivity | exact H ]);
      exfalso;
      first [ subst om; exact (str_of_int_no_sharp _ _ H)
            | subst on; exact (str_of_int_no_sharp _ _ (eq_sym H)) ]. }
  destruct Hsame as [ Hij Ho ]. subst om on.
  apply str_of_int_inj in Ho. lia.
Qed.

(** X21 ([get_note_name], lines 165 to 170): two different note numbers
    have different names; this holds for every integer, negative ones
    included. *)
Theorem note_names_are_distinct (m n : Z) :
  m <> n -> get_note_name m <> get_note_name n.
Proof. intros Hne H. apply Hne, get_note_name_inj, H. Qed.

Lemma note_names_are_distinct_witness :
  get_note_name 60 = "C4"%string
  /\ get_note_name 61 = "C#4"%string
  /\ get_note_name 0 = "C-1"%string
  /\ get_note_name 60 <> get_note_name 61.
Proof.
  split; [ reflexivity | ]. split; [ reflexivity | ].
  split; [ reflexivity | ].
  apply (note_names_are_distinct 60 61). lia.
Defined.

(** ** The round trip of a frequency through the mixer and the spectrum *)





Section HighestBin.

Variable x : list float.
Variable k : nat.

Hypothesis k_inner : (0 < k)%nat /\ (k + 1 < length x)%nat.
Hypothesis k_highest :
  forall j, (j < length x)%nat -> j <> k ->
            SFltb (nth j x S754_nan) (nth k x S754_nan) = true.
Hypothesis k_high :
  SFleb (F64.dec 1 1) (nth k x S754_nan) = true.





End HighestBin.






(** ** Rounding to a binary format: the size of the result *)

Lemma digits2_pos_size (p : positive) : digits2_pos p = Pos.size p.
Proof. induction p as [ p IH | p IH | ]; simpl; congruence. Qed.

Lemma Zdigits2_log2 (m : Z) : 0 < m -> Zdigits2 m = Z.log2 m + 1.
Proof.
  destruct m as [ | p | p ]; try lia. intros _. cbn [Zdigits2].
  rewrite digits2_pos_size. destruct p; cbn [Z.log2 Pos.size]; lia.
Qed.

Lemma Zdigits2_nonneg (m : Z) : 0 <= Zdigits2 m.
Proof. destruct m; cbn [Zdigits2]; lia. Qed.

Lemma Zdigits2_le (m k : Z) : 0 <= m -> 0 <= k -> m < 2 ^ k -> Zdigits2 m <= k.
Proof.
  intros Hm Hk H. destruct (Z.eq_dec m 0) as [ -> | Hne ]; [ exact Hk | ].
  rewrite Zdigits2_log2 by lia.
  assert (Z.log2 m < k) by (apply Z.log2_lt_pow2; lia). lia.
Qed.

Lemma Zdigits2_mono (a b : Z) : 0 <= a <= b -> Zdigits2 a <= Zdigits2 b.
Proof.
  intros H. destruct (Z.eq_dec a 0) as [ -> | Hne ];
    [ apply Zdigits2_nonneg | ].
  rewrite !Zdigits2_log2 by lia.
  assert (Z.log2 a <= Z.log2 b) by (apply Z.log2_le_mono; lia). lia.
Qed.

Lemma Zdigits2_mul_pow2 (m k : Z) :
  0 < m -> 0 <= k -> Zdigits2 (m * 2 ^ k) = Zdigits2 m + k.
Proof.
  intros Hm Hk.
  assert (0 < 2 ^ k) by (apply Z.pow_pos_nonneg; lia).
  rewrite !Zdigits2_log2 by nia.
  rewrite Z.log2_mul_pow2 by lia. lia.
Qed.

Lemma fexp_mono (prec emax a b : Z) :
  a <= b -> fexp prec emax a <= fexp prec emax b.
Proof. unfold fexp. lia. Qed.

(** *** Shifts *)

Lemma shifted_compose (a b : Z) (x y z : shr_record) :
  0 <= a -> 0 <= b -> shifted a x y -> shifted b y z -> shifted (a + b) x z.
Proof.
  intros Ha Hb Hxy Hyz Hx.
  destruct (Hxy Hx) as (Hy & Hmy & Ey).
  destruct (Hyz Hy) as (Hz & Hmz & Ez).
  assert (Pa : 0 < 2 ^ a) by (apply Z.pow_pos_nonneg; lia).
  assert (Pb : 0 < 2 ^ b) by (apply Z.pow_pos_nonneg; lia).
  split; [ exact Hz | ]. split.
  - rewrite Hmz, Hmy, Z.div_div by lia. rewrite Z.pow_add_r by lia.
    reflexivity.
  - intros Hr Hs (c & Hc). rewrite Z.pow_add_r in Hc by lia.
    destruct Ey as [ Hry Hsy ]; [ exact Hr | exact Hs | | ].
    { exists (c * 2 ^ b). rewrite Hc. ring. }
    apply Ez; [ exact Hry | exact Hsy | ].
    exists c. rewrite Hmy, Hc.
    replace (c * (2 ^ a * 2 ^ b)) with (c * 2 ^ b * 2 ^ a) by ring.
    apply Z.div_mul. lia.
Qed.

Lemma shifted_shr_1 (mrs : shr_record) : shifted 1 mrs (shr_1 mrs).
Proof.
  destruct mrs as [ m r s ]. unfold shifted. cbn [shr_m shr_r shr_s].
  intros Hm. change (2 ^ 1) with 2.
  destruct m as [ | [ p | p | ] | p ]; cbn [shr_1 shr_m shr_r shr_s];
    try lia.
  - split; [ lia | ]. split; [ reflexivity | ].
    intros -> -> _. split; reflexivity.
  - split; [ lia | ]. split.
    + apply (Z.div_unique _ _ _ 1); [ lia | rewrite Pos2Z.inj_xI; lia ].
    + intros _ _ (c & Hc). rewrite Pos2Z.inj_xI in Hc. lia.
  - split; [ lia | ]. split.
    + apply (Z.div_unique _ _ _ 0); [ lia | rewrite Pos2Z.inj_xO; lia ].
    + intros -> -> _. split; reflexivity.
  - split; [ lia | ]. split; [ reflexivity | ].
    intros _ _ (c & Hc). lia.
Qed.

Lemma shifted_iter (p : positive) : forall mrs,
  shifted (Zpos p) mrs (iter_pos shr_1 p mrs).
Proof.
  induction p as [ p IH | p IH | ]; intros mrs; cbn [iter_pos].
  - replace (Zpos p~1) with (1 + Zpos p + Zpos p) by lia.
    eapply shifted_compose; [ lia | lia | | apply IH ].
    eapply shifted_compose; [ lia | lia | apply shifted_shr_1 | apply IH ].
  - replace (Zpos p~0) with (Zpos p + Zpos p) by lia.
    eapply shifted_compose; [ lia | lia | apply IH | apply IH ].
  - apply shifted_shr_1.
Qed.

Lemma shifted_zero (mrs : shr_record) : shifted 0 mrs mrs.
Proof.
  intros Hm. split; [ exact Hm | ]. split.
  - change (2 ^ 0) with 1. rewrite Z.div_1_r. reflexivity.
  - intros Hr Hs _. split; assumption.
Qed.

Lemma shr_spec (mrs : shr_record) (e n : Z) :
  snd (shr mrs e n) = e + Z.max n 0
  /\ shifted (Z.max n 0) mrs (fst (shr mrs e n)).
Proof.
  unfold shr. destruct n as [ | p | p ]; cbn [fst snd].
  - split; [ lia | apply shifted_zero ].
  - rewrite Z.max_l by lia. split; [ reflexivity | apply shifted_iter ].
  - rewrite Z.max_r by lia. split; [ lia | apply shifted_zero ].
Qed.

Lemma shr_fexp_spec (prec emax m e : Z) (l : location) :
  0 <= m ->
  let k := Z.max (fexp prec emax (Zdigits2 m + e) - e) 0 in
  snd (shr_fexp prec emax m e l) = e + k
  /\ 0 <= shr_m (fst (shr_fexp prec emax m e l))
  /\ shr_m (fst (shr_fexp prec emax m e l)) = m / 2 ^ k
  /\ (l = loc_Exact -> (2 ^ k | m) ->
      loc_of_shr_record (fst (shr_fexp prec emax m e l)) = loc_Exact).
Proof.
  intros Hm k. unfold shr_fexp.
  destruct (shr_spec (shr_record_of_loc m l) e
              (fexp prec emax (Zdigits2 m + e) - e)) as [ He Hs ].
  fold k in He, Hs.
  assert (Hrec : shr_m (shr_record_of_loc m l) = m)
    by (destruct l as [ | [ | | ] ]; reflexivity).
  destruct Hs as (H0 & Hdiv & Hex); [ rewrite Hrec; exact Hm | ].
  rewrite Hrec in Hdiv, Hex.
  split; [ exact He | ]. split; [ exact H0 | ]. split; [ exact Hdiv | ].
  intros -> Hk. destruct Hex as [ Hr Hs ];
    [ reflexivity | reflexivity | exact Hk | ].
  destruct (fst (shr _ e _)) as [ m' r' s' ]. cbn [shr_r shr_s] in Hr, Hs.
  subst r' s'. reflexivity.
Qed.

Lemma round_nearest_even_le (m : Z) (l : location) :
  m <= round_nearest_even m l <= m + 1.
Proof.
  destruct l as [ | [ | | ] ]; cbn [round_nearest_even];
    try destruct (Z.even m); lia.
Qed.

(** The result of rounding is not above a number of the format that the
    rounded value is not above. *)
Lemma binary_round_aux_at_most (prec emax : Z) (s : bool) (m e : Z)
    (l : location) (mb eb : Z) :
  0 <= m -> 0 < mb ->
  e <= eb -> fexp prec emax (Zdigits2 m + e) <= eb ->
  m <= mb * 2 ^ (eb - e) ->
  (l <> loc_Exact -> m < mb * 2 ^ (eb - e)) ->
  fexp prec emax (Zdigits2 mb + eb) <= eb -> eb <= emax - prec ->
  at_most mb eb (binary_round_aux prec emax s m e l).
Proof.
  intros Hm Hmb He Hfe Hle Hlt Hvalid Hmax. unfold binary_round_aux.
  destruct (shr_fexp_spec prec emax m e l Hm) as (E1 & P1 & M1 & X1).
  set (k := Z.max (fexp prec emax (Zdigits2 m + e) - e) 0) in *.
  destruct (shr_fexp prec emax m e l) as [ mrs' e' ].
  cbn [fst snd] in E1, P1, M1, X1. subst e'.
  assert (Hk : 0 <= k) by lia.
  assert (He' : e + k <= eb) by lia.
  assert (Pk : 0 < 2 ^ k) by (apply Z.pow_pos_nonneg; lia).
  set (K := mb * 2 ^ (eb - (e + k))).
  assert (HK : mb * 2 ^ (eb - e) = 2 ^ k * K).
  { unfold K. replace (eb - e) with (k + (eb - (e + k))) by lia.
    rewrite Z.pow_add_r by lia. ring. }
  assert (PK : 0 < K)
    by (unfold K; apply Z.mul_pos_pos;
        [ exact Hmb | apply Z.pow_pos_nonneg; lia ]).
  set (m1 := round_nearest_even (shr_m mrs') (loc_of_shr_record mrs')).
  assert (Hm1 : 0 <= m1 <= K).
  { pose proof (round_nearest_even_le (shr_m mrs') (loc_of_shr_record mrs'))
      as Hr. fold m1 in Hr.
    assert (Hdiv : shr_m mrs' <= K)
      by (rewrite M1; apply Z.div_le_upper_bound; lia).
    split; [ lia | ].
    destruct (Z.eq_dec (shr_m mrs') K) as [ Heq | Hne ]; [ | lia ].
    assert (Hfull : 2 ^ k * K <= m)
      by (rewrite <- Heq, M1; apply Z.mul_div_le; exact Pk).
    assert (Hexact : l = loc_Exact).
    { destruct l as [ | c ]; [ reflexivity | exfalso ].
      assert (m < mb * 2 ^ (eb - e)) by (apply Hlt; discriminate). lia. }
    unfold m1. rewrite (X1 Hexact).
    - cbn [round_nearest_even]. lia.
    - exists K. lia. }
  destruct (shr_fexp_spec prec emax m1 (e + k) loc_Exact (proj1 Hm1))
    as (E2 & P2 & M2 & _).
  set (k2 := Z.max (fexp prec emax (Zdigits2 m1 + (e + k)) - (e + k)) 0) in *.
  destruct (shr_fexp prec emax m1 (e + k) loc_Exact) as [ mrs'' e'' ].
  cbn [fst snd] in E2, P2, M2. subst e''.
  assert (Hd : Zdigits2 m1 + (e + k) <= Zdigits2 mb + eb).
  { assert (Zdigits2 m1 <= Zdigits2 K) by (apply Zdigits2_mono; lia).
    unfold K in H. rewrite Zdigits2_mul_pow2 in H by lia. lia. }
  assert (Hf2 : fexp prec emax (Zdigits2 m1 + (e + k)) <= eb).
  { eapply Z.le_trans; [ apply fexp_mono; exact Hd | exact Hvalid ]. }
  assert (He2 : e + k + k2 <= eb) by lia.
  assert (Hk2 : 0 <= k2) by lia.
  assert (Hfinal : shr_m mrs'' <= mb * 2 ^ (eb - (e + k + k2))).
  { rewrite M2. apply Z.div_le_upper_bound;
      [ apply Z.pow_pos_nonneg; lia | ].
    replace (2 ^ k2 * (mb * 2 ^ (eb - (e + k + k2)))) with K; [ lia | ].
    unfold K. replace (eb - (e + k)) with (k2 + (eb - (e + k + k2))) by lia.
    rewrite Z.pow_add_r by lia. ring. }
  destruct (shr_m mrs'') as [ | mf | mf ]; cbn [at_most];
    [ exact I | | lia ].
  destruct (Z.leb_spec (e + k + k2) (emax - prec)) as [ _ | Hover ];
    [ | lia ].
  cbn [at_most]. split; [ exact He2 | exact Hfinal ].
Qed.

(** A number that needs no rounding is left as it is. *)
Lemma binary_round_aux_exact (prec emax : Z) (s : bool) (m e k : Z) :
  0 < m -> k = Z.max (fexp prec emax (Zdigits2 m + e) - e) 0 ->
  (2 ^ k | m) ->
  binary_round_aux prec emax s m e loc_Exact
  = if e + k <=? emax - prec
    then S754_finite s (Z.to_pos (m / 2 ^ k)) (e + k)
    else S754_infinity s.
Proof.
  intros Hm Hk Hdiv. unfold binary_round_aux.
  destruct (shr_fexp_spec prec emax m e loc_Exact (Z.lt_le_incl _ _ Hm))
    as (E1 & P1 & M1 & X1).
  rewrite <- Hk in E1, M1, X1.
  destruct (shr_fexp prec emax m e loc_Exact) as [ mrs' e' ].
  cbn [fst snd] in E1, P1, M1, X1. subst e'.
  rewrite (X1 eq_refl Hdiv). cbn [round_nearest_even].
  assert (Hk0 : 0 <= k) by lia.
  assert (Pk : 0 < 2 ^ k) by (apply Z.pow_pos_nonneg; lia).
  destruct Hdiv as (c & Hc).
  assert (Hm1 : shr_m mrs' = c)
    by (rewrite M1, Hc; apply Z.div_mul; lia).
  assert (Pc : 0 < c) by nia.
  assert (Hd : Zdigits2 m = Zdigits2 c + k)
    by (rewrite Hc; apply Zdigits2_mul_pow2; lia).
  rewrite Hm1.
  destruct (shr_fexp_spec prec emax c (e + k) loc_Exact (Z.lt_le_incl _ _ Pc))
    as (E2 & P2 & M2 & _).
  replace (Z.max (fexp prec emax (Zdigits2 c + (e + k)) - (e + k)) 0)
    with 0 in E2, M2
    by (replace (Zdigits2 c + (e + k)) with (Zdigits2 m + e) by lia; lia).
  destruct (shr_fexp prec emax c (e + k) loc_Exact) as [ mrs'' e'' ].
  cbn [fst snd] in E2, P2, M2. subst e''.
  change (2 ^ 0) with 1 in M2. rewrite Z.div_1_r in M2. rewrite M2.
  rewrite Z.add_0_r. rewrite Hc, Z.div_mul by lia.
  destruct c as [ | p | p ]; try lia. reflexivity.
Qed.

Lemma shl_align_spec (mx : positive) (ex ex' : Z) :
  snd (shl_align mx ex ex') = Z.min ex ex'
  /\ Zpos (fst (shl_align mx ex ex')) = Zpos mx * 2 ^ (ex - Z.min ex ex').
Proof.
  unfold shl_align. destruct (ex' - ex) as [ | d | d ] eqn:Hd; cbn [fst snd].
  - split; [ lia | ]. replace (ex - Z.min ex ex') with 0 by lia.
    change (2 ^ 0) with 1. lia.
  - split; [ lia | ]. replace (ex - Z.min ex ex') with 0 by lia.
    change (2 ^ 0) with 1. lia.
  - split; [ lia | ]. replace (ex - Z.min ex ex') with (Zpos d) by lia.
    change (Zpos (shift_pos d mx) = Zpos mx * 2 ^ Zpos d).
    rewrite shift_pos_correct. change (Z.pow_pos 2 d) with (2 ^ Zpos d).
    ring.
Qed.

(** ** Integers in binary32 *)

(** The conversion of an integer rounds its absolute value, written with
    an exponent that is not above the one of the format. *)
Lemma of_Z_round (z : Z) :
  z <> 0 ->
  let ez := Z.min 0 (fexp F32.prec F32.emax (Zdigits2 (Z.abs z))) in
  F32.of_Z z
  = binary_round_aux F32.prec F32.emax (z <? 0) (Z.abs z * 2 ^ (- ez)) ez
      loc_Exact.
Proof.
  intros Hz ez. unfold F32.of_Z, binary_normalize.
  destruct z as [ | p | p ]; [ contradiction Hz; reflexivity | | ];
    unfold binary_round;
    destruct (shl_align_spec p 0
                (fexp F32.prec F32.emax (Zpos (digits2_pos p) + 0)))
      as [ He Hm ];
    destruct (shl_align p 0 _) as [ mz ez' ]; cbn [fst snd] in He, Hm;
    rewrite Z.add_0_r in He, Hm;
    change (Zpos (digits2_pos p)) with (Zdigits2 (Z.abs (Zpos p))) in He, Hm;
    subst ez'; rewrite Hm; reflexivity.
Qed.

Lemma binary32_integer_abs (z : Z) :
  binary32_integer z -> binary32_integer (Z.abs z).
Proof.
  unfold binary32_integer. rewrite Z.abs_idemp.
  intros H. apply Z.divide_abs_r. exact H.
Qed.

(** An integer of 24 significant bits is converted exactly, or to an
    infinity from [2^128] on. *)
Lemma of_Z_binary32_integer (z : Z) :
  z <> 0 -> binary32_integer z ->
  let e := Zdigits2 (Z.abs z) - 24 in
  F32.of_Z z
  = if e <=? 104
    then S754_finite (z <? 0)
           (Z.to_pos (Z.abs z * 2 ^ Z.max (- e) 0 / 2 ^ Z.max e 0)) e
    else S754_infinity (z <? 0).
Proof.
  intros Hz Hrep e. rewrite (of_Z_round z Hz).
  assert (Ha : 0 < Z.abs z) by lia.
  assert (Hd : 1 <= Zdigits2 (Z.abs z))
    by (rewrite Zdigits2_log2 by lia;
        pose proof (Z.log2_nonneg (Z.abs z)); lia).
  assert (Hf : fexp F32.prec F32.emax (Zdigits2 (Z.abs z)) = e)
    by (unfold fexp, emin, F32.prec, F32.emax, e; lia).
  rewrite Hf.
  assert (Hneg : - Z.min 0 e = Z.max (- e) 0) by lia.
  rewrite Hneg.
  assert (Hdm : Zdigits2 (Z.abs z * 2 ^ Z.max (- e) 0) + Z.min 0 e
                = Zdigits2 (Z.abs z))
    by (rewrite Zdigits2_mul_pow2 by lia; lia).
  rewrite (binary_round_aux_exact F32.prec F32.emax (z <? 0) _ _
             (Z.max e 0)).
  - replace (Z.min 0 e + Z.max e 0) with e by lia.
    change (F32.emax - F32.prec) with 104. reflexivity.
  - apply Z.mul_pos_pos; [ exact Ha | apply Z.pow_pos_nonneg; lia ].
  - rewrite Hdm, Hf. lia.
  - destruct (Z.le_gt_cases e 0) as [ Hle | Hgt ].
    + rewrite (Z.max_r e 0) by lia. change (2 ^ 0) with 1.
      apply Z.divide_1_l.
    + rewrite (Z.max_l e 0), (Z.max_r (- e) 0) by lia.
      change (2 ^ 0) with 1. rewrite Z.mul_1_r.
      apply Z.divide_abs_r. unfold binary32_integer in Hrep.
      rewrite <- (Zdigits2_log2 _ Ha) in Hrep. fold e in Hrep.
      rewrite (Z.max_r 0 e) in Hrep by lia. exact Hrep.
Qed.

Lemma binary32_mantissa (z : Z) :
  0 < z -> binary32_integer z ->
  let e := Zdigits2 z - 24 in
  let m := z * 2 ^ Z.max (- e) 0 / 2 ^ Z.max e 0 in
  0 < m
  /\ m * 2 ^ Z.max e 0 = z * 2 ^ Z.max (- e) 0
  /\ Zdigits2 m + e = Zdigits2 z.
Proof.
  intros Hz Hrep e m.
  destruct (Z.le_gt_cases e 0) as [ Hle | Hgt ].
  - assert (Hm : m = z * 2 ^ (- e)).
    { unfold m. rewrite (Z.max_r e 0), (Z.max_l (- e) 0) by lia.
      change (2 ^ 0) with 1. apply Z.div_1_r. }
    assert (0 < 2 ^ (- e)) by (apply Z.pow_pos_nonneg; lia).
    split; [ nia | ]. split.
    + rewrite (Z.max_r e 0), (Z.max_l (- e) 0) by lia.
      change (2 ^ 0) with 1. lia.
    + rewrite Hm, Zdigits2_mul_pow2 by lia. lia.
  - unfold binary32_integer in Hrep. rewrite Z.abs_eq in Hrep by lia.
    rewrite <- (Zdigits2_log2 _ Hz) in Hrep. fold e in Hrep.
    rewrite (Z.max_r 0 e) in Hrep by lia. destruct Hrep as (c & Hc).
    assert (Pe : 0 < 2 ^ e) by (apply Z.pow_pos_nonneg; lia).
    assert (Hm : m = c).
    { unfold m. rewrite (Z.max_l e 0), (Z.max_r (- e) 0) by lia.
      change (2 ^ 0) with 1. rewrite Z.mul_1_r. rewrite Hc at 1.
      apply Z.div_mul. lia. }
    assert (Pc : 0 < c) by nia.
    split; [ lia | ]. split.
    + rewrite (Z.max_l e 0), (Z.max_r (- e) 0) by lia.
      change (2 ^ 0) with 1. lia.
    + rewrite Hm. rewrite Hc at 1. rewrite Zdigits2_mul_pow2 by lia. lia.
Qed.

(** The conversion of an integer is not above the conversion of an integer
    of 24 significant bits that is not below it in absolute value. *)
Lemma of_Z_at_most (x peak : Z) (sb : bool) (mb : positive) (eb : Z) :
  binary32_integer peak -> 0 < peak -> Z.abs x <= peak ->
  F32.of_Z peak = S754_finite sb mb eb ->
  at_most (Zpos mb) eb (F32.of_Z x).
Proof.
  intros Hrep Hp Hx Hb.
  rewrite (of_Z_binary32_integer peak) in Hb by (try lia; exact Hrep).
  rewrite (Z.abs_eq peak) in Hb by lia.
  destruct (binary32_mantissa peak Hp Hrep) as (Pm & Hval & Hdig).
  set (e := Zdigits2 peak - 24) in *.
  set (P := peak * 2 ^ Z.max (- e) 0 / 2 ^ Z.max e 0) in *.
  destruct (Z.leb_spec e 104) as [ He | He ]; [ | discriminate Hb ].
  injection Hb as _ Hmb Heb.
  assert (HP : Zpos mb = P) by (rewrite <- Hmb; apply Z2Pos.id; exact Pm).
  rewrite HP. subst eb. clear Hmb HP.
  destruct (Z.eq_dec x 0) as [ -> | Hx0 ]; [ exact I | ].
  rewrite (of_Z_round x Hx0).
  assert (Ha : 0 < Z.abs x) by lia.
  assert (Hdx : 1 <= Zdigits2 (Z.abs x) <= Zdigits2 peak).
  { split.
    - rewrite Zdigits2_log2 by lia.
      pose proof (Z.log2_nonneg (Z.abs x)). lia.
    - apply Zdigits2_mono. lia. }
  assert (Hf : fexp F32.prec F32.emax (Zdigits2 (Z.abs x))
               = Zdigits2 (Z.abs x) - 24)
    by (unfold fexp, emin, F32.prec, F32.emax; lia).
  rewrite Hf.
  set (ez := Z.min 0 (Zdigits2 (Z.abs x) - 24)).
  assert (Hez : ez <= 0 /\ ez <= e) by (unfold ez, e; lia).
  assert (Pz : 0 < 2 ^ (- ez)) by (apply Z.pow_pos_nonneg; lia).
  assert (Hdm : Zdigits2 (Z.abs x * 2 ^ (- ez)) + ez = Zdigits2 (Z.abs x))
    by (rewrite Zdigits2_mul_pow2 by lia; lia).
  assert (Hscale : P * 2 ^ (e - ez) = peak * 2 ^ (- ez)).
  { destruct (Z.le_gt_cases e 0) as [ Hle | Hgt ].
    - rewrite (Z.max_r e 0), (Z.max_l (- e) 0) in Hval by lia.
      change (2 ^ 0) with 1 in Hval. rewrite Z.mul_1_r in Hval.
      rewrite Hval, <- Z.mul_assoc, <- Z.pow_add_r by lia.
      f_equal. f_equal. lia.
    - rewrite (Z.max_l e 0), (Z.max_r (- e) 0) in Hval by lia.
      change (2 ^ 0) with 1 in Hval. rewrite Z.mul_1_r in Hval.
      rewrite <- Hval, <- Z.mul_assoc, <- Z.pow_add_r by lia.
      reflexivity. }
  apply binary_round_aux_at_most.
  - nia.
  - exact Pm.
  - lia.
  - rewrite Hdm, Hf. unfold e. lia.
  - rewrite Hscale. apply Z.mul_le_mono_nonneg_r; lia.
  - intros Hl. contradiction Hl. reflexivity.
  - rewrite Hdig. unfold fexp, emin, F32.prec, F32.emax, e. lia.
  - change (F32.emax - F32.prec) with 104. exact He.
Qed.

(** ** The scaling of a sample *)

(** The quotient by a number that is not below in absolute value is at
    most one. *)
Lemma div_at_most (a : float) (sb : bool) (mb : positive) (eb : Z) :
  at_most (Zpos mb) eb a ->
  at_most (2 ^ 23) (-23) (F32.div a (S754_finite sb mb eb)).
Proof.
  destruct a as [ sa | sa | | sa ma ea ]; cbn [at_most]; try contradiction.
  - intros _. exact I.
  - intros [ He Hm ]. unfold F32.div, SFdiv, SFdiv_core_binary. cbv zeta.
    assert (Hd : Zdigits2 (Zpos ma) + ea <= Zdigits2 (Zpos mb) + eb).
    { assert (H : Zdigits2 (Zpos ma) <= Zdigits2 (Zpos mb * 2 ^ (eb - ea)))
        by (apply Zdigits2_mono; lia).
      rewrite Zdigits2_mul_pow2 in H by lia. lia. }
    set (e' := Z.min (fexp F32.prec F32.emax
                        (Zdigits2 (Zpos ma) + ea - (Zdigits2 (Zpos mb) + eb)))
                     (ea - eb)).
    assert (He' : e' <= -24 /\ e' <= ea - eb)
      by (unfold e', fexp, emin, F32.prec, F32.emax; lia).
    set (m' := match ea - eb - e' with
               | 0 => Zpos ma
               | Zpos _ => Z.shiftl (Zpos ma) (ea - eb - e')
               | Zneg _ => 0
               end).
    assert (Hm' : m' = Zpos ma * 2 ^ (ea - eb - e')).
    { unfold m'. destruct (ea - eb - e') as [ | s | s ] eqn:Hs.
      - change (2 ^ 0) with 1. lia.
      - apply Z.shiftl_mul_pow2. lia.
      - lia. }
    assert (Pe : 0 < 2 ^ (- e')) by (apply Z.pow_pos_nonneg; lia).
    assert (Hbound : m' <= Zpos mb * 2 ^ (- e')).
    { rewrite Hm'.
      replace (- e') with ((eb - ea) + (ea - eb - e')) by lia.
      rewrite Z.pow_add_r, Z.mul_assoc by lia.
      apply Z.mul_le_mono_nonneg_r; [ | exact Hm ].
      apply Z.pow_nonneg. lia. }
    assert (Pm' : 0 <= m').
    { rewrite Hm'. apply Z.mul_nonneg_nonneg; [ lia | ].
      apply Z.pow_nonneg. lia. }
    pose proof (Z_div_mod m' (Zpos mb) eq_refl) as Hdm.
    destruct (Z.div_eucl m' (Zpos mb)) as [ q r ]. destruct Hdm as [ Hq Hr ].
    assert (Pq : 0 <= q) by nia.
    assert (Hq1 : q <= 2 ^ (- e')) by nia.
    assert (Hone : 2 ^ 23 * 2 ^ (-23 - e') = 2 ^ (- e'))
      by (rewrite <- Z.pow_add_r by lia; f_equal; lia).
    apply binary_round_aux_at_most.
    + exact Pq.
    + reflexivity.
    + lia.
    + assert (Hdq : Zdigits2 q <= - e' + 1).
      { apply Zdigits2_le; [ exact Pq | lia | ].
        rewrite Z.pow_add_r by lia. change (2 ^ 1) with 2. lia. }
      unfold fexp, emin, F32.prec, F32.emax. lia.
    + rewrite Hone. exact Hq1.
    + rewrite Hone. intros Hl.
      destruct (Z.eq_dec r 0) as [ -> | Hr0 ]; [ | nia ].
      contradiction Hl. unfold new_location.
      destruct (Z.even (Zpos mb)); reflexivity.
    + vm_compute. discriminate.
    + vm_compute. discriminate.
Qed.

(** A number that is at most one, times 32767, is at most 32767. *)
Lemma mul_at_most (c : float) :
  at_most (2 ^ 23) (-23) c ->
  at_most 16776704 (-9) (F32.mul c (S754_finite false 16776704 (-9))).
Proof.
  destruct c as [ sc | sc | | sc mc ec ]; cbn [at_most]; try contradiction.
  - intros _. exact I.
  - intros [ He Hm ]. unfold F32.mul, SFmul.
    assert (Pe : 0 < 2 ^ (- ec)) by (apply Z.pow_pos_nonneg; lia).
    assert (Hone : 2 ^ 23 * 2 ^ (-23 - ec) = 2 ^ (- ec))
      by (rewrite <- Z.pow_add_r by lia; f_equal; lia).
    rewrite Hone in Hm.
    apply binary_round_aux_at_most.
    + lia.
    + reflexivity.
    + lia.
    + rewrite Pos2Z.inj_mul.
      assert (Hdq : Zdigits2 (Zpos mc * 16776704) <= 24 + - ec).
      { apply Zdigits2_le; [ lia | lia | ].
        rewrite Z.pow_add_r by lia. change (2 ^ 24) with 16777216. nia. }
      unfold fexp, emin, F32.prec, F32.emax. lia.
    + rewrite Pos2Z.inj_mul.
      replace (-9 - (ec + -9)) with (- ec) by lia. nia.
    + intros Hl. contradiction Hl. reflexivity.
    + vm_compute. discriminate.
    + vm_compute. discriminate.
Qed.

Lemma trunc_at_most (y : float) :
  at_most 16776704 (-9) y -> Z.abs (trunc y) <= 32767.
Proof.
  destruct y as [ s | s | | s m e ]; cbn [at_most trunc]; try contradiction;
    [ lia | ].
  intros [ He Hm ]. destruct e as [ | p | p ]; try lia.
  assert (Hp : 2 ^ Zpos p = 512 * 2 ^ (-9 - Zneg p)).
  { change 512 with (2 ^ 9). rewrite <- Z.pow_add_r by lia. f_equal. lia. }
  assert (P : 0 < 2 ^ (-9 - Zneg p)) by (apply Z.pow_pos_nonneg; lia).
  assert (H : 0 <= Zpos m / 2 ^ Zpos p <= 32767).
  { split.
    - apply Z.div_pos; lia.
    - apply Z.div_le_upper_bound; lia. }
  cbv zeta. destruct s; lia.
Qed.

Lemma astype_int16_trunc (y : float) :
  Z.abs (trunc y) <= 32767 -> astype_int16 y = trunc y.
Proof.
  intros H. unfold astype_int16. cbv zeta.
  destruct (Z.leb_spec (- 2 ^ 31) (trunc y)) as [ _ | Hlo ]; [ | lia ].
  destruct (Z.ltb_spec (trunc y) (2 ^ 31)) as [ _ | Hhi ]; [ | lia ].
  cbn [andb]. unfold wrap16. rewrite Z.mod_small by lia. lia.
Qed.

(** A sample that is not above the peak in absolute value is scaled to a
    number of the [int16] range, which the conversion leaves as it is. *)
Lemma scaled_sample_within (peak x : Z) :
  binary32_integer peak -> 0 < peak -> Z.abs x <= peak ->
  Z.abs (trunc (F32.mul (F32.div (F32.of_Z x) (F32.of_Z peak))
                        (F32.of_Z 32767))) <= 32767.
Proof.
  intros Hrep Hp Hx.
  change (F32.of_Z 32767) with (S754_finite false 16776704 (-9)).
  destruct (F32.of_Z peak) as [ sb | sb | | sb mb eb ] eqn:Hb.
  - destruct (F32.of_Z x) as [ sa | sa | | sa ma ea ]; cbn; lia.
  - destruct (F32.of_Z x) as [ sa | sa | | sa ma ea ]; cbn; lia.
  - destruct (F32.of_Z x) as [ sa | sa | | sa ma ea ]; cbn; lia.
  - apply trunc_at_most, mul_at_most, div_at_most.
    exact (of_Z_at_most x peak sb mb eb Hrep Hp Hx Hb).
Qed.

(** The peak itself is scaled to full scale. *)
Lemma div_same_mantissa (s : bool) (m : positive) (e : Z) :
  F32.div (S754_finite s m e) (S754_finite false m e)
  = S754_finite s 8388608 (-23).
Proof.
  unfold F32.div, SFdiv, SFdiv_core_binary.
  rewrite !Z.sub_diag.
  change (Z.min (fexp F32.prec F32.emax 0) 0) with (-24).
  change (0 - -24) with 24.
  rewrite Z.shiftl_mul_pow2 by lia.
  assert (Hq : Z.div_eucl (Zpos m * 2 ^ 24) (Zpos m) = (2 ^ 24, 0)).
  { pose proof (Z.div_mul (2 ^ 24) (Zpos m)) as Hd.
    pose proof (Z.mod_mul (2 ^ 24) (Zpos m)) as Hm.
    rewrite (Z.mul_comm (2 ^ 24)) in Hd, Hm.
    unfold Z.div in Hd. unfold Z.modulo in Hm.
    destruct (Z.div_eucl (Zpos m * 2 ^ 24) (Zpos m)) as [ q r ].
    rewrite Hd, Hm by discriminate. reflexivity. }
  rewrite Hq.
  assert (Hl : new_location (Zpos m) 0 = loc_Exact).
  { unfold new_location. destruct (Z.even (Zpos m)); reflexivity. }
  rewrite Hl. destruct s; vm_compute; reflexivity.
Qed.

Lemma scaled_sample_of_the_peak (x : Z) :
  x <> 0 -> binary32_integer x -> Z.abs x < 2 ^ 128 ->
  scaled_sample (Z.abs x) x = Z.sgn x * 32767.
Proof.
  intros Hx Hrep Hlt. unfold scaled_sample.
  rewrite (of_Z_binary32_integer x Hx Hrep).
  rewrite (of_Z_binary32_integer (Z.abs x))
    by (try lia; apply binary32_integer_abs; exact Hrep).
  rewrite Z.abs_idemp.
  assert (He : Zdigits2 (Z.abs x) <= 128)
    by (apply Zdigits2_le; lia).
  destruct (Z.leb_spec (Zdigits2 (Z.abs x) - 24) 104) as [ _ | Hover ];
    [ | lia ].
  replace (Z.abs x <? 0) with false by (symmetry; apply Z.ltb_ge; lia).
  rewrite div_same_mantissa.
  destruct x as [ | p | p ]; [ contradiction Hx | | ]; reflexivity.
Qed.

(** ** The mix holds integers of 24 significant bits *)

Lemma f32_round_binary32_integer (z : Z) : binary32_integer (f32_round z).
Proof.
  unfold f32_round. cbv zeta.
  set (a := Z.abs z). set (d := Z.log2 a + 1 - 24).
  destruct (Z.leb_spec d 0) as [ Hd | Hd ].
  - unfold binary32_integer. fold a. fold d. rewrite Z.max_l by lia.
    apply Z.divide_1_l.
  - assert (Ha : 0 < a).
    { destruct (Z.eq_dec a 0) as [ E | E ]; [ | unfold a in *; lia ].
      unfold d in Hd. rewrite E in Hd. cbn in Hd. lia. }
    destruct (Z.log2_spec a Ha) as [ Hlo Hhi ].
    assert (Pd : 0 < 2 ^ d) by (apply Z.pow_pos_nonneg; lia).
    assert (Hlo' : 2 ^ d * 8388608 <= a).
    { replace (Z.log2 a) with (d + 23) in Hlo by (unfold d; lia).
      rewrite Z.pow_add_r in Hlo by lia. exact Hlo. }
    assert (Hhi' : a < 2 ^ d * 16777216).
    { replace (Z.succ (Z.log2 a)) with (d + 24) in Hhi by (unfold d; lia).
      rewrite Z.pow_add_r in Hhi by lia. exact Hhi. }
    set (q := a / 2 ^ d).
    assert (Hq : 8388608 <= q < 16777216).
    { split; [ apply Z.div_le_lower_bound | apply Z.div_lt_upper_bound ];
        lia. }
    set (q' := if a mod 2 ^ d <? 2 ^ (d - 1) then q
               else if 2 ^ (d - 1) <? a mod 2 ^ d then q + 1
               else if Z.even q then q else q + 1).
    assert (Hq' : 8388608 <= q' <= 16777216).
    { unfold q'. destruct (_ <? _); [ lia | ].
      destruct (_ <? _); [ lia | ]. destruct (Z.even q); lia. }
    assert (Habs : Z.abs (Z.sgn z * (q' * 2 ^ d)) = q' * 2 ^ d).
    { assert (0 < q' * 2 ^ d) by nia.
      destruct z as [ | p | p ]; [ unfold a in Ha; cbn in Ha; lia | | ];
        cbn [Z.sgn]; lia. }
    unfold binary32_integer. rewrite Habs.
    rewrite Z.log2_mul_pow2 by lia.
    destruct (Z.eq_dec q' 16777216) as [ E | E ].
    + rewrite E. change (Z.log2 16777216) with 24.
      rewrite Z.max_r by lia.
      replace (d + 24 + 1 - 24) with (d + 1) by lia.
      rewrite Z.pow_add_r by lia. change (2 ^ 1) with 2.
      exists (Z.sgn z * 8388608). ring.
    + assert (Hl : Z.log2 q' = 23)
        by (apply Z.log2_unique; [ lia | ];
            change (2 ^ 23) with 8388608;
            change (2 ^ Z.succ 23) with 16777216; lia).
      rewrite Hl. rewrite Z.max_r by lia.
      replace (d + 23 + 1 - 24) with d by lia.
      exists (Z.sgn z * q'). ring.
Qed.

Lemma add_from_binary32 (xs : list Z) : forall lo ys,
  Forall binary32_integer xs -> Forall binary32_integer (add_from xs lo ys).
Proof.
  induction xs as [ | x xs IH ]; intros lo ys Hx; cbn [add_from].
  - constructor.
  - inversion Hx as [ | x' xs' Hx0 Hxs ]; subst.
    destruct lo as [ | lo ].
    + destruct ys as [ | y ys ]; [ exact Hx | ].
      constructor; [ apply f32_round_binary32_integer | apply IH; exact Hxs ].
    + constructor; [ exact Hx0 | apply IH; exact Hxs ].
Qed.

Lemma mix_loop_binary32 np_sin sr (tracks : list Track) :
  forall mixed mixed',
    Forall binary32_integer mixed ->
    mix_loop np_sin sr mixed tracks = Ok mixed' ->
    Forall binary32_integer mixed'.
Proof.
  induction tracks as [ | t tracks IH ]; intros mixed mixed' Hb H;
    cbn [mix_loop] in H.
  - inversion H; subst. exact Hb.
  - inv_bind H. eapply IH; [ | exact H ].
    destruct (mix_track_ok _ _ _ _ _ Hv) as (start & samples & _ & _ & Hadd).
    unfold slice_iadd in Hadd.
    destruct (slice_bounds _ _ _) as [ lo hi ].
    destruct (Nat.eqb _ _).
    + inversion Hadd. apply add_from_binary32. exact Hb.
    + destruct (Nat.eqb _ _); [ | discriminate ].
      inversion Hadd. apply add_from_binary32. exact Hb.
Qed.

Lemma mix_before_normalisation_binary32 np_sin sr tracks (mixed : list Z) :
  mix_before_normalisation np_sin sr tracks = Ok mixed ->
  Forall binary32_integer mixed.
Proof.
  unfold mix_before_normalisation. intros H. inv_bind H. inv_bind H.
  apply np_zeros_ok in Hv0. destruct Hv0 as [ _ -> ].
  eapply mix_loop_binary32; [ | exact H ].
  apply Forall_forall. intros s Hs. apply repeat_spec in Hs. subst s.
  exists 0. reflexivity.
Qed.

Lemma fold_left_max_in (l : list Z) : forall a,
  fold_left Z.max l a = a \/ In (fold_left Z.max l a) l.
Proof.
  induction l as [ | y l IH ]; intros a; cbn [fold_left].
  - left. reflexivity.
  - destruct (IH (Z.max a y)) as [ E | Hin ].
    + rewrite E. destruct (Z.max_spec a y) as [ [ _ -> ] | [ _ -> ] ];
        [ right; left; reflexivity | left; reflexivity ].
    + right. right. exact Hin.
Qed.

Lemma np_max_Z_in (l : list Z) (m : Z) : np_max_Z l = Ok m -> In m l.
Proof.
  destruct l as [ | x l ]; cbn [np_max_Z]; [ discriminate | ].
  intros H. inversion H.
  destruct (fold_left_max_in l x) as [ -> | Hin ];
    [ left; reflexivity | right; exact Hin ].
Qed.

(** C3: whenever [generate_multi_track] returns, every sample of the
    result lies in [-32768, 32767]; with [peak] the largest absolute value
    of the sum of the tones, the result is that sum itself when
    [peak <= 32767], and only when [peak > 32767] it is the sum scaled by
    [32767 / peak], sample by sample.  The scaling, computed in binary32,
    gives a number within [-32767, 32767] for every sample, so that the
    conversion to [int16] only discards the fraction and never wraps, and
    it gives 32767 with the sign of the sample where the sum is at its
    peak (for a peak below [2^128], which binary32 holds). *)
Theorem mix_output_in_range_and_scaled_only_above_peak
    (np_sin : float -> float) (sr : Z) (tracks : list Track) (out : list Z) :
  generate_multi_track np_sin sr tracks = Ok out ->
  exists mixed peak,
    mix_before_normalisation np_sin sr tracks = Ok mixed
    /\ np_max_Z (map Z.abs mixed) = Ok peak
    /\ Forall (fun s => INT16_MIN <= s <= INT16_MAX) out
    /\ (peak <= 32767 -> out = mixed)
    /\ (32767 < peak ->
        out = map (scaled_sample peak) mixed
        /\ Forall (fun x =>
             scaled_sample peak x
             = trunc (F32.mul (F32.div (F32.of_Z x) (F32.of_Z peak))
                              (F32.of_Z 32767))
             /\ -32767 <= scaled_sample peak x <= 32767) mixed
        /\ (peak < 2 ^ 128 ->
            Forall (fun x => Z.abs x = peak ->
                             scaled_sample peak x = Z.sgn x * 32767) mixed)).
Proof.
  rewrite generate_multi_track_split. intros H. inv_bind H.
  rename v into mixed.
  apply normalize_cases in H. destruct H as (peak & Hpeak & Hout).
  exists mixed, peak. split; [ exact Hv | ]. split; [ exact Hpeak | ].
  pose proof (mix_before_normalisation_binary32 _ _ _ _ Hv) as Hrep.
  pose proof (np_max_Z_bound _ _ Hpeak) as Hle.
  rewrite Forall_forall in Hrep, Hle.
  destruct (Z.ltb_spec 32767 peak) as [Hbig | Hsmall].
  - split; [ | split; [ lia | intros _ ] ].
    { subst out. apply Forall_forall. intros s Hs.
      apply in_map_iff in Hs. destruct Hs as (x & <- & _).
      apply astype_int16_range. }
    split; [ exact Hout | ].
    assert (Hpr : binary32_integer peak).
    { apply np_max_Z_in in Hpeak. apply in_map_iff in Hpeak.
      destruct Hpeak as (x & <- & Hx).
      apply binary32_integer_abs, Hrep, Hx. }
    split.
    + apply Forall_forall. intros x Hx.
      assert (Hxp : Z.abs x <= peak)
        by (apply Hle, in_map_iff; exists x; split; [ reflexivity | exact Hx ]).
      pose proof (scaled_sample_within peak x Hpr ltac:(lia) Hxp) as Hw.
      unfold scaled_sample. rewrite (astype_int16_trunc _ Hw).
      split; [ reflexivity | lia ].
    + intros H128. apply Forall_forall. intros x Hx Habs. subst peak.
      apply scaled_sample_of_the_peak; [ lia | apply Hrep, Hx | exact H128 ].
  - assert (Heq : out = mixed).
    { subst out. eapply map_astype_small; [ | exact Hsmall ].
      apply np_max_Z_bound; exact Hpeak. }
    split; [ | split; [ intros _; exact Heq | lia ] ].
    rewrite Hout. apply Forall_forall. intros s Hs.
    apply in_map_iff in Hs. destruct Hs as (x & <- & _).
    apply astype_int16_range.
Qed.

(** Two loud notes at once, at 8 samples per second: the sum of the tones
    reaches 61764, and is scaled down to a peak of 32767. *)
Lemma mix_output_in_range_witness :
  generate_multi_track small_angle_sin 8 [loud_note; loud_note]
  = Ok [0; 10922; 21844; 32767]
  /\ mix_before_normalisation small_angle_sin 8 [loud_note; loud_note]
     = Ok [0; 20588; 41176; 61764]
  /\ exists mixed peak,
       mix_before_normalisation small_angle_sin 8 [loud_note; loud_note]
       = Ok mixed
       /\ np_max_Z (map Z.abs mixed) = Ok peak
       /\ Forall (fun s => INT16_MIN <= s <= INT16_MAX)
                 [0; 10922; 21844; 32767]
       /\ (peak <= 32767 -> [0; 10922; 21844; 32767] = mixed)
       /\ (32767 < peak ->
           [0; 10922; 21844; 32767] = map (scaled_sample peak) mixed
           /\ Forall (fun x =>
                scaled_sample peak x
                = trunc (F32.mul (F32.div (F32.of_Z x) (F32.of_Z peak))
                                 (F32.of_Z 32767))
                /\ -32767 <= scaled_sample peak x <= 32767) mixed
           /\ (peak < 2 ^ 128 ->
               Forall (fun x => Z.abs x = peak ->
                                scaled_sample peak x = Z.sgn x * 32767)
                      mixed)).
Proof.
  split; [ reflexivity | ]. split; [ reflexivity | ].
  apply (mix_output_in_range_and_scaled_only_above_peak
           small_angle_sin 8 [loud_note; loud_note]). reflexivity.
Defined.
